(** * aria-usage: keyboard focus-order walker and static ARIA scanner

    A shallow embedding of the accessibility quick-check of the repository
    ([src/actions.ts], [src/app/api/check/route.ts],
    [src/lib/accessibility-types.ts]) and the proofs of its specification.

    - JavaScript strings are sequences of UTF-16 code units: [jsstring] is a
      list of code units, each one an [N].
    - The DOM that the in-page closures read is a store of elements addressed
      by node identifiers, so that [===] on elements is identity of
      identifiers.
    - The browser automation engine is an interface ([Browser]); the code that
      drives it lives in a state-and-exception monad whose state also records
      the calls made to the engine. *)

From Stdlib Require Import List NArith ZArith Lia Bool String Ascii DecimalString.
Import ListNotations.

Set Implicit Arguments.

(* ===================================================================== *)
(** ** JavaScript strings *)
(* ===================================================================== *)

Module JsString.

Definition jsstring := list N.

(** An ASCII literal of the source, as code units. *)
Definition lit (s : string) : jsstring :=
  map N_of_ascii (list_ascii_of_string s).

Fixpoint str_eqb (a b : jsstring) : bool :=
  match a, b with
  | [], [] => true
  | x :: a', y :: b' => N.eqb x y && str_eqb a' b'
  | _, _ => false
  end.

(** [a === b] on values of type [string | null]. *)
Definition opt_eqb (a b : option jsstring) : bool :=
  match a, b with
  | None, None => true
  | Some x, Some y => str_eqb x y
  | _, _ => false
  end.

(** A string is truthy when it is not empty. *)
Definition truthy (s : jsstring) : bool :=
  match s with [] => false | _ :: _ => true end.

(** ECMAScript WhiteSpace and LineTerminator code points: what
    [String.prototype.trim] strips and what [\s] matches. *)
Definition is_white_space (c : N) : bool :=
  ((9 <=? c) && (c <=? 13) || (c =? 32) || (c =? 160) || (c =? 5760)
   || (8192 <=? c) && (c <=? 8202) || (c =? 8232) || (c =? 8233)
   || (c =? 8239) || (c =? 8287) || (c =? 12288) || (c =? 65279))%N.

Fixpoint trimStart (s : jsstring) : jsstring :=
  match s with
  | [] => []
  | c :: s' => if is_white_space c then trimStart s' else s
  end.

Definition trimEnd (s : jsstring) : jsstring := rev (trimStart (rev s)).

Definition trim (s : jsstring) : jsstring := trimEnd (trimStart s).

(** [s.split(/\s+/)]: [cur] is the piece being read (reversed), [skipping]
    tells that the previous code unit belonged to a separator. *)
Fixpoint split_ws_from (cur : jsstring) (skipping : bool) (s : jsstring)
  : list jsstring :=
  match s with
  | [] => [rev cur]
  | c :: s' =>
      if is_white_space c then
        if skipping then split_ws_from cur true s'
        else rev cur :: split_ws_from [] true s'
      else split_ws_from (c :: cur) false s'
  end.

Definition split_ws (s : jsstring) : list jsstring := split_ws_from [] false s.

(** [parts.join(sep)]. *)
Fixpoint join (sep : jsstring) (parts : list jsstring) : jsstring :=
  match parts with
  | [] => []
  | [p] => p
  | p :: rest => p ++ sep ++ join sep rest
  end.

(** [s.slice(0, n)]. *)
Definition slice0 (n : nat) (s : jsstring) : jsstring := firstn n s.

(** Template interpolation of a non-negative integer. *)
Definition decimal (n : N) : jsstring :=
  lit (NilEmpty.string_of_uint (N.to_uint n)).

(** The character class of the regular expression in [cssEscape], by code
    unit: the ASCII punctuation other than [-] and [_], and the space. *)
Definition css_special (c : N) : bool :=
  existsb (N.eqb c)
    [33; 34; 35; 36; 37; 38; 39; 40; 41; 42; 43; 44; 46; 47; 58; 59; 60; 61;
     62; 63; 64; 91; 92; 93; 94; 96; 123; 124; 125; 126; 32]%N.

(** [value.replace(/(class)/g, backslash + $1)]: every code unit of the class
    is preceded by a backslash. *)
Definition cssEscape (value : jsstring) : jsstring :=
  flat_map (fun c => if css_special c then [92%N; c] else [c]) value.

(** The letters of [/^https?:\/\//i]: without the [u] flag a pattern letter
    matches its two ASCII cases and nothing else. *)
Definition ci_match (pat c : N) : bool :=
  (c =? pat)%N || (c =? pat - 32)%N.

(** [/^https?:\/\//i.test(input)]. *)
Definition has_http_prefix (input : jsstring) : bool :=
  match input with
  | h :: t1 :: t2 :: p :: rest =>
      ci_match 104 h && ci_match 116 t1 && ci_match 116 t2 && ci_match 112 p
      && match rest with
         | 58%N :: 47%N :: 47%N :: _ => true
         | s :: 58%N :: 47%N :: 47%N :: _ => ci_match 115 s
         | _ => false
         end
  | _ => false
  end.

End JsString.
Import JsString.

(** [normalizeUrl] of [src/lib/accessibility-types.ts] and [src/actions.ts]. *)
Definition normalizeUrl (input : jsstring) : jsstring :=
  if has_http_prefix input then input else lit "https://" ++ input.

(* ===================================================================== *)
(** ** The DOM read by the in-page closures *)
(* ===================================================================== *)

Definition NodeId := nat.

(** The DOM interfaces that the source tests with [instanceof]. *)
Inductive HtmlInterface :=
| HTMLImageElement
| HTMLInputElement
| HTMLTextAreaElement
| HTMLOtherElement.

Record Element := {
  tagName : jsstring;
  localName : jsstring;
  attributes : list (jsstring * jsstring);
  classList : list jsstring;
  parentElement : option NodeId;
  children : list NodeId;
  textContent : jsstring;
  outerHTML : jsstring;
  interface : HtmlInterface
}.

Record Document := {
  node : NodeId -> Element;
  (** every element of the document, in tree order *)
  elements : list NodeId;
  activeElement : option NodeId;
  body : option NodeId;
  documentElement : option NodeId
}.

(** [el.getAttribute(name)]: the first attribute of that name, or [null]. *)
Fixpoint getAttribute (attrs : list (jsstring * jsstring)) (name : jsstring)
  : option jsstring :=
  match attrs with
  | [] => None
  | (k, v) :: rest => if str_eqb k name then Some v else getAttribute rest name
  end.

Definition attr (e : Element) (name : string) : option jsstring :=
  getAttribute (attributes e) (lit name).

(** [el.id] reflects the [id] attribute, and is empty without one. *)
Definition id (e : Element) : jsstring :=
  match attr e "id" with Some v => v | None => [] end.

(** A value of type [string | null] is truthy when it is a non-empty string. *)
Definition opt_truthy (v : option jsstring) : bool :=
  match v with Some s => truthy s | None => false end.

(** [document.getElementById(i)]: the first element in tree order whose id
    is [i]; an empty id is the id of no element. *)
Definition getElementById (d : Document) (i : jsstring) : option NodeId :=
  find (fun n => truthy (id (node d n)) && str_eqb (id (node d n)) i) (elements d).

Definition is_image (e : Element) : bool :=
  match interface e with HTMLImageElement => true | _ => false end.

Definition is_text_input (e : Element) : bool :=
  match interface e with
  | HTMLInputElement | HTMLTextAreaElement => true
  | _ => false
  end.

(** [attribute && attribute.trim().length > 0 ? attribute.trim() : (next)]. *)
Definition trimmed_attr (e : Element) (name : string) : option jsstring :=
  match attr e name with
  | Some v => if truthy v && truthy (trim v) then Some (trim v) else None
  | None => None
  end.

Definition or_else {A} (a : option A) (b : option A) : option A :=
  match a with Some _ => a | None => b end.

(** The text assembled from [aria-labelledby]: the ids are split on white
    space, the ids that name no element are dropped, and the trimmed text
    contents of the others are joined by single spaces. *)
Definition labelledByText (d : Document) (labelledBy : jsstring) : jsstring :=
  let ids := split_ws labelledBy in
  let nodes := flat_map (fun i => match getElementById d i with
                                  | Some n => [n]
                                  | None => []
                                  end) ids in
  trim (join (lit " ") (map (fun n => trim (textContent (node d n))) nodes)).

(** [deriveAccessibleName] of [src/actions.ts] and of the closure in
    [src/app/api/check/route.ts]. *)
Definition deriveAccessibleName (d : Document) (el : Element)
  : option jsstring :=
  match trimmed_attr el "aria-label" with
  | Some ariaLabel => Some ariaLabel
  | None =>
  match (match attr el "aria-labelledby" with
         | Some labelledBy =>
             if truthy labelledBy then
               let text := labelledByText d labelledBy in
               if truthy text then Some text else None
             else None
         | None => None
         end) with
  | Some text => Some text
  | None =>
  match trimmed_attr el "title" with
  | Some title => Some title
  | None =>
  match (if is_image el then trimmed_attr el "alt" else None) with
  | Some alt => Some alt
  | None =>
  match (if is_text_input el
         then or_else (trimmed_attr el "placeholder") (trimmed_attr el "name")
         else None) with
  | Some v => Some v
  | None =>
      let text := trim (textContent el) in
      if truthy text then Some text else None
  end end end end end.

(** [siblings.indexOf(current)], or [-1]. *)
Fixpoint indexOf (l : list NodeId) (x : NodeId) : Z :=
  match l with
  | [] => (-1)%Z
  | y :: l' =>
      if Nat.eqb y x then 0%Z
      else match indexOf l' x with
           | Z.neg _ => (-1)%Z
           | i => (i + 1)%Z
           end
  end.

Section Selector.

(** [String.prototype.toLowerCase], provided by the JavaScript runtime. *)
Variable toLowerCase : jsstring -> jsstring.

(** The children of [current]'s parent that carry [current]'s tag name
    ([current] among them); no parent element gives no siblings. *)
Definition siblings (d : Document) (current : NodeId) : list NodeId :=
  match parentElement (node d current) with
  | Some p =>
      filter (fun child => str_eqb (tagName (node d child))
                               (tagName (node d current)))
             (children (node d p))
  | None => []
  end.

(** One turn of the loop of [buildSelector]: the selector of [current]. *)
Definition levelSelector (d : Document) (current : NodeId) : jsstring :=
  let selector := toLowerCase (tagName (node d current)) in
  let classes := classList (node d current) in
  let selector :=
    match classes with
    | [] => selector
    | _ => selector ++ lit "." ++ join (lit ".") (map cssEscape classes)
    end in
  let sibs := siblings d current in
  if (1 <? List.length sibs)%nat then
    let index := (indexOf sibs current + 1)%Z in
    selector ++ lit ":nth-of-type(" ++ decimal (Z.to_N index) ++ lit ")"
  else selector.

(** [while (current && depth < 4)]: [budget] is [4 - depth]. *)
Fixpoint selectorPath (d : Document) (budget : nat) (current : option NodeId)
    (path : list jsstring) : list jsstring :=
  match budget, current with
  | S budget', Some c =>
      selectorPath d budget' (parentElement (node d c))
                   (levelSelector d c :: path)
  | _, _ => path
  end.

(** [buildSelector]. *)
Definition buildSelector (d : Document) (el : NodeId) : jsstring :=
  if truthy (id (node d el)) then lit "#" ++ cssEscape (id (node d el))
  else join (lit " > ") (selectorPath d 4 (Some el) []).

(** ** Focus targets *)

Record FocusTarget := {
  selector : jsstring;
  tag : jsstring;
  role : option jsstring;
  name : option jsstring;
  hasAccessibleName : bool;
  htmlSnippet : jsstring
}.

(** The closure that [getActiveElementMetadata] evaluates in the page. *)
Definition activeElementMetadata (d : Document) : option FocusTarget :=
  match activeElement d with
  | None => None
  | Some el =>
      if (match body d with Some b => Nat.eqb el b | None => false end)
         || (match documentElement d with
             | Some r => Nat.eqb el r
             | None => false
             end)
      then None
      else
        let e := node d el in
        let name := deriveAccessibleName d e in
        Some {| selector := buildSelector d el;
                tag := toLowerCase (tagName e);
                role := if opt_truthy (attr e "role") then attr e "role"
                        else None;
                name := name;
                hasAccessibleName :=
                  match name with
                  | Some n => truthy n && truthy (trim n)
                  | None => false
                  end;
                htmlSnippet := slice0 160 (outerHTML e) |}
  end.

End Selector.

(** ** The static ARIA and alt-text scan *)

Record ImageDescriptor := {
  src : option jsstring;
  snippet : jsstring
}.

Record AriaReport := {
  ariaAttributeCount : nat;
  imagesMissingAlt : list ImageDescriptor
}.

(** [querySelectorAll] with the selector list of the scanner: the elements
    that carry one of the four attributes. *)
Definition has_aria (e : Element) : bool :=
  match attr e "aria-label", attr e "aria-labelledby",
        attr e "aria-describedby", attr e "role" with
  | None, None, None, None => false
  | _, _, _, _ => true
  end.

(** [document.querySelectorAll('img')], in tree order. *)
Definition images (d : Document) : list NodeId :=
  filter (fun n => str_eqb (localName (node d n)) (lit "img")) (elements d).

(** The predicate passed to [filter] in [getAriaReport]. *)
Definition missingAlt (img : Element) : bool :=
  match attr img "alt" with
  | None => true
  | Some alt =>
      let trimmed := trim alt in
      if (List.length trimmed =? 0)%nat && negb (opt_truthy (attr img "role"))
      then true
      else false
  end.

(** The closure that [getAriaReport] evaluates in the page. *)
Definition ariaReportOf (d : Document) : AriaReport :=
  let ariaNodes := filter (fun n => has_aria (node d n)) (elements d) in
  let imagesMissingAlt :=
    map (fun n => {| src := attr (node d n) "src";
                     snippet := slice0 160 (outerHTML (node d n)) |})
        (firstn 20 (filter (fun n => missingAlt (node d n)) (images d))) in
  {| ariaAttributeCount := List.length ariaNodes;
     imagesMissingAlt := imagesMissingAlt |}.

(* ===================================================================== *)
(** ** The browser automation engine and the monad of the checker *)
(* ===================================================================== *)

(** What a [catch] clause receives: an [Error] with its message, or any
    other thrown value. *)
Inductive Exn :=
| ErrorObject (message : jsstring)
| NonError.

Inductive result (A : Type) :=
| Ok (a : A)
| Throw (e : Exn).
Arguments Ok {A} a.
Arguments Throw {A} e.

Inductive Key := Tab | ShiftTab.

(** Browsers, contexts and pages are handles of the engine. *)
Definition Handle := nat.

(** A name that is bound nowhere in the scope where it is evaluated. *)
Definition referenceError (name : string) : Exn :=
  ErrorObject (lit name ++ lit " is not defined").

(** The capabilities consumed from the engine. Every call may change the
    world (the engine and the page it drives) and may throw. [evaluateRead]
    is [page.evaluate] of a closure that only reads the DOM: it yields the
    document the closure is run against, and [evaluateError] is the error
    with which [page.evaluate] rejects when the closure throws in the page.
    [evaluateBlur] and [evaluateFocus] are the two closures that change the
    focus; the latter returns whether an element matched the selector and
    was focused. *)
Record Browser (World : Type) := {
  importPlaywright : World -> World * result unit;
  executablePath : World -> World * result unit;
  launch : World -> World * result Handle;
  newContext : Handle -> World -> World * result Handle;
  newPage : Handle -> World -> World * result Handle;
  goto : Handle -> jsstring -> World -> World * result unit;
  waitForTimeout : Handle -> nat -> World -> World * result unit;
  keyboardPress : Handle -> Key -> World -> World * result unit;
  evaluateBlur : Handle -> World -> World * result unit;
  evaluateFocus : Handle -> jsstring -> World -> World * result bool;
  evaluateRead : Handle -> World -> World * result Document;
  evaluateError : Exn -> Exn;
  close : Handle -> World -> World * result unit
}.

(** The calls made to the engine, and the values they hand back. *)
Inductive Call :=
| CallImport
| CallExecutablePath
| CallLaunch
| CallNewContext (browser : Handle)
| CallNewPage (owner : Handle)
| CallGoto (page : Handle) (url : jsstring)
| CallWait (page : Handle) (ms : nat)
| CallPress (page : Handle) (key : Key)
| CallBlur (page : Handle)
| CallFocus (page : Handle) (sel : jsstring)
| CallMetadata (page : Handle)
| CallAria (page : Handle)
| CallClose (h : Handle).

Inductive Value :=
| VUnit
| VBool (b : bool)
| VHandle (h : Handle)
| VTarget (t : option FocusTarget)
| VAria (r : AriaReport).

(** The local variables that the [finally] clauses read. *)
Record Locals := {
  browserVar : option Handle;
  contextVar : option Handle;
  pageVar : option Handle
}.

Definition noLocals : Locals :=
  {| browserVar := None; contextVar := None; pageVar := None |}.

Record State (World : Type) := {
  world : World;
  calls : list (Call * result Value);
  locals : Locals
}.

Module CheckerMonad.

Definition M (World A : Type) := State World -> State World * result A.

Definition ret {W A} (a : A) : M W A := fun s => (s, Ok a).

Definition throw {W A} (e : Exn) : M W A := fun s => (s, Throw e).

Definition bind {W A B} (m : M W A) (f : A -> M W B) : M W B :=
  fun s => match m s with
           | (s', Ok a) => f a s'
           | (s', Throw e) => (s', Throw e)
           end.

(** [try { m } catch (e) { h e }]. *)
Definition try_catch {W A} (m : M W A) (h : Exn -> M W A) : M W A :=
  fun s => match m s with
           | (s', Ok a) => (s', Ok a)
           | (s', Throw e) => h e s'
           end.

(** [try { m } finally { f }]: [f] runs on every exit of [m]; when [f]
    throws, its exception replaces the completion of [m]. *)
Definition try_finally {W A} (m : M W A) (f : M W unit) : M W A :=
  fun s => match m s with
           | (s', r) =>
               match f s' with
               | (s'', Ok _) => (s'', r)
               | (s'', Throw e) => (s'', Throw e)
               end
           end.

(** [promise.catch(() => {})]. *)
Definition swallow {W} (m : M W unit) : M W unit :=
  try_catch m (fun _ => ret tt).

Definition getLocals {W} : M W Locals := fun s => (s, Ok (locals s)).

Definition setLocals {W} (l : Locals) : M W unit :=
  fun s => ({| world := world s; calls := calls s; locals := l |}, Ok tt).

Definition map_result {A B} (f : A -> B) (r : result A) : result B :=
  match r with Ok a => Ok (f a) | Throw e => Throw e end.

(** A call to the engine: the world moves on and the call is recorded with
    what it handed back. *)
Definition invoke {W A} (prim : W -> W * result A) (c : Call)
    (inj : A -> Value) : M W A :=
  fun s => match prim (world s) with
           | (w', r) =>
               ({| world := w';
                   calls := calls s ++ [(c, map_result inj r)];
                   locals := locals s |}, r)
           end.

End CheckerMonad.
Import CheckerMonad.

Declare Scope checker_scope.
Delimit Scope checker_scope with checker.
Notation "x <- m ;; k" := (bind m (fun x => k))
  (at level 61, m at next level, right associativity) : checker_scope.
Notation "m ;; k" := (bind m (fun _ => k))
  (at level 61, right associativity) : checker_scope.
Local Open Scope checker_scope.

(** ** Reports *)

Record TabOrderReport := {
  visited : list FocusTarget;
  cycleDetected : bool;
  limitReached : bool;
  shiftTabConsistent : option bool
}.

Record AccessibilityCheckState := {
  ok : bool;
  summary : jsstring;
  url : option jsstring;
  tabOrder : option TabOrderReport;
  aria : option AriaReport;
  errors : option (list jsstring)
}.

(** [item.selector === target.selector && item.name === target.name]. *)
Definition same_target (target item : FocusTarget) : bool :=
  str_eqb (selector item) (selector target)
  && opt_eqb (name item) (name target).

(** Reading a property of [undefined] throws a [TypeError]. *)
Definition typeError : Exn :=
  ErrorObject (lit "Cannot read properties of undefined").

(* ===================================================================== *)
(** ** The Tab-order walker and the reverse-order verifier *)
(* ===================================================================== *)

Section Walker.

Context {World : Type}.
Variable engine : Browser World.
(** The closure that [getActiveElementMetadata] of the enclosing source
    file passes to [page.evaluate], as it runs in the page. *)
Variable inPage : Document -> result (option FocusTarget).
(** The iteration limit that the enclosing source file binds. *)
Variable MAX_TAB_ITERATIONS : nat.

Definition press (page : Handle) (key : Key) : M World unit :=
  invoke (keyboardPress engine page key) (CallPress page key)
         (fun _ => VUnit).

Definition wait (page : Handle) (ms : nat) : M World unit :=
  invoke (waitForTimeout engine page ms) (CallWait page ms) (fun _ => VUnit).

(** [page.evaluate] of a closure that reads the DOM: the closure is run
    against the document of the page; its value is handed back, and what it
    throws comes back as the error of the engine. *)
Definition evaluate {A} (page : Handle) (closure : Document -> result A)
  : World -> World * result A :=
  fun w => match evaluateRead engine page w with
           | (w', Ok d) =>
               (w', match closure d with
                    | Ok a => Ok a
                    | Throw e => Throw (evaluateError engine e)
                    end)
           | (w', Throw e) => (w', Throw e)
           end.

(** [getActiveElementMetadata]. *)
Definition getActiveElementMetadata (page : Handle)
  : M World (option FocusTarget) :=
  invoke (evaluate page inPage) (CallMetadata page) VTarget.

(** [getAriaReport]. *)
Definition getAriaReport (page : Handle) : M World AriaReport :=
  invoke (evaluate page (fun d => Ok (ariaReportOf d))) (CallAria page) VAria.

(** The [for] loop of [buildTabOrderReport], with [remaining] iterations
    to go ([MAX_TAB_ITERATIONS - i]); it yields [visited] and
    [cycleDetected]. *)
Fixpoint tabLoop (remaining : nat) (page : Handle)
    (visited : list FocusTarget) : M World (list FocusTarget * bool) :=
  match remaining with
  | O => ret (visited, false)
  | S remaining' =>
      press page Tab ;;
      wait page 50 ;;
      target <- getActiveElementMetadata page ;;
      match target with
      | None => ret (visited, false)
      | Some target =>
          if existsb (same_target target) visited
          then ret (visited, true)
          else tabLoop remaining' page (visited ++ [target])
      end
  end.

(** The [for] loop of [verifyShiftTab], at index [i]. *)
Fixpoint shiftTabLoop (i : nat) (page : Handle)
    (visited : list FocusTarget) : M World (option bool) :=
  match i with
  | O => ret (Some true)
  | S i' =>
      press page ShiftTab ;;
      wait page 50 ;;
      target <- getActiveElementMetadata page ;;
      match target with
      | None => ret (Some false)
      | Some target =>
          match nth_error visited i' with
          | None => throw typeError
          | Some expected =>
              if negb (str_eqb (selector target) (selector expected))
                 || negb (opt_eqb (name target) (name expected))
              then ret (Some false)
              else shiftTabLoop i' page visited
          end
      end
  end.

(** [verifyShiftTab]. *)
Definition verifyShiftTab (page : Handle) (visited : list FocusTarget)
  : M World (option bool) :=
  if (List.length visited <=? 1)%nat then ret None
  else
    match nth_error visited (List.length visited - 1) with
    | None => throw typeError
    | Some lastTarget =>
        refocused <- invoke (evaluateFocus engine page (selector lastTarget))
                            (CallFocus page (selector lastTarget)) VBool ;;
        if negb refocused then ret None
        else shiftTabLoop (List.length visited - 1) page visited
    end.

(** [buildTabOrderReport]. *)
Definition buildTabOrderReport (page : Handle) : M World TabOrderReport :=
  invoke (evaluateBlur engine page) (CallBlur page) (fun _ => VUnit) ;;
  loop <- tabLoop MAX_TAB_ITERATIONS page [] ;;
  let visited := fst loop in
  let cycleDetected := snd loop in
  let limitReached := (List.length visited =? MAX_TAB_ITERATIONS)%nat in
  shiftTabConsistent <- verifyShiftTab page visited ;;
  ret {| visited := visited;
         cycleDetected := cycleDetected;
         limitReached := limitReached;
         shiftTabConsistent := shiftTabConsistent |}.

(** ** The check itself *)

Definition errorMessage (error : Exn) : jsstring :=
  match error with
  | ErrorObject message => message
  | NonError => lit "Unknown error"
  end.

Definition missingUrl : AccessibilityCheckState :=
  {| ok := false;
     summary := lit "Please provide a URL to check.";
     url := None; tabOrder := None; aria := None;
     errors := Some [lit "Missing URL"] |}.

Definition success (normalizedUrl : jsstring) (tabOrder : TabOrderReport)
    (aria : AriaReport) : AccessibilityCheckState :=
  {| ok := true;
     summary := lit "Accessibility quick-check completed for "
                ++ normalizedUrl;
     url := Some normalizedUrl;
     tabOrder := Some tabOrder;
     aria := Some aria;
     errors := None |}.

Definition failure (normalizedUrl : jsstring) (error : Exn)
  : AccessibilityCheckState :=
  {| ok := false;
     summary := lit "Unable to complete accessibility check for "
                ++ normalizedUrl;
     url := Some normalizedUrl;
     tabOrder := None; aria := None;
     errors := Some [errorMessage error] |}.

Definition setBrowser (h : Handle) : M World unit :=
  l <- getLocals ;;
  setLocals {| browserVar := Some h; contextVar := contextVar l;
               pageVar := pageVar l |}.

Definition setContext (h : Handle) : M World unit :=
  l <- getLocals ;;
  setLocals {| browserVar := browserVar l; contextVar := Some h;
               pageVar := pageVar l |}.

Definition setPage (h : Handle) : M World unit :=
  l <- getLocals ;;
  setLocals {| browserVar := browserVar l; contextVar := contextVar l;
               pageVar := Some h |}.

Definition closeHandle (h : Handle) : M World unit :=
  invoke (close engine h) (CallClose h) (fun _ => VUnit).

(** [handle?.close()]. *)
Definition closeIfSet (h : option Handle) : M World unit :=
  match h with Some h => closeHandle h | None => ret tt end.

(** An entry of a [FormData]: a string or a file. *)
Inductive FormDataEntry :=
| EntryString (s : jsstring)
| EntryFile.

Definition FormData := list (jsstring * FormDataEntry).

(** [formData.get(name)]: the first entry of that name, or [null]. *)
Fixpoint formDataGet (fd : FormData) (name : jsstring)
  : option FormDataEntry :=
  match fd with
  | [] => None
  | (k, v) :: rest => if str_eqb k name then Some v else formDataGet rest name
  end.

(** [(formData.get('url') || '').toString().trim()]. *)
Definition formRawUrl (formData : FormData) : jsstring :=
  trim match formDataGet formData (lit "url") with
       | None => []
       | Some (EntryString s) => s
       | Some EntryFile => lit "[object File]"
       end.

(** [checkAccessibilityAction] of [src/actions.ts]. *)
Definition checkAccessibilityAction (formData : FormData)
  : M World AccessibilityCheckState :=
  let rawUrl := formRawUrl formData in
  if negb (truthy rawUrl) then ret missingUrl
  else
    let normalizedUrl := normalizeUrl rawUrl in
    setLocals noLocals ;;
    try_finally
      (try_catch
         (invoke (importPlaywright engine) CallImport (fun _ => VUnit) ;;
          browser <- invoke (launch engine) CallLaunch VHandle ;;
          setBrowser browser ;;
          page <- invoke (newPage engine browser) (CallNewPage browser)
                         VHandle ;;
          invoke (goto engine page normalizedUrl)
                 (CallGoto page normalizedUrl) (fun _ => VUnit) ;;
          wait page 250 ;;
          tabOrder <- buildTabOrderReport page ;;
          aria <- getAriaReport page ;;
          ret (success normalizedUrl tabOrder aria))
         (fun error => ret (failure normalizedUrl error)))
      (l <- getLocals ;; closeIfSet (browserVar l)).

(** ** The route handler *)

(** A parsed JSON body. A number comes with its string conversion. *)
#[local] Unset Elimination Schemes.
Inductive JsonValue :=
| JNull
| JBool (b : bool)
| JNumber (text : jsstring)
| JString (s : jsstring)
| JArray (items : list JsonValue)
| JObject (members : list (jsstring * JsonValue)).
#[local] Set Elimination Schemes.

(** The member of that name of a parsed object: the last one wins. *)
Fixpoint member (members : list (jsstring * JsonValue)) (name : jsstring)
  : option JsonValue :=
  match members with
  | [] => None
  | (k, v) :: rest =>
      match member rest name with
      | Some later => Some later
      | None => if str_eqb k name then Some v else None
      end
  end.

(** A parsed object with a member [toString] of its own: the member hides
    [Object.prototype.toString], and a parsed value is never a function. *)
Definition ownToString (members : list (jsstring * JsonValue)) : bool :=
  match member members (lit "toString") with
  | Some _ => true
  | None => false
  end.

(** The [TypeError]s of the runtime for such an object: when it is converted
    to a string, and when its [toString] is called. The texts are those of
    the runtime; the handler never reads them. *)
Definition notPrimitive : Exn :=
  ErrorObject (lit "Cannot convert object to primitive value").

Definition notAFunction : Exn :=
  ErrorObject (lit "toString is not a function").

(** The conversion of a parsed value to a string, which [join] applies to
    the elements of an array other than [null]. The elements are converted
    in order, so the first one that throws ends the conversion. *)
Fixpoint jsonToString (v : JsonValue) : result jsstring :=
  match v with
  | JNull => Ok (lit "null")
  | JBool true => Ok (lit "true")
  | JBool false => Ok (lit "false")
  | JNumber text => Ok text
  | JString s => Ok s
  | JArray items =>
      map_result (join (lit ","))
        ((fix each (items : list JsonValue) : result (list jsstring) :=
            match items with
            | [] => Ok []
            | item :: rest =>
                match (match item with
                       | JNull => Ok []
                       | _ => jsonToString item
                       end) with
                | Throw e => Throw e
                | Ok text =>
                    match each rest with
                    | Throw e => Throw e
                    | Ok texts => Ok (text :: texts)
                    end
                end
            end) items)
  | JObject members =>
      if ownToString members then Throw notPrimitive
      else Ok (lit "[object Object]")
  end.

(** [value.toString()] of a parsed value other than [null]. *)
Definition callToString (v : JsonValue) : result jsstring :=
  match v with
  | JObject members =>
      if ownToString members then Throw notAFunction
      else Ok (lit "[object Object]")
  | _ => jsonToString v
  end.

(** [payload?.url]: only an object has the property. *)
Definition payloadUrl (payload : JsonValue) : option JsonValue :=
  match payload with
  | JObject members => member members (lit "url")
  | _ => None
  end.

(** [payload?.url?.toString().trim() ?? ""]. *)
Definition jsonRawUrl (payload : JsonValue) : result jsstring :=
  match payloadUrl payload with
  | None | Some JNull => Ok []
  | Some v => map_result trim (callToString v)
  end.

Record Response := {
  status : nat;
  json : AccessibilityCheckState
}.

Definition invalidPayload : AccessibilityCheckState :=
  {| ok := false;
     summary := lit "Invalid request payload.";
     url := None; tabOrder := None; aria := None;
     errors := Some [lit "Expected JSON body with a url field."] |}.

(** [resolvePlaywright]: outside Vercel the local package is imported, and
    the failure of that import falls back to the core package. *)
Definition resolvePlaywright (isVercel : bool) : M World unit :=
  if isVercel then ret tt
  else try_catch (invoke (importPlaywright engine) CallImport
                         (fun _ => VUnit))
                 (fun _ => ret tt).

(** [buildLaunchOptions]. *)
Definition buildLaunchOptions (isVercel : bool) : M World unit :=
  if negb isVercel then ret tt
  else invoke (executablePath engine) CallExecutablePath (fun _ => VUnit).

(** [POST] of [src/app/api/check/route.ts]; [body] is what [req.json()]
    yields, [None] when it throws. The url is read before the [try] block,
    so what its conversion throws is thrown by the handler. *)
Definition POST (isVercel : bool) (body : option JsonValue)
  : M World Response :=
  match body with
  | None => ret {| status := 400; json := invalidPayload |}
  | Some payload =>
      match jsonRawUrl payload with
      | Throw e => throw e
      | Ok rawUrl =>
      if negb (truthy rawUrl) then ret {| status := 400; json := missingUrl |}
      else
        let normalizedUrl := normalizeUrl rawUrl in
        resolvePlaywright isVercel ;;
        setLocals noLocals ;;
        try_finally
          (try_catch
             (buildLaunchOptions isVercel ;;
              browser <- invoke (launch engine) CallLaunch VHandle ;;
              setBrowser browser ;;
              context <- invoke (newContext engine browser)
                                (CallNewContext browser) VHandle ;;
              setContext context ;;
              page <- invoke (newPage engine context) (CallNewPage context)
                             VHandle ;;
              setPage page ;;
              invoke (goto engine page normalizedUrl)
                     (CallGoto page normalizedUrl) (fun _ => VUnit) ;;
              wait page 250 ;;
              tabOrder <- buildTabOrderReport page ;;
              aria <- getAriaReport page ;;
              let result := success normalizedUrl tabOrder aria in
              closeHandle context ;;
              ret {| status := 200; json := result |})
             (fun error =>
                ret {| status := 500;
                       json := failure normalizedUrl error |}))
          (l <- getLocals ;;
           swallow (closeIfSet (pageVar l)) ;;
           swallow (closeIfSet (contextVar l)) ;;
           swallow (closeIfSet (browserVar l)))
      end
  end.

End Walker.

(* ===================================================================== *)
(** ** The two source files that run the walk *)
(* ===================================================================== *)

(** [src/lib/accessibility-types.ts]. *)
Module AccessibilityTypes.
Definition MAX_TAB_ITERATIONS : nat := 100.
End AccessibilityTypes.

(** [src/actions.ts]: the server action that drives the engine itself. *)
Module ActionsTs.

Definition MAX_TAB_ITERATIONS : nat := 30.

(** The closure of [getActiveElementMetadata] in this file. Its text names
    [buildSelector] and [deriveAccessibleName], which are functions of the
    module: the closure is run in the page, where they are bound to
    nothing, so past its guard it throws at the first of them. *)
Definition activeElementClosure (d : Document)
  : result (option FocusTarget) :=
  match activeElement d with
  | None => Ok None
  | Some el =>
      if (match body d with Some b => Nat.eqb el b | None => false end)
         || (match documentElement d with
             | Some r => Nat.eqb el r
             | None => false
             end)
      then Ok None
      else Throw (referenceError "buildSelector")
  end.

Definition buildTabOrderReport {World} (engine : Browser World)
    (page : Handle) : M World TabOrderReport :=
  buildTabOrderReport engine activeElementClosure MAX_TAB_ITERATIONS page.

Definition checkAccessibilityAction {World} (engine : Browser World)
    (formData : FormData) : M World AccessibilityCheckState :=
  checkAccessibilityAction engine activeElementClosure MAX_TAB_ITERATIONS
                           formData.

End ActionsTs.

(** [src/app/api/check/route.ts]: the route handler, which imports the limit
    of [src/lib/accessibility-types.ts]. *)
Module RouteTs.

(** The closure of [getActiveElementMetadata] in this file, which declares
    [cssEscape], [buildSelector] and [deriveAccessibleName] itself. *)
Definition activeElementClosure (toLowerCase : jsstring -> jsstring)
    (d : Document) : result (option FocusTarget) :=
  Ok (activeElementMetadata toLowerCase d).

Definition buildTabOrderReport {World} (engine : Browser World)
    (toLowerCase : jsstring -> jsstring) (page : Handle)
  : M World TabOrderReport :=
  buildTabOrderReport engine (activeElementClosure toLowerCase)
                      AccessibilityTypes.MAX_TAB_ITERATIONS page.

Definition POST {World} (engine : Browser World)
    (toLowerCase : jsstring -> jsstring) (isVercel : bool)
    (body : option JsonValue) : M World Response :=
  POST engine (activeElementClosure toLowerCase)
       AccessibilityTypes.MAX_TAB_ITERATIONS isVercel body.

End RouteTs.

(* ===================================================================== *)
(** ** A simulated page, to run the checker on *)
(* ===================================================================== *)

Module Sim.

(** A page with [links] focusable links, each with its own id. [focus] is
    the link that has the focus, [0] when the body has it. Tab moves the
    focus forward, and past the last link either back to the first one
    ([wraps]) or out of the page; Shift+Tab moves it [back] links backwards.
    [focusable] tells whether a link accepts a programmatic focus, and
    [reachable] whether the navigation succeeds. *)
Record Page := {
  links : nat;
  wraps : bool;
  back : nat;
  focusable : bool;
  reachable : bool;
  focus : nat
}.

Definition moveTo (p : Page) (k : nat) : Page :=
  {| links := links p; wraps := wraps p; back := back p;
     focusable := focusable p; reachable := reachable p; focus := k |}.

Definition linkElement (k : nat) : Element :=
  {| tagName := lit "A";
     localName := lit "a";
     attributes := [(lit "id", lit "link" ++ decimal (N.of_nat k));
                    (lit "href", lit "#")];
     classList := [];
     parentElement := Some 0;
     children := [];
     textContent := lit "Link";
     outerHTML := lit "<a href=#>Link</a>";
     interface := HTMLOtherElement |}.

Definition bodyElement (n : nat) : Element :=
  {| tagName := lit "BODY";
     localName := lit "body";
     attributes := [];
     classList := [];
     parentElement := None;
     children := seq 1 n;
     textContent := [];
     outerHTML := lit "<body></body>";
     interface := HTMLOtherElement |}.

Definition document (p : Page) : Document :=
  {| node := fun k => match k with
                      | O => bodyElement (links p)
                      | _ => linkElement k
                      end;
     elements := seq 0 (S (links p));
     activeElement := Some (focus p);
     body := Some 0;
     documentElement := None |}.

Definition pressKey (key : Key) (p : Page) : Page :=
  match key with
  | Tab =>
      if (focus p <? links p)%nat then moveTo p (S (focus p))
      else if wraps p then moveTo p 1 else moveTo p 0
  | ShiftTab =>
      if (back p <? focus p)%nat then moveTo p (focus p - back p)
      else if wraps p then moveTo p (links p) else moveTo p 0
  end.

Definition focusSelector (sel : jsstring) (p : Page) : Page * result bool :=
  match find (fun k => str_eqb (lit "#link" ++ decimal (N.of_nat k)) sel)
             (seq 1 (links p)) with
  | Some k => if focusable p then (moveTo p k, Ok true) else (p, Ok false)
  | None => (p, Ok false)
  end.

Definition engine : Browser Page :=
  {| importPlaywright := fun p => (p, Ok tt);
     executablePath := fun p => (p, Ok tt);
     launch := fun p => (p, Ok 1);
     newContext := fun _ p => (p, Ok 2);
     newPage := fun _ p => (p, Ok 3);
     goto := fun _ _ p =>
       if reachable p then (p, Ok tt)
       else (p, Throw (ErrorObject (lit "net::ERR_NAME_NOT_RESOLVED")));
     waitForTimeout := fun _ _ p => (p, Ok tt);
     keyboardPress := fun _ key p => (pressKey key p, Ok tt);
     evaluateBlur := fun _ p => (moveTo p 0, Ok tt);
     evaluateFocus := fun _ sel p => focusSelector sel p;
     evaluateRead := fun _ p => (p, Ok (document p));
     evaluateError := fun e =>
       ErrorObject (lit "page.evaluate: " ++ errorMessage e);
     close := fun _ p => (p, Ok tt) |}.

(** Lower case of the ASCII letters, which is what [toLowerCase] does on
    the tag names of the simulated page. *)
Definition lowerAscii (s : jsstring) : jsstring :=
  map (fun c => if (65 <=? c)%N && (c <=? 90)%N then (c + 32)%N else c) s.

Definition page (n : nat) (wrap : bool) : Page :=
  {| links := n; wraps := wrap; back := 1; focusable := true;
     reachable := true; focus := 0 |}.

Definition start (p : Page) : State Page :=
  {| world := p; calls := []; locals := noLocals |}.

(** The walk of the route handler on the page [p], and its report. *)
Definition walk (p : Page) : State Page * result TabOrderReport :=
  RouteTs.buildTabOrderReport engine lowerAscii 3 (start p).

Definition report (p : Page) : result TabOrderReport := snd (walk p).

(** The same engine with two faults: a Tab press throws once the link
    [crashAt] has the focus, and closing a handle throws when [closeFails]
    is set. *)
Definition faulty (crashAt : nat) (closeFails : bool) : Browser Page :=
  {| importPlaywright := importPlaywright engine;
     executablePath := executablePath engine;
     launch := launch engine;
     newContext := newContext engine;
     newPage := newPage engine;
     goto := goto engine;
     waitForTimeout := waitForTimeout engine;
     keyboardPress := fun h key p =>
       if (focus p =? crashAt)%nat
       then (p, Throw (ErrorObject (lit "Target closed")))
       else keyboardPress engine h key p;
     evaluateBlur := evaluateBlur engine;
     evaluateFocus := evaluateFocus engine;
     evaluateRead := evaluateRead engine;
     evaluateError := evaluateError engine;
     close := fun h p =>
       if closeFails
       then (p, Throw (ErrorObject (lit "Browser has been closed")))
       else close engine h p |}.

(** The targets visited on a page of three links. *)
Definition threeLinks : list FocusTarget :=
  match report (page 3 false) with
  | Ok r => visited r
  | Throw _ => []
  end.

End Sim.

(* ===================================================================== *)
(** ** Sample documents *)
(* ===================================================================== *)

Module Samples.

Local Open Scope string_scope.

Definition element (tagName localName : string)
    (attributes : list (string * string)) (classes : list string)
    (parentElement : option NodeId) (children : list NodeId)
    (text html : string) (interface : HtmlInterface) : Element :=
  {| tagName := lit tagName;
     localName := lit localName;
     attributes := map (fun kv => (lit (fst kv), lit (snd kv))) attributes;
     classList := map lit classes;
     parentElement := parentElement;
     children := children;
     textContent := lit text;
     outerHTML := lit html;
     interface := interface |}.

Definition detached : Element :=
  element "SPAN" "span" [] [] None [] "" "<span></span>" HTMLOtherElement.

(** A page with a navigation bar of two links, three images and a search
    field; the second link has the focus. *)
Definition galleryNodes : list Element :=
  [ element "HTML" "html" [] [] None [1] "" "<html>" HTMLOtherElement;
    element "BODY" "body" [] [] (Some 0) [2; 3; 4; 5; 6] "" "<body>"
            HTMLOtherElement;
    element "DIV" "div" [("class", "nav bar")] ["nav"; "bar"] (Some 1)
            [7; 8] "Home About" "<div class=nav>" HTMLOtherElement;
    element "IMG" "img" [("src", "a.png"); ("alt", ""); ("role", "")] []
            (Some 1) [] "" "<img src=a.png alt role>" HTMLImageElement;
    element "IMG" "img" [("src", "b.png")] [] (Some 1) [] ""
            "<img src=b.png>" HTMLImageElement;
    element "IMG" "img" [("src", "c.png"); ("alt", "logo")] [] (Some 1) []
            "" "<img src=c.png alt=logo>" HTMLImageElement;
    element "INPUT" "input"
            [("id", "q"); ("aria-label", " Search "); ("title", "Find");
             ("placeholder", "Type here"); ("name", "query")]
            [] (Some 1) [] "" "<input id=q>" HTMLInputElement;
    element "A" "a" [("class", "item")] ["item"] (Some 2) [] "Home"
            "<a class=item>Home</a>" HTMLOtherElement;
    element "A" "a" [("class", "item"); ("aria-label", "About us")]
            ["item"] (Some 2) [] "About" "<a class=item>About</a>"
            HTMLOtherElement ].

Definition gallery : Document :=
  {| node := fun n => nth n galleryNodes detached;
     elements := [0; 1; 2; 7; 8; 3; 4; 5; 6];
     activeElement := Some 8;
     body := Some 1;
     documentElement := Some 0 |}.

End Samples.

(* ===================================================================== *)
(** ** The server action that calls the route handler *)
(* ===================================================================== *)

(** [src/lib/actions.ts]. *)
Module LibActionsTs.

(** The variables of [process.env] that the action reads. *)
Record Env := {
  NODE_ENV : option jsstring;
  NEXT_PUBLIC_APP_URL : option jsstring;
  VERCEL_URL : option jsstring
}.

Definition API_PATH : jsstring := lit "/api/check".

(** [resolveBaseUrl]. *)
Definition resolveBaseUrl (env : Env) : jsstring :=
  if negb (opt_eqb (NODE_ENV env) (Some (lit "production")))
  then lit "http://localhost:3000"
  else
    match NEXT_PUBLIC_APP_URL env with
    | Some (c :: appUrl) => c :: appUrl
    | _ =>
        match VERCEL_URL env with
        | Some (c :: vercelUrl) => lit "https://" ++ c :: vercelUrl
        | _ => lit "https://localhost"
        end
    end.

(** What [fetch] is called with: the URL, the method, the content type and
    the value that the body serializes. *)
Record Request := {
  reqUrl : jsstring;
  reqMethod : jsstring;
  reqContentType : jsstring;
  reqBody : JsonValue
}.

(** What [fetch] resolves to: [response.ok], [response.status] and what
    [response.json()] yields. *)
Record FetchResponse := {
  respOk : bool;
  respStatus : nat;
  respJson : result JsonValue
}.

(** The runtime that the action consumes: the [URL] constructor, which
    throws on a base that is no absolute URL, and [fetch]. *)
Record Network (World : Type) := {
  newURL : jsstring -> jsstring -> result jsstring;
  fetch : Request -> World -> World * result FetchResponse
}.

(** The world of the action, with the requests it has sent. *)
Record NetState (World : Type) := {
  net : World;
  requests : list Request
}.

(** The value the action resolves to: a state it built, or the payload of
    the service, which the source casts to a state without a check. *)
Inductive ActionResult :=
| Built (st : AccessibilityCheckState)
| Received (payload : JsonValue).

Definition serviceFailure (normalizedUrl : jsstring) (status : nat)
  : AccessibilityCheckState :=
  {| ok := false;
     summary := lit "Unable to complete accessibility check for "
                ++ normalizedUrl;
     url := Some normalizedUrl;
     tabOrder := None; aria := None;
     errors := Some [lit "Accessibility service returned "
                     ++ decimal (N.of_nat status)] |}.

(** [JSON.stringify({ url: normalizedUrl })], as the value it serializes. *)
Definition requestBody (normalizedUrl : jsstring) : JsonValue :=
  JObject [(lit "url", JString normalizedUrl)].

(** [checkAccessibilityAction] of [src/lib/actions.ts]. *)
Definition checkAccessibilityAction {World} (network : Network World)
    (env : Env) (formData : FormData) (s : NetState World)
  : NetState World * result ActionResult :=
  let rawUrl := formRawUrl formData in
  if negb (truthy rawUrl) then (s, Ok (Built missingUrl))
  else
    let normalizedUrl := normalizeUrl rawUrl in
    match newURL network API_PATH (resolveBaseUrl env) with
    | Throw e => (s, Throw e)
    | Ok apiUrl =>
        let request := {| reqUrl := apiUrl;
                          reqMethod := lit "POST";
                          reqContentType := lit "application/json";
                          reqBody := requestBody normalizedUrl |} in
        match fetch network request (net s) with
        | (w, fetched) =>
            let s' := {| net := w; requests := requests s ++ [request] |} in
            match fetched with
            | Throw error => (s', Ok (Built (failure normalizedUrl error)))
            | Ok response =>
                if negb (respOk response)
                then (s', Ok (Built (serviceFailure normalizedUrl
                                       (respStatus response))))
                else
                  match respJson response with
                  | Ok payload => (s', Ok (Received payload))
                  | Throw error =>
                      (s', Ok (Built (failure normalizedUrl error)))
                  end
            end
        end
    end.

End LibActionsTs.

(* ===================================================================== *)
(** ** The results panel *)
(* ===================================================================== *)

(** The part of [src/components/ascii-animation.tsx] that renders a state:
    [AccessibilityChecker] and [TabOrderResults]. *)
Module CheckerUi.

Definition cycleIssue : jsstring :=
  lit "Focus cycle detected before exhausting elements " ++ [8212%N]
  ++ lit " review tabindex values and hidden focus states.".

Definition limitIssue : jsstring :=
  lit "Tab traversal hit the iteration limit (30). There may be many focusable elements or a loop.".

Definition shiftTabIssue : jsstring :=
  lit "Shift+Tab did not walk focus in reverse order " ++ [8212%N]
  ++ lit " check custom key handlers or tabindex.".

(** The [issues] that [TabOrderResults] lists. *)
Definition tabOrderIssues (report : TabOrderReport) : list jsstring :=
  let issues := [] in
  let issues := if cycleDetected report then issues ++ [cycleIssue]
                else issues in
  let issues := if limitReached report then issues ++ [limitIssue]
                else issues in
  let issues := match shiftTabConsistent report with
                | Some false => issues ++ [shiftTabIssue]
                | _ => issues
                end in
  issues.


(** [state.errors?.length], as a truth value. *)
Definition hasErrors (state : AccessibilityCheckState) : bool :=
  match errors state with
  | Some (_ :: _) => true
  | _ => false
  end.

Definition isSome {A} (o : option A) : bool :=
  match o with Some _ => true | None => false end.

(** [hasResults] of [AccessibilityChecker]. *)
Definition hasResults (state : AccessibilityCheckState) : bool :=
  isSome (tabOrder state) || isSome (aria state) || hasErrors state.

Inductive Panel :=
| TabOrderResults (report : TabOrderReport)
| AriaResults (report : AriaReport)
| ErrorList (errors : list jsstring).

(** The panels that [AccessibilityChecker] renders under the status
    banner, in order. *)
Definition panels (state : AccessibilityCheckState) : list Panel :=
  if hasResults state then
    match tabOrder state with Some r => [TabOrderResults r] | None => [] end
    ++ match aria state with Some r => [AriaResults r] | None => [] end
    ++ match errors state with
       | Some (e :: es) => [ErrorList (e :: es)]
       | _ => []
       end
  else [].

Definition initialState : AccessibilityCheckState :=
  {| ok := false;
     summary := lit "Paste a URL and run the accessibility checks.";
     url := None; tabOrder := None; aria := None; errors := None |}.

End CheckerUi.

(* ===================================================================== *)
(** ** The vocabulary of the specification *)
(* ===================================================================== *)

(** [Pick P l l']: [l'] lists, in the order of [l], the elements of [l] that
    satisfy [P]. *)
Inductive Pick {A} (P : A -> Prop) : list A -> list A -> Prop :=
| pick_nil : Pick P [] []
| pick_keep x l l' : P x -> Pick P l l' -> Pick P (x :: l) (x :: l')
| pick_skip x l l' : ~ P x -> Pick P l l' -> Pick P (x :: l) l'.

(** An image lacks a usable alternative text, as the scanner judges it: no
    [alt] attribute, or one that trims to the empty string on an image whose
    [role] attribute is missing or empty. *)
Definition MissingAlt (img : Element) : Prop :=
  attr img "alt" = None
  \/ exists alt, attr img "alt" = Some alt /\ trim alt = []
                 /\ (attr img "role" = None \/ attr img "role" = Some []).

(** The same judgement in the words of the specification, where an image
    with a [role] attribute, even an empty one, is not missing its text. *)
Definition claimedMissingAlt (img : Element) : bool :=
  match attr img "alt" with
  | None => true
  | Some alt =>
      match trim alt, attr img "role" with
      | [], None => true
      | _, _ => false
      end
  end.

Definition descriptor (d : Document) (n : NodeId) : ImageDescriptor :=
  {| src := attr (node d n) "src";
     snippet := slice0 160 (outerHTML (node d n)) |}.

Definition claimedImagesMissingAlt (d : Document) : list ImageDescriptor :=
  map (descriptor d)
      (firstn 20 (filter (fun n => claimedMissingAlt (node d n)) (images d))).



(** The characters that the specification lists for escaping, the double
    quote given by its code unit. *)
Definition escapedCharacters : jsstring :=
  lit "!" ++ [34%N] ++ lit "#$%&'()*+,./:;<=>?@[\]^`{|}~" ++ lit " ".

(** [w] is [v] escaped: each listed character is preceded by a backslash,
    and nothing else is changed. *)
Inductive Escaped : jsstring -> jsstring -> Prop :=
| escaped_nil : Escaped [] []
| escaped_listed c v w :
    In c escapedCharacters -> Escaped v w ->
    Escaped (c :: v) (92%N :: c :: w)
| escaped_other c v w :
    ~ In c escapedCharacters -> Escaped v w -> Escaped (c :: v) (c :: w).








(** The identity of a focus target. *)
Definition key (t : FocusTarget) : jsstring * option jsstring :=
  (selector t, name t).

(** The calls of one turn of a walk that observes [o], and of a walk that
    observes [obs] in turn. *)
Definition stepCalls (page : Handle) (k : Key) (o : option FocusTarget)
  : list (Call * result Value) :=
  [(CallPress page k, Ok VUnit); (CallWait page 50, Ok VUnit);
   (CallMetadata page, Ok (VTarget o))].

Definition walkCalls (page : Handle) (k : Key)
    (obs : list (option FocusTarget)) : list (Call * result Value) :=
  flat_map (stepCalls page k) obs.

(** How the forward loop ended, told by the observations [tail] that were
    not appended to [visited]: none when the loop ran out of iterations, an
    absent extraction, or a target already visited. *)
Inductive LoopEnd (visited : list FocusTarget)
  : list (option FocusTarget) -> Prop :=
| end_limit : LoopEnd visited []
| end_exhausted : LoopEnd visited [None]
| end_cycle t : In (key t) (map key visited) -> LoopEnd visited [Some t].

(** The observation [o] of a Shift+Tab step is the expected entry [e]:
    a target with the same selector and the same name. *)
Definition Matches (o e : option FocusTarget) : Prop :=
  exists t x, o = Some t /\ e = Some x
              /\ selector t = selector x /\ name t = name x.

(** The call that re-focuses the last visited entry, when it is made, with
    what it returned. *)
Definition refocusCalls (page : Handle) (v : list FocusTarget)
    (refocus : option bool) : list (Call * result Value) :=
  match refocus, nth_error v (List.length v - 1) with
  | Some b, Some lastTarget =>
      [(CallFocus page (selector lastTarget), Ok (VBool b))]
  | _, _ => []
  end.

(** The entry that the [k]-th Shift+Tab step must reach: the one before the
    last for the first step, down to the first entry. *)
Definition expectedAt (v : list FocusTarget) (k : nat)
  : option FocusTarget :=
  nth_error v (List.length v - 2 - k).

Definition isTabPress (entry : Call * result Value) : bool :=
  match fst entry with
  | CallPress _ Tab => true
  | _ => false
  end.

(** The number of Tab presses among the calls. *)
Definition tabPresses (l : list (Call * result Value)) : nat :=
  List.length (filter isTabPress l).

(** The two shapes of a result: a success with both reports and no errors,
    or a failure with at least one message and no report. *)
Definition Shape (st : AccessibilityCheckState) : Prop :=
  (ok st = true
   /\ (exists t, tabOrder st = Some t) /\ (exists a, aria st = Some a)
   /\ errors st = None)
  \/ (ok st = false
      /\ (exists m rest, errors st = Some (m :: rest))
      /\ tabOrder st = None /\ aria st = None).

(** The [url] of the form is missing, empty or made of white space. *)
Definition BlankForm (formData : FormData) : Prop :=
  formDataGet formData (lit "url") = None
  \/ exists u, formDataGet formData (lit "url") = Some (EntryString u)
               /\ Forall (fun c => is_white_space c = true) u.

(** The [url] of the payload is missing, [null], empty or made of white
    space. *)
Definition BlankPayload (payload : JsonValue) : Prop :=
  payloadUrl payload = None
  \/ payloadUrl payload = Some JNull
  \/ exists u, payloadUrl payload = Some (JString u)
               /\ Forall (fun c => is_white_space c = true) u.

(** An engine whose page operations never throw. *)
Definition Reliable {World} (engine : Browser World) : Prop :=
  (forall page k w, exists w', keyboardPress engine page k w = (w', Ok tt))
  /\ (forall page ms w,
         exists w', waitForTimeout engine page ms w = (w', Ok tt))
  /\ (forall page w, exists w', evaluateBlur engine page w = (w', Ok tt))
  /\ (forall page sel w,
         exists w' b, evaluateFocus engine page sel w = (w', Ok b))
  /\ (forall page w, exists w' d, evaluateRead engine page w = (w', Ok d)).

(** Reading an escaped string back: a backslash stands for the code unit
    that follows it. *)
Fixpoint cssUnescape (s : jsstring) : jsstring :=
  match s with
  | [] => []
  | c :: s' =>
      if (c =? 92)%N then
        match s' with
        | [] => [c]
        | d :: s'' => d :: cssUnescape s''
        end
      else c :: cssUnescape s'
  end.

(** A string that neither starts nor ends with white space. *)
Definition startsClean (s : jsstring) : Prop :=
  match s with
  | [] => True
  | c :: _ => is_white_space c = false
  end.

Definition Trimmed (s : jsstring) : Prop :=
  startsClean s /\ startsClean (rev s).

(** What every extracted focus target satisfies. *)
Definition Extracted (t : FocusTarget) : Prop :=
  (List.length (htmlSnippet t) <= 160)%nat
  /\ role t <> Some []
  /\ (forall n, name t = Some n -> n <> [] /\ Trimmed n)
  /\ (hasAccessibleName t = true <-> name t <> None).



(** The calls that act on one page: key presses, pauses and evaluations. *)
Definition onPage (page : Handle) (c : Call) : Prop :=
  match c with
  | CallPress p _ | CallWait p _ | CallBlur p | CallFocus p _
  | CallMetadata p | CallAria p => p = page
  | _ => False
  end.

(** [m] leaves the local variables alone and only makes calls that
    satisfy [P], however it ends. *)
Definition Adds {W A} (P : Call -> Prop) (m : M W A) : Prop :=
  forall s s' r,
    m s = (s', r) ->
    locals s' = locals s
    /\ exists added, calls s' = calls s ++ added
                     /\ Forall (fun e => P (fst e)) added.

(** [m] only throws what a call to the engine threw, as its last call. *)
Definition ThrowsFromEngine {W A} (m : M W A) : Prop :=
  forall s s' e,
    m s = (s', Throw e) ->
    exists front c, calls s' = calls s ++ front ++ [(c, Throw e)].

(** The calls between the opening of the page and the cleanup: a
    navigation to [u], or a key press, a pause or an evaluation. *)
Definition Navigates (u : jsstring) (c : Call) : Prop :=
  match c with
  | CallGoto _ url => url = u
  | CallPress _ _ | CallWait _ _ | CallBlur _ | CallFocus _ _
  | CallMetadata _ | CallAria _ => True
  | _ => False
  end.

Definition isClose (c : Call) : Prop :=
  match c with CallClose _ => True | _ => False end.

(** The handles that the calls opened, in the order of their opening: what
    [launch], [newContext] and [newPage] returned. *)
Definition openedHandles (l : list (Call * result Value)) : list Handle :=
  flat_map (fun e => match e with
                     | (CallLaunch, Ok (VHandle h))
                     | (CallNewContext _, Ok (VHandle h))
                     | (CallNewPage _, Ok (VHandle h)) => [h]
                     | _ => []
                     end) l.

(** The browsers that the calls launched. *)
Definition launchedBrowsers (l : list (Call * result Value)) : list Handle :=
  flat_map (fun e => match e with
                     | (CallLaunch, Ok (VHandle h)) => [h]
                     | _ => []
                     end) l.

(** The handles that the [finally] clause of the route handler closes, in
    its order: the page, the context, the browser, each when it is set. *)
Definition toClose (l : Locals) : list Handle :=
  match pageVar l with Some p => [p] | None => [] end
  ++ match contextVar l with Some c => [c] | None => [] end
  ++ match browserVar l with Some b => [b] | None => [] end.

(** What a call of the route handler may be: a navigation goes to [u], the
    local package is imported outside Vercel only and the path of the
    bundled browser is asked for on Vercel only. *)
Definition RouteCall (u : jsstring) (isVercel : bool) (c : Call) : Prop :=
  match c with
  | CallGoto _ url => url = u
  | CallImport => isVercel = false
  | CallExecutablePath => isVercel = true
  | _ => True
  end.

(* ===================================================================== *)
(** * Properties *)
(* ===================================================================== *)

(** ** Strings *)

Lemma str_eqb_eq (a b : jsstring) : str_eqb a b = true <-> a = b.
Proof.
  revert b; induction a as [|x a IH]; intros [|y b]; simpl;
    try (split; [discriminate | congruence]); try tauto.
  rewrite andb_true_iff, N.eqb_eq, IH. split.
  - intros [-> ->]; reflexivity.
  - intros H; injection H; auto.
Qed.

Lemma str_eqb_refl (a : jsstring) : str_eqb a a = true.
Proof. apply str_eqb_eq; reflexivity. Qed.

Lemma opt_eqb_eq (a b : option jsstring) : opt_eqb a b = true <-> a = b.
Proof.
  destruct a as [a|], b as [b|]; simpl;
    try (split; [discriminate | congruence]); try tauto.
  rewrite str_eqb_eq. split; congruence.
Qed.

Lemma truthy_true (s : jsstring) : truthy s = true <-> s <> [].
Proof. destruct s; simpl; split; congruence. Qed.

Lemma truthy_false (s : jsstring) : truthy s = false <-> s = [].
Proof. destruct s; simpl; split; congruence. Qed.

Lemma trimStart_nil (s : jsstring) :
  trimStart s = [] <-> Forall (fun c => is_white_space c = true) s.
Proof.
  induction s as [|c s IH]; simpl.
  - split; auto.
  - destruct (is_white_space c) eqn:E.
    + rewrite IH. split; intros H.
      * constructor; assumption.
      * inversion H; assumption.
    + split; [discriminate|]. intros H; inversion H; congruence.
Qed.

Lemma trimStart_head (s : jsstring) c t :
  trimStart s = c :: t -> is_white_space c = false.
Proof.
  induction s as [|x s IH]; simpl; [discriminate|].
  destruct (is_white_space x) eqn:E; auto.
  intros H; injection H as -> _; assumption.
Qed.

Lemma trimStart_suffix (s : jsstring) :
  exists pre, s = pre ++ trimStart s
              /\ Forall (fun c => is_white_space c = true) pre.
Proof.
  induction s as [|c s (pre & E & F)]; simpl.
  - exists []; split; auto.
  - destruct (is_white_space c) eqn:W.
    + exists (c :: pre); split; [simpl; congruence | constructor; auto].
    + exists []; split; auto.
Qed.

(** A string trims to the empty string exactly when it consists of white
    space only. *)
Lemma trim_nil (s : jsstring) :
  trim s = [] <-> Forall (fun c => is_white_space c = true) s.
Proof.
  unfold trim, trimEnd. split.
  - intros H.
    assert (H1 : trimStart (rev (trimStart s)) = []).
    { rewrite <- (rev_involutive (trimStart _)), H; reflexivity. }
    apply trimStart_nil in H1.
    destruct (trimStart s) as [|c t] eqn:E.
    + apply trimStart_nil; assumption.
    + apply trimStart_head in E.
      rewrite Forall_forall in H1.
      specialize (H1 c). rewrite <- in_rev in H1.
      rewrite H1 in E; [discriminate | left; reflexivity].
  - intros H. apply trimStart_nil in H. rewrite H. reflexivity.
Qed.

Lemma trim_empty : trim [] = [].
Proof. reflexivity. Qed.

Lemma firstn_length_le {A} (n : nat) (l : list A) :
  (List.length (firstn n l) <= n)%nat.
Proof. rewrite length_firstn. lia. Qed.

(** ** normalizeUrl *)

Lemma has_http_prefix_https (s : jsstring) :
  has_http_prefix (lit "https://" ++ s) = true.
Proof. reflexivity. Qed.

(** C10. [normalizeUrl] is idempotent: its output always carries an
    [http://] or [https://] prefix (in any letter case), and such an input
    is returned unchanged. *)
Theorem normalizeUrl_idempotent (s : jsstring) :
  has_http_prefix (normalizeUrl s) = true
  /\ normalizeUrl (normalizeUrl s) = normalizeUrl s.
Proof.
  assert (H : has_http_prefix (normalizeUrl s) = true).
  { unfold normalizeUrl. destruct (has_http_prefix s) eqn:E.
    - exact E.
    - apply has_http_prefix_https. }
  split; [exact H|].
  unfold normalizeUrl at 1. rewrite H. reflexivity.
Qed.

Example normalizeUrl_bare :
  normalizeUrl (lit "example.com") = lit "https://example.com".
Proof. reflexivity. Qed.

Example normalizeUrl_upper :
  normalizeUrl (lit "HTTP://a") = lit "HTTP://a".
Proof. reflexivity. Qed.

Example normalizeUrl_other_scheme :
  normalizeUrl (lit "ftp://a") = lit "https://ftp://a".
Proof. reflexivity. Qed.

Example trim_demo : trim (lit "  a b  ") = lit "a b".
Proof. reflexivity. Qed.

Example cssEscape_demo : cssEscape (lit "a.b c") = lit "a\.b\ c".
Proof. reflexivity. Qed.

Example split_demo :
  split_ws (lit " a  b ") = [lit ""; lit "a"; lit "b"; lit ""].
Proof. reflexivity. Qed.

(** ** The accessible-name resolver *)

Lemma trimmed_attr_some (e : Element) (n : string) (v : jsstring) :
  attr e n = Some v -> trim v <> [] -> trimmed_attr e n = Some (trim v).
Proof.
  intros Ha Ht. unfold trimmed_attr. rewrite Ha.
  assert (Hv : v <> []) by (intros ->; apply Ht; reflexivity).
  apply truthy_true in Hv. apply truthy_true in Ht.
  rewrite Hv, Ht. reflexivity.
Qed.

(** C5. When the [aria-label] attribute is not empty after trimming, the
    resolver returns the trimmed [aria-label]; the result is the same for any
    other element and document with that [aria-label], whatever their other
    attributes, interface, text and labelling elements are. *)
Theorem aria_label_first (d : Document) (el : Element) (label : jsstring)
    (Hattr : attr el "aria-label" = Some label)
    (Hnonempty : trim label <> []) :
  deriveAccessibleName d el = Some (trim label)
  /\ forall (d' : Document) (el' : Element),
       attr el' "aria-label" = Some label ->
       deriveAccessibleName d' el' = deriveAccessibleName d el.
Proof.
  assert (H : forall d0 e0, attr e0 "aria-label" = Some label ->
                            deriveAccessibleName d0 e0 = Some (trim label)).
  { intros d0 e0 H0. unfold deriveAccessibleName.
    rewrite (trimmed_attr_some e0 "aria-label" H0 Hnonempty). reflexivity. }
  split.
  - apply H; assumption.
  - intros d' el' H'. rewrite (H d el Hattr). apply H; assumption.
Qed.

Example deriveAccessibleName_search :
  deriveAccessibleName Samples.gallery (node Samples.gallery 6)
  = Some (lit "Search").
Proof. reflexivity. Qed.

Lemma aria_label_first_witness :
  deriveAccessibleName Samples.gallery (node Samples.gallery 6)
  = Some (trim (lit " Search ")).
Proof.
  refine (proj1 (@aria_label_first Samples.gallery (node Samples.gallery 6)
                   (lit " Search ") _ _)).
  - reflexivity.
  - vm_compute. discriminate.
Defined.

(** ** The static scanner *)

Lemma Pick_filter {A} (P : A -> Prop) (f : A -> bool) (l : list A) :
  (forall x, f x = true <-> P x) -> Pick P l (filter f l).
Proof.
  intros Hf. induction l as [|x l IH]; simpl.
  - constructor.
  - destruct (f x) eqn:E.
    + apply pick_keep; [apply Hf; assumption | assumption].
    + apply pick_skip; [|assumption].
      intros HP. apply Hf in HP. congruence.
Qed.

Lemma Pick_In {A} (P : A -> Prop) (l l' : list A) :
  Pick P l l' -> forall x, In x l' <-> In x l /\ P x.
Proof.
  induction 1 as [|x l l' HP _ IH|x l l' HP _ IH]; intros y; simpl.
  - tauto.
  - rewrite IH. split.
    + intros [->|[? ?]]; auto.
    + intros [[->|?] ?]; auto.
  - rewrite IH. split.
    + intros [? ?]; auto.
    + intros [[->|?] ?]; [contradiction | auto].
Qed.

Lemma missingAlt_iff (img : Element) :
  missingAlt img = true <-> MissingAlt img.
Proof.
  unfold missingAlt, MissingAlt.
  destruct (attr img "alt") as [alt|]; [|split; auto].
  split.
  - intros H. right. exists alt. split; [reflexivity|].
    destruct (trim alt) as [|c t]; [|discriminate].
    split; [reflexivity|].
    destruct (attr img "role") as [[|c r]|]; simpl in H;
      try discriminate; auto.
  - intros [H|(a & Ha & Ht & Hr)]; [discriminate|].
    injection Ha as <-. rewrite Ht.
    destruct Hr as [-> | ->]; reflexivity.
Qed.

(** C7, as the code has it. [imagesMissingAlt] describes the first 20 at
    most, in document order, of the images whose [alt] attribute is absent,
    or trims to the empty string while the [role] attribute is absent or
    empty; each entry carries the [src] attribute (or none) and the first 160
    code units at most of the markup; an image whose [alt] is not empty
    after trimming is never among them. *)
Theorem imagesMissingAlt_spec (d : Document) :
  exists qualifying : list NodeId,
    Pick (fun n => MissingAlt (node d n)) (images d) qualifying
    /\ imagesMissingAlt (ariaReportOf d)
       = map (descriptor d) (firstn 20 qualifying)
    /\ (List.length (imagesMissingAlt (ariaReportOf d)) <= 20)%nat
    /\ Forall (fun e => (List.length (snippet e) <= 160)%nat)
              (imagesMissingAlt (ariaReportOf d))
    /\ forall n alt, attr (node d n) "alt" = Some alt -> trim alt <> [] ->
                     ~ In n qualifying.
Proof.
  exists (filter (fun n => missingAlt (node d n)) (images d)).
  assert (HP : Pick (fun n => MissingAlt (node d n)) (images d)
                 (filter (fun n => missingAlt (node d n)) (images d))).
  { apply Pick_filter. intros n. apply missingAlt_iff. }
  assert (HE : imagesMissingAlt (ariaReportOf d)
               = map (descriptor d)
                   (firstn 20 (filter (fun n => missingAlt (node d n))
                                      (images d)))) by reflexivity.
  split; [exact HP|]. split; [exact HE|]. rewrite HE. split; [|split].
  - rewrite length_map. apply firstn_length_le.
  - apply Forall_forall. intros e He.
    apply in_map_iff in He. destruct He as (n & <- & _).
    unfold descriptor, slice0. cbn [snippet]. apply firstn_length_le.
  - intros n alt Ha Ht Hin.
    apply (Pick_In HP) in Hin. destruct Hin as [_ [Hm|(a & Ha' & Ht' & _)]].
    + congruence.
    + rewrite Ha in Ha'. injection Ha' as <-. contradiction.
Qed.

(** C7, counterexample to the wording: the first image of the sample page
    has an empty [alt] and a [role] attribute, which is empty; it is
    reported, so the list is not the one of the images without a [role]
    attribute. *)
Lemma imagesMissingAlt_empty_role :
  In 3%nat (images Samples.gallery)
  /\ attr (node Samples.gallery 3) "alt" = Some []
  /\ attr (node Samples.gallery 3) "role" = Some []
  /\ In (descriptor Samples.gallery 3)
        (imagesMissingAlt (ariaReportOf Samples.gallery))
  /\ imagesMissingAlt (ariaReportOf Samples.gallery)
     <> claimedImagesMissingAlt Samples.gallery.
Proof.
  split; [vm_compute; tauto|].
  split; [reflexivity|]. split; [reflexivity|].
  split; [vm_compute; tauto|].
  vm_compute. discriminate.
Qed.

Example scenario_D :
  map src (imagesMissingAlt (ariaReportOf Samples.gallery))
  = [Some (lit "a.png"); Some (lit "b.png")].
Proof. reflexivity. Qed.

(** ** The selector synthesizer *)

Section SelectorSpec.

Variable toLowerCase : jsstring -> jsstring.






(** An escaped string is determined by the string. *)
Lemma Escaped_functional (v w w' : jsstring) :
  Escaped v w -> Escaped v w' -> w = w'.
Proof.
  intros H. revert w'. induction H; intros w' H'; inversion H'; subst;
    try contradiction; try reflexivity; f_equal; auto.
  f_equal. auto.
Qed.






(** The id alone decides the selector of an element that has one. *)
Corollary buildSelector_id_only (d d' : Document) (el el' : NodeId) :
  id (node d el) <> [] -> id (node d' el') = id (node d el) ->
  buildSelector toLowerCase d' el' = buildSelector toLowerCase d el.
Proof.
  intros Hid E. unfold buildSelector. rewrite E.
  apply truthy_true in Hid. rewrite Hid. reflexivity.
Qed.

End SelectorSpec.


Example buildSelector_link :
  buildSelector Sim.lowerAscii Samples.gallery 8
  = lit "html > body > div.nav.bar > a.item:nth-of-type(2)".
Proof. reflexivity. Qed.

Example buildSelector_input :
  buildSelector Sim.lowerAscii Samples.gallery 6 = lit "#q".
Proof. reflexivity. Qed.



(** ** The monad *)

Lemma bind_ok {W A B} (m : M W A) (f : A -> M W B) s s' b :
  bind m f s = (s', Ok b) ->
  exists s1 a, m s = (s1, Ok a) /\ f a s1 = (s', Ok b).
Proof.
  unfold bind. destruct (m s) as [s1 [a|e]]; [|discriminate].
  intros H. exists s1, a. auto.
Qed.

Lemma invoke_ok {W A} (prim : W -> W * result A) c inj
    (s s' : State W) a :
  invoke prim c inj s = (s', Ok a) ->
  prim (world s) = (world s', Ok a)
  /\ calls s' = calls s ++ [(c, Ok (inj a))]
  /\ locals s' = locals s.
Proof.
  unfold invoke. destruct (prim (world s)) as [w' r].
  intros H. injection H as <- ->. auto.
Qed.

Lemma ret_ok {W A} (a b : A) (s s' : State W) :
  ret a s = (s', Ok b) -> s' = s /\ b = a.
Proof. unfold ret. intros H. injection H as <- <-. auto. Qed.

(** ** The forward walk *)

Lemma same_target_key (t item : FocusTarget) :
  same_target t item = true <-> key item = key t.
Proof.
  unfold same_target, key. rewrite andb_true_iff, str_eqb_eq, opt_eqb_eq.
  split.
  - intros [-> ->]; reflexivity.
  - intros H; injection H; auto.
Qed.

Lemma existsb_same_target (t : FocusTarget) (v : list FocusTarget) :
  existsb (same_target t) v = true <-> In (key t) (map key v).
Proof.
  rewrite existsb_exists, in_map_iff. split.
  - intros (x & Hin & H). exists x. split; [apply same_target_key|]; auto.
  - intros (x & H & Hin). exists x. split; [|apply same_target_key]; auto.
Qed.

Lemma walkCalls_app page k a b :
  walkCalls page k (a ++ b) = walkCalls page k a ++ walkCalls page k b.
Proof. unfold walkCalls. apply flat_map_app. Qed.

Section WalkerProofs.

Context {World : Type}.
Variable engine : Browser World.
Variable inPage : Document -> result (option FocusTarget).

(** One turn of a loop: the key press, the pause and the extraction. *)
Lemma turn_ok (page : Handle) (k : Key) {A}
    (rest : option FocusTarget -> M World A) s s' a :
  (press engine page k ;;
   wait engine page 50 ;;
   target <- getActiveElementMetadata engine inPage page ;;
   rest target) s = (s', Ok a) ->
  exists s1 o,
    calls s1 = calls s ++ stepCalls page k o
    /\ locals s1 = locals s
    /\ rest o s1 = (s', Ok a).
Proof.
  intros H.
  apply bind_ok in H. destruct H as (s1 & [] & H1 & H).
  apply bind_ok in H. destruct H as (s2 & [] & H2 & H).
  apply bind_ok in H. destruct H as (s3 & o & H3 & H).
  unfold press in H1. unfold wait in H2.
  unfold getActiveElementMetadata in H3.
  apply invoke_ok in H1. destruct H1 as (_ & C1 & L1).
  apply invoke_ok in H2. destruct H2 as (_ & C2 & L2).
  apply invoke_ok in H3. destruct H3 as (_ & C3 & L3).
  exists s3, o. split; [|split].
  - rewrite C3, C2, C1, <- !app_assoc. reflexivity.
  - congruence.
  - exact H.
Qed.

Lemma tabLoop_trace (n : nat) (page : Handle) :
  forall v s s' v' cyc,
    tabLoop engine inPage n page v s = (s', Ok (v', cyc)) ->
    NoDup (map key v) ->
    exists fresh tail,
      v' = v ++ fresh
      /\ NoDup (map key v')
      /\ calls s' = calls s ++ walkCalls page Tab (map Some fresh ++ tail)
      /\ locals s' = locals s
      /\ LoopEnd v' tail
      /\ (List.length fresh + List.length tail <= n)%nat
      /\ (tail = [] -> List.length fresh = n)
      /\ (cyc = true <-> exists t, tail = [Some t]).
Proof.
  induction n as [|n IH]; intros v s s' v' cyc H Hnd.
  - apply ret_ok in H. destruct H as [-> H]. injection H as -> ->.
    exists [], []. rewrite !app_nil_r. repeat split; auto.
    + constructor.
    + intros H; discriminate.
    + intros (t & Ht); discriminate.
  - cbn [tabLoop] in H. apply turn_ok in H.
    destruct H as (s1 & o & C1 & L1 & H).
    destruct o as [t|].
    + destruct (existsb (same_target t) v) eqn:E.
      * apply ret_ok in H. destruct H as [-> H]. injection H as -> ->.
        exists [], [Some t]. rewrite app_nil_r. cbn [map app].
        unfold walkCalls; cbn [flat_map]. rewrite app_nil_r.
        repeat split; auto.
        -- constructor. apply existsb_same_target. exact E.
        -- cbn. lia.
        -- intros H; discriminate.
        -- intros _. exists t. reflexivity.
      * assert (Hnd' : NoDup (map key (v ++ [t]))).
        { rewrite map_app. cbn [map].
          apply NoDup_app; [exact Hnd | repeat constructor; auto |].
          intros k Hk [<-|[]].
          apply existsb_same_target in Hk. congruence. }
        destruct (IH _ _ _ _ _ H Hnd')
          as (fresh & tail & -> & Hnd2 & C2 & L2 & Hend & Hlen & Hfull & Hc).
        exists (t :: fresh), tail. rewrite <- app_assoc in *. cbn [app] in *.
        repeat split; auto.
        -- rewrite C2, C1, <- app_assoc. reflexivity.
        -- congruence.
        -- cbn [List.length]. lia.
        -- intros Ht. cbn [List.length]. rewrite (Hfull Ht). reflexivity.
        -- apply Hc.
        -- apply Hc.
    + apply ret_ok in H. destruct H as [-> H]. injection H as -> ->.
      exists [], [None]. rewrite app_nil_r. cbn [map app].
      unfold walkCalls; cbn [flat_map]. rewrite app_nil_r.
      repeat split; auto.
      * constructor.
      * cbn. lia.
      * intros H; discriminate.
      * intros H; discriminate.
      * intros (t & Ht); discriminate.
Qed.

(** ** The reverse walk *)

Lemma turn_matches (t e : FocusTarget) :
  negb (str_eqb (selector t) (selector e))
  || negb (opt_eqb (name t) (name e)) = false
  <-> Matches (Some t) (Some e).
Proof.
  rewrite orb_false_iff, !negb_false_iff, str_eqb_eq, opt_eqb_eq.
  unfold Matches. split.
  - intros [? ?]. exists t, e. auto.
  - intros (t' & x & Ht & Hx & ? & ?).
    injection Ht as <-. injection Hx as <-. auto.
Qed.

Lemma shiftTabLoop_trace (i : nat) (page : Handle)
    (v : list FocusTarget) :
  forall s s' r,
    shiftTabLoop engine inPage i page v s = (s', Ok r) ->
    exists obs,
      calls s' = calls s ++ walkCalls page ShiftTab obs
      /\ locals s' = locals s
      /\ (List.length obs <= i)%nat
      /\ (forall k, (S k < List.length obs)%nat ->
                    Matches (nth k obs None) (nth_error v (i - 1 - k)))
      /\ ((r = Some true /\ List.length obs = i
           /\ forall k, (k < List.length obs)%nat ->
                        Matches (nth k obs None) (nth_error v (i - 1 - k)))
          \/ (r = Some false
              /\ exists k, S k = List.length obs
                           /\ ~ Matches (nth k obs None)
                                        (nth_error v (i - 1 - k)))).
Proof.
  induction i as [|i IH]; intros s s' r H.
  - apply ret_ok in H. destruct H as [-> ->].
    exists []. cbn. rewrite app_nil_r. repeat split; auto; try lia.
    left. repeat split; auto. intros k Hk; lia.
  - cbn [shiftTabLoop] in H. apply turn_ok in H.
    destruct H as (s1 & o & C1 & L1 & H).
    destruct o as [t|].
    + destruct (nth_error v i) as [e|] eqn:He; [|discriminate].
      destruct (negb (str_eqb (selector t) (selector e))
                || negb (opt_eqb (name t) (name e))) eqn:E.
      * apply ret_ok in H. destruct H as [-> ->].
        exists [Some t]. unfold walkCalls; cbn [flat_map List.length].
        rewrite app_nil_r. repeat split; auto; try lia.
        right. split; [reflexivity|]. exists 0%nat. split; [reflexivity|].
        cbn [nth]. replace (S i - 1 - 0)%nat with i by lia.
        rewrite He. intros HM. apply turn_matches in HM. congruence.
      * apply turn_matches in E.
        destruct (IH _ _ _ H) as (obs & C2 & L2 & Hlen & Hpre & Hres).
        assert (Hshift : forall k, (k < List.length obs)%nat ->
                  Matches (nth k obs None) (nth_error v (i - 1 - k)) ->
                  Matches (nth (S k) (Some t :: obs) None)
                          (nth_error v (S i - 1 - S k))).
        { intros k _ HM. cbn [nth].
          replace (S i - 1 - S k)%nat with (i - 1 - k)%nat by lia.
          exact HM. }
        assert (Hzero : Matches (nth 0 (Some t :: obs) None)
                                (nth_error v (S i - 1 - 0))).
        { cbn [nth]. replace (S i - 1 - 0)%nat with i by lia.
          rewrite He. exact E. }
        exists (Some t :: obs). cbn [List.length].
        split; [|split; [|split; [|split]]].
        -- rewrite C2, C1, <- app_assoc. reflexivity.
        -- congruence.
        -- lia.
        -- intros [|k] Hk; [exact Hzero|].
           apply Hshift; [lia|]. apply Hpre. lia.
        -- destruct Hres as [(-> & Hfull & Hall)|(-> & k & Hk & Hbad)].
           ++ left. split; [reflexivity|]. split; [lia|].
              intros [|k] Hk; [exact Hzero|].
              apply Hshift; [lia|]. apply Hall. lia.
           ++ right. split; [reflexivity|]. exists (S k). split; [lia|].
              cbn [nth].
              replace (S i - 1 - S k)%nat with (i - 1 - k)%nat by lia.
              exact Hbad.
    + apply ret_ok in H. destruct H as [-> ->].
      exists [None]. unfold walkCalls; cbn [flat_map List.length].
      rewrite app_nil_r. repeat split; auto; try lia.
      right. split; [reflexivity|]. exists 0%nat. split; [reflexivity|].
      cbn [nth]. intros (t & x & Ht & _). discriminate.
Qed.

Lemma tabPresses_app (a b : list (Call * result Value)) :
  tabPresses (a ++ b) = (tabPresses a + tabPresses b)%nat.
Proof. unfold tabPresses. rewrite filter_app, length_app. reflexivity. Qed.

Lemma tabPresses_forward (page : Handle) (obs : list (option FocusTarget)) :
  tabPresses (walkCalls page Tab obs) = List.length obs.
Proof.
  induction obs as [|o obs IH]; [reflexivity|].
  change (walkCalls page Tab (o :: obs))
    with (stepCalls page Tab o ++ walkCalls page Tab obs).
  rewrite tabPresses_app, IH. reflexivity.
Qed.

Lemma tabPresses_backward (page : Handle) (obs : list (option FocusTarget)) :
  tabPresses (walkCalls page ShiftTab obs) = 0%nat.
Proof.
  induction obs as [|o obs IH]; [reflexivity|].
  change (walkCalls page ShiftTab (o :: obs))
    with (stepCalls page ShiftTab o ++ walkCalls page ShiftTab obs).
  rewrite tabPresses_app, IH. reflexivity.
Qed.

(** The calls of the verifier: the refocus, when it is made, and one turn
    per Shift+Tab step; no Tab press. *)
Lemma verifyShiftTab_calls (page : Handle) (v : list FocusTarget)
    (s s' : State World) (r : option bool) :
  verifyShiftTab engine inPage page v s = (s', Ok r) ->
  exists rest, calls s' = calls s ++ rest /\ tabPresses rest = 0%nat.
Proof.
  unfold verifyShiftTab. intros H.
  destruct (List.length v <=? 1)%nat.
  - apply ret_ok in H. destruct H as [-> _].
    exists []. rewrite app_nil_r. auto.
  - destruct (nth_error v (List.length v - 1)) as [lastTarget|];
      [|discriminate].
    apply bind_ok in H. destruct H as (s1 & b & Hf & H).
    apply invoke_ok in Hf. destruct Hf as (_ & C1 & _).
    destruct b; cbn [negb] in H.
    + apply shiftTabLoop_trace in H. destruct H as (obs & C2 & _).
      exists ([(CallFocus page (selector lastTarget), Ok (VBool true))]
              ++ walkCalls page ShiftTab obs).
      split; [rewrite C2, C1, <- app_assoc; reflexivity|].
      rewrite tabPresses_app, tabPresses_backward. reflexivity.
    + apply ret_ok in H. destruct H as [-> _].
      exists [(CallFocus page (selector lastTarget), Ok (VBool false))].
      auto.
Qed.

(** C3. The verifier returns [null] exactly when there are fewer than two
    entries or the last entry cannot be re-focused. Otherwise it presses
    Shift+Tab once per entry from the one before the last down to the first:
    it returns [false] exactly when some step observes no target or a target
    whose selector and name are not those of the expected entry, and that
    step is the last one made; it returns [true] exactly when all the steps
    were made and every one observed the expected entry. *)
Theorem verifyShiftTab_spec (page : Handle) (v : list FocusTarget)
    (s s' : State World) (r : option bool)
    (Hrun : verifyShiftTab engine inPage page v s = (s', Ok r)) :
  exists (refocus : option bool) (obs : list (option FocusTarget)),
    calls s' = calls s ++ refocusCalls page v refocus
                       ++ walkCalls page ShiftTab obs
    /\ (refocus = None <-> (List.length v < 2)%nat)
    /\ (r = None <-> (List.length v < 2)%nat \/ refocus = Some false)
    /\ (r = Some false <->
        exists k, (k < List.length obs)%nat
                  /\ ~ Matches (nth k obs None) (expectedAt v k))
    /\ (r = Some true <->
        refocus = Some true
        /\ List.length obs = (List.length v - 1)%nat
        /\ forall k, (k < List.length obs)%nat ->
                     Matches (nth k obs None) (expectedAt v k))
    /\ (forall k, (S k < List.length obs)%nat ->
                  Matches (nth k obs None) (expectedAt v k))
    /\ (r = None -> obs = [])
    /\ (List.length obs <= List.length v - 1)%nat.
Proof.
  unfold verifyShiftTab in Hrun.
  destruct (Nat.leb_spec (List.length v) 1) as [Hshort|Hlong].
  - apply ret_ok in Hrun. destruct Hrun as [-> ->].
    exists None, []. cbn. rewrite app_nil_r.
    split; [reflexivity|].
    split; [split; [intros _; lia | reflexivity]|].
    split; [split; [intros _; left; lia | reflexivity]|].
    split; [split; [discriminate | intros (k & Hk & _); lia]|].
    split; [split; [discriminate | intros (H & _); discriminate]|].
    split; [intros k Hk; lia|].
    split; [reflexivity | lia].
  - destruct (nth_error v (List.length v - 1)) as [lastTarget|] eqn:Hlast;
      [|discriminate].
    apply bind_ok in Hrun. destruct Hrun as (s1 & b & Hf & Hrun).
    apply invoke_ok in Hf. destruct Hf as (_ & C1 & L1).
    destruct b; cbn [negb] in Hrun.
    + apply shiftTabLoop_trace in Hrun.
      destruct Hrun as (obs & C2 & L2 & Hlen & Hpre & Hres).
      assert (Hidx : forall k, (List.length v - 1 - 1 - k
                                = List.length v - 2 - k)%nat) by (intros; lia).
      exists (Some true), obs. unfold refocusCalls, expectedAt.
      rewrite Hlast.
      split; [rewrite C2, C1, <- app_assoc; reflexivity|].
      split; [split; [discriminate | lia]|].
      split; [|split; [|split; [|split; [|split]]]].
      * split.
        -- intros ->. destruct Hres as [(H & _)|(H & _)]; discriminate.
        -- intros [H|H]; [lia | discriminate].
      * split.
        -- intros ->. destruct Hres as [(H & _)|(_ & k & Hk & Hbad)];
             [discriminate|].
           exists k. split; [lia|]. rewrite <- Hidx. exact Hbad.
        -- intros (k & Hk & Hbad).
           destruct Hres as [(_ & _ & Hall)|(-> & _)]; [|reflexivity].
           exfalso. apply Hbad. rewrite <- Hidx. apply Hall. exact Hk.
      * split.
        -- intros ->. destruct Hres as [(_ & Hfull & Hall)|(H & _)];
             [|discriminate].
           split; [reflexivity|]. split; [exact Hfull|].
           intros k Hk. rewrite <- Hidx. apply Hall. exact Hk.
        -- intros (_ & Hfull & Hall).
           destruct Hres as [(-> & _)|(_ & k & Hk & Hbad)]; [reflexivity|].
           exfalso. apply Hbad. rewrite Hidx. apply Hall. lia.
      * intros k Hk. rewrite <- Hidx. apply Hpre. exact Hk.
      * intros ->. destruct Hres as [(H & _)|(H & _)]; discriminate.
      * exact Hlen.
    + apply ret_ok in Hrun. destruct Hrun as [-> ->].
      exists (Some false), []. unfold refocusCalls. rewrite Hlast.
      cbn [walkCalls flat_map List.length]. rewrite app_nil_r.
      split; [exact C1|].
      split; [split; [discriminate | lia]|].
      split; [split; [intros _; right; reflexivity | reflexivity]|].
      split; [split; [discriminate | intros (k & Hk & _); lia]|].
      split; [split; [discriminate | intros (H & _); discriminate]|].
      split; [intros k Hk; lia|].
      split; [reflexivity | lia].
Qed.

(** ** The report of the walk *)

Variable MAX_TAB_ITERATIONS : nat.

(** What a returned report tells about the run: the calls are the blur,
    one turn per observation of the forward walk, and the calls [rest] of
    the verifier, which presses Tab no more. *)
Lemma buildTabOrderReport_trace (page : Handle) (s s' : State World)
    (r : TabOrderReport) :
  buildTabOrderReport engine inPage MAX_TAB_ITERATIONS page s
  = (s', Ok r) ->
  exists tail rest,
    calls s' = calls s ++ (CallBlur page, Ok VUnit)
                       :: walkCalls page Tab (map Some (visited r) ++ tail)
                       ++ rest
    /\ tabPresses rest = 0%nat
    /\ NoDup (map key (visited r))
    /\ LoopEnd (visited r) tail
    /\ (List.length (visited r) + List.length tail
        <= MAX_TAB_ITERATIONS)%nat
    /\ (tail = [] -> List.length (visited r) = MAX_TAB_ITERATIONS)
    /\ (cycleDetected r = true <-> exists t, tail = [Some t])
    /\ limitReached r
       = (List.length (visited r) =? MAX_TAB_ITERATIONS)%nat.
Proof.
  intros H. unfold buildTabOrderReport in H.
  apply bind_ok in H. destruct H as (s1 & [] & H1 & H).
  apply invoke_ok in H1. destruct H1 as (_ & C1 & L1).
  apply bind_ok in H. destruct H as (s2 & [v cyc] & H2 & H).
  apply bind_ok in H. destruct H as (s3 & stc & H3 & H).
  apply ret_ok in H. destruct H as [-> ->]. cbn [fst snd] in *.
  apply tabLoop_trace in H2; [|constructor].
  destruct H2 as (fresh & tail & Hv & Hnd & C2 & L2 & Hend & Hlen & Hfull
                  & Hcyc).
  cbn [app] in Hv. subst v.
  apply verifyShiftTab_calls in H3.
  destruct H3 as (rest & C3 & Hrest).
  exists tail, rest.
  cbn [visited cycleDetected limitReached].
  split; [|split; [exact Hrest|repeat split; auto]].
  - rewrite C3, C2, C1, <- !app_assoc. reflexivity.
  - apply Hcyc.
  - apply Hcyc.
Qed.

(** C1. The forward walk observes one target per Tab press. The targets it
    visits are the observations in order, up to the one that stopped it: an
    observed target whose selector and name are those of a visited entry
    stops the walk with [cycleDetected] set and is not appended, every other
    observed target is appended, and so no two visited entries share their
    selector and name. *)
Theorem forward_walk_cycle (page : Handle) (s s' : State World)
    (r : TabOrderReport)
    (Hrun : buildTabOrderReport engine inPage MAX_TAB_ITERATIONS page s
            = (s', Ok r)) :
  exists tail rest,
    calls s' = calls s ++ (CallBlur page, Ok VUnit)
                       :: walkCalls page Tab (map Some (visited r) ++ tail)
                       ++ rest
    /\ tabPresses rest = 0%nat
    /\ NoDup (map key (visited r))
    /\ (tail = [] \/ tail = [None]
        \/ exists t, tail = [Some t] /\ In (key t) (map key (visited r)))
    /\ (cycleDetected r = true <-> exists t, tail = [Some t]).
Proof.
  destruct (buildTabOrderReport_trace _ _ Hrun)
    as (tail & rest & C & Hrest & Hnd & Hend & _ & _ & Hcyc & _).
  exists tail, rest. repeat split; auto; try apply Hcyc.
  destruct Hend as [| |t Ht]; auto.
  right; right. exists t. auto.
Qed.

(** C2. The forward walk presses Tab at most [MAX_TAB_ITERATIONS] times, and
    [limitReached] is set exactly when the loop ran all its iterations with
    no observation that stopped it (neither an absent extraction nor a
    revisited target); then [cycleDetected] is not set. *)
Theorem forward_walk_limit (page : Handle) (s s' : State World)
    (r : TabOrderReport)
    (Hrun : buildTabOrderReport engine inPage MAX_TAB_ITERATIONS page s
            = (s', Ok r)) :
  exists tail rest,
    calls s' = calls s ++ (CallBlur page, Ok VUnit)
                       :: walkCalls page Tab (map Some (visited r) ++ tail)
                       ++ rest
    /\ tabPresses rest = 0%nat
    /\ (tail = [] \/ tail = [None] \/ exists t, tail = [Some t])
    /\ (List.length (map Some (visited r) ++ tail)
        <= MAX_TAB_ITERATIONS)%nat
    /\ (tabPresses (calls s')
        <= tabPresses (calls s) + MAX_TAB_ITERATIONS)%nat
    /\ (limitReached r = true <->
        tail = [] /\ List.length (visited r) = MAX_TAB_ITERATIONS)
    /\ (tail = [] -> limitReached r = true)
    /\ (limitReached r = true -> cycleDetected r = false).
Proof.
  destruct (buildTabOrderReport_trace _ _ Hrun)
    as (tail & rest & C & Hrest & Hnd & Hend & Hlen & Hfull & Hcyc & Hlim).
  assert (Hiff : limitReached r = true <->
                 tail = [] /\ List.length (visited r) = MAX_TAB_ITERATIONS).
  { rewrite Hlim, Nat.eqb_eq. split.
    - intros E. split; [|exact E].
      destruct tail; [reflexivity | cbn in Hlen; lia].
    - intros [_ E]; exact E. }
  exists tail, rest. split; [exact C|]. split; [exact Hrest|].
  split; [|split; [|split; [|split; [exact Hiff|split]]]].
  - destruct Hend as [| |t Ht]; eauto.
  - rewrite length_app, length_map. exact Hlen.
  - rewrite C, tabPresses_app.
    change ((CallBlur page, Ok VUnit)
            :: walkCalls page Tab (map Some (visited r) ++ tail) ++ rest)
      with ([(CallBlur page, @Ok Value VUnit)]
            ++ walkCalls page Tab (map Some (visited r) ++ tail) ++ rest).
    rewrite !tabPresses_app, tabPresses_forward, Hrest.
    rewrite length_app, length_map.
    change (tabPresses [(CallBlur page, @Ok Value VUnit)]) with 0%nat. lia.
  - intros Ht. apply Hiff. split; [exact Ht | apply Hfull; exact Ht].
  - intros Hl. apply Hiff in Hl. destruct Hl as [-> _].
    destruct (cycleDetected r) eqn:E; [|reflexivity].
    destruct (proj1 Hcyc eq_refl) as (t & Ht). discriminate.
Qed.

End WalkerProofs.

(** ** The walk of the route handler on an engine that never throws *)

Section Progress.

Context {World : Type}.
Variable engine : Browser World.
Variable toLowerCase : jsstring -> jsstring.
Hypothesis reliable : Reliable engine.

Local Abbreviation inPage := (RouteTs.activeElementClosure toLowerCase).

Lemma turn_returns (page : Handle) (k : Key) {A}
    (rest : option FocusTarget -> M World A) (s : State World) :
  exists s1 o,
    (press engine page k ;;
     wait engine page 50 ;;
     target <- getActiveElementMetadata engine inPage page ;;
     rest target) s = rest o s1.
Proof.
  destruct reliable as (Hpress & Hwait & _ & _ & Hread).
  unfold bind, press, wait, getActiveElementMetadata, invoke, evaluate.
  destruct (Hpress page k (world s)) as (w1 & ->). cbn [world].
  destruct (Hwait page 50%nat w1) as (w2 & ->). cbn [world].
  destruct (Hread page w2) as (w3 & d & ->).
  unfold RouteTs.activeElementClosure.
  eexists. eexists. reflexivity.
Qed.

Lemma tabLoop_returns (n : nat) (page : Handle) :
  forall v s, exists s' v' c,
    tabLoop engine inPage n page v s = (s', Ok (v', c)).
Proof.
  induction n as [|n IH]; intros v s.
  - exists s, v, false. reflexivity.
  - cbn [tabLoop].
    destruct (turn_returns page Tab
                (fun target =>
                   match target with
                   | None => ret (v, false)
                   | Some target =>
                       if existsb (same_target target) v
                       then ret (v, true)
                       else tabLoop engine inPage n page (v ++ [target])
                   end) s) as (s1 & o & ->).
    destruct o as [t|].
    + destruct (existsb (same_target t) v).
      * exists s1, v, true. reflexivity.
      * apply IH.
    + exists s1, v, false. reflexivity.
Qed.

Lemma shiftTabLoop_returns (i : nat) (page : Handle)
    (v : list FocusTarget) :
  (i <= List.length v)%nat ->
  forall s, exists s' r,
    shiftTabLoop engine inPage i page v s = (s', Ok r).
Proof.
  induction i as [|i IH]; intros Hi s.
  - exists s, (Some true). reflexivity.
  - cbn [shiftTabLoop].
    destruct (nth_error v i) as [e|] eqn:He;
      [|apply nth_error_None in He; lia].
    destruct (turn_returns page ShiftTab
                (fun target =>
                   match target with
                   | None => ret (Some false)
                   | Some target =>
                       if negb (str_eqb (selector target) (selector e))
                          || negb (opt_eqb (name target) (name e))
                       then ret (Some false)
                       else shiftTabLoop engine inPage i page v
                   end) s) as (s1 & o & ->).
    destruct o as [t|].
    + destruct (negb (str_eqb (selector t) (selector e))
                || negb (opt_eqb (name t) (name e))).
      * exists s1, (Some false). reflexivity.
      * apply IH. lia.
    + exists s1, (Some false). reflexivity.
Qed.

Lemma verifyShiftTab_returns (page : Handle) (v : list FocusTarget)
    (s : State World) :
  exists s' r, verifyShiftTab engine inPage page v s = (s', Ok r).
Proof.
  unfold verifyShiftTab.
  destruct (Nat.leb_spec (List.length v) 1) as [Hshort|Hlong].
  - exists s, None. reflexivity.
  - destruct (nth_error v (List.length v - 1)) as [lastTarget|] eqn:He;
      [|apply nth_error_None in He; lia].
    destruct reliable as (_ & _ & _ & Hfocus & _).
    unfold bind, invoke.
    destruct (Hfocus page (selector lastTarget) (world s)) as (w1 & b & ->).
    destruct b; cbn [negb].
    + apply shiftTabLoop_returns. lia.
    + eexists. eexists. reflexivity.
Qed.

(** On an engine that never throws, the walk of the route handler returns
    a report, whatever the page does and whatever the limit is. *)
Lemma buildTabOrderReport_returns (limit : nat) (page : Handle)
    (s : State World) :
  exists s' r,
    buildTabOrderReport engine inPage limit page s = (s', Ok r).
Proof.
  unfold buildTabOrderReport.
  destruct reliable as (_ & _ & Hblur & _).
  unfold bind at 1. unfold invoke at 1.
  destruct (Hblur page (world s)) as (w1 & ->).
  unfold bind at 1.
  match goal with
  | |- context [tabLoop _ _ _ _ _ ?st] =>
      destruct (tabLoop_returns limit page [] st) as (s2 & v & c & ->)
  end.
  cbn [fst snd]. unfold bind at 1.
  destruct (verifyShiftTab_returns page v s2) as (s3 & r & ->).
  eexists. eexists. reflexivity.
Qed.

End Progress.

Lemma sim_reliable : Reliable Sim.engine.
Proof.
  unfold Reliable. cbn.
  split; [intros; eexists; reflexivity|].
  split; [intros; eexists; reflexivity|].
  split; [intros; eexists; reflexivity|].
  split; [|intros; eexists; eexists; reflexivity].
  intros page sel w. unfold Sim.focusSelector.
  destruct (find _ _); [destruct (Sim.focusable w)|];
    eexists; eexists; reflexivity.
Qed.

(** ** The iteration limit *)

Section Limits.

Context {World : Type}.
Variable engine : Browser World.
Variable inPage : Document -> result (option FocusTarget).

Lemma tabLoop_extends (n : nat) (page : Handle) :
  forall v s s' v' c,
    tabLoop engine inPage n page v s = (s', Ok (v', c)) ->
    (List.length v <= List.length v')%nat.
Proof.
  induction n as [|n IH]; intros v s s' v' c H.
  - apply ret_ok in H. destruct H as [_ H]. injection H as -> _. lia.
  - cbn [tabLoop] in H. apply turn_ok in H.
    destruct H as (s1 & o & _ & _ & H).
    destruct o as [t|].
    + destruct (existsb (same_target t) v).
      * apply ret_ok in H. destruct H as [_ H]. injection H as -> _. lia.
      * apply IH in H. rewrite length_app in H. cbn in H. lia.
    + apply ret_ok in H. destruct H as [_ H]. injection H as -> _. lia.
Qed.

(** A loop that stopped before its last iteration runs the same way under
    any limit that it did not reach. *)
Lemma tabLoop_early (n : nat) (page : Handle) :
  forall m v s s' v' c,
    tabLoop engine inPage n page v s = (s', Ok (v', c)) ->
    (List.length v' < List.length v + n)%nat ->
    (List.length v' < List.length v + m)%nat ->
    tabLoop engine inPage m page v s = (s', Ok (v', c)).
Proof.
  induction n as [|n IH]; intros m v s s' v' c H Hn Hm.
  - apply ret_ok in H. destruct H as [_ H]. injection H as -> _. lia.
  - destruct m as [|m].
    + apply tabLoop_extends in H. lia.
    + cbn [tabLoop] in *. unfold bind in *.
      destruct (press engine page Tab s) as [s1 [[]|e1]]; [|discriminate].
      destruct (wait engine page 50 s1) as [s2 [[]|e2]]; [|discriminate].
      destruct (getActiveElementMetadata engine inPage page s2)
        as [s3 [[t|]|e3]]; [| exact H | discriminate].
      destruct (existsb (same_target t) v); [exact H|].
      apply IH; [exact H | |]; rewrite length_app; cbn; lia.
Qed.

Lemma buildTabOrderReport_early (n m : nat) (page : Handle)
    (s s' : State World) (r : TabOrderReport) :
  buildTabOrderReport engine inPage n page s = (s', Ok r) ->
  (List.length (visited r) < n)%nat ->
  (List.length (visited r) < m)%nat ->
  buildTabOrderReport engine inPage m page s = (s', Ok r).
Proof.
  intros H Hn Hm. unfold buildTabOrderReport in *.
  apply bind_ok in H. destruct H as (s1 & [] & H1 & H).
  apply bind_ok in H. destruct H as (s2 & [v cyc] & H2 & H).
  apply bind_ok in H. destruct H as (s3 & stc & H3 & H).
  apply ret_ok in H. destruct H as [-> ->].
  cbn [fst snd visited] in *.
  apply tabLoop_early with (m := m) in H2; [| cbn; lia | cbn; lia].
  unfold bind. rewrite H1, H2. cbn [fst snd]. rewrite H3. unfold ret.
  replace (List.length v =? m)%nat with false
    by (symmetry; apply Nat.eqb_neq; lia).
  replace (List.length v =? n)%nat with false
    by (symmetry; apply Nat.eqb_neq; lia).
  reflexivity.
Qed.

End Limits.

(** C4. The limit is not one constant for every implementation of the walk,
    and the two walks do not return equal reports: [src/actions.ts] binds 30
    and the route handler imports 100. On a page of 40 links whose Tab order
    wraps around, the walk of the route handler visits the 40 links, more
    than the limit of [src/actions.ts] allows, and detects the cycle; the
    walk of [src/actions.ts] returns no report at all, since its extraction
    throws at the first link that gets the focus. *)
Lemma walks_differ_beyond_limit :
  ActionsTs.MAX_TAB_ITERATIONS = 30%nat
  /\ AccessibilityTypes.MAX_TAB_ITERATIONS = 100%nat
  /\ (exists r,
        snd (RouteTs.buildTabOrderReport Sim.engine Sim.lowerAscii 3
               (Sim.start (Sim.page 40 true))) = Ok r
        /\ List.length (visited r) = 40%nat
        /\ (ActionsTs.MAX_TAB_ITERATIONS < List.length (visited r))%nat
        /\ limitReached r = false /\ cycleDetected r = true)
  /\ snd (ActionsTs.buildTabOrderReport Sim.engine 3
            (Sim.start (Sim.page 40 true)))
     = Throw (evaluateError Sim.engine (referenceError "buildSelector"))
  /\ map fst (calls (fst (ActionsTs.buildTabOrderReport Sim.engine 3
                            (Sim.start (Sim.page 40 true)))))
     = [CallBlur 3; CallPress 3 Tab; CallWait 3 50; CallMetadata 3].
Proof.
  split; [reflexivity|].
  split; [reflexivity|].
  split; [eexists; split; [vm_compute; reflexivity|];
          split; [reflexivity|];
          split; [vm_compute; lia | split; reflexivity]|].
  split; vm_compute; reflexivity.
Qed.

(** ** The result envelope *)

Lemma try_catch_ok {W A} (m : M W A) (h : Exn -> M W A) s s' a :
  try_catch m h s = (s', Ok a) ->
  m s = (s', Ok a) \/ exists s1 e, m s = (s1, Throw e) /\ h e s1 = (s', Ok a).
Proof.
  unfold try_catch. destruct (m s) as [s1 [x|e]]; intros H.
  - left. exact H.
  - right. exists s1, e. auto.
Qed.

Lemma try_finally_ok {W A} (m : M W A) (f : M W unit) s s' a :
  try_finally m f s = (s', Ok a) -> exists s1, m s = (s1, Ok a).
Proof.
  unfold try_finally. destruct (m s) as [s1 r].
  destruct (f s1) as [s2 [[]|e]]; [|discriminate].
  intros H. injection H as _ ->. exists s1. reflexivity.
Qed.

(** A handler that returns makes the [try] statement return. *)
Lemma try_catch_returns {W A} (m : M W A) (h : Exn -> A) s :
  exists s' a, try_catch m (fun e => ret (h e)) s = (s', Ok a)
               /\ (m s = (s', Ok a) \/ exists e, a = h e).
Proof.
  unfold try_catch, ret. destruct (m s) as [s1 [x|e]].
  - exists s1, x. auto.
  - exists s1, (h e). split; [reflexivity|]. right. exists e. reflexivity.
Qed.

Lemma swallow_returns {W} (m : M W unit) s :
  exists s', swallow m s = (s', Ok tt).
Proof.
  unfold swallow.
  destruct (try_catch_returns m (fun _ => tt) s) as (s' & [] & H & _).
  exists s'. exact H.
Qed.

Lemma Shape_missingUrl : Shape missingUrl.
Proof. right. cbn. repeat split; eauto. Qed.

Lemma Shape_failure u e : Shape (failure u e).
Proof. right. cbn. repeat split; eauto. Qed.

Lemma Shape_success u t a : Shape (success u t a).
Proof. left. cbn. repeat split; eauto. Qed.

Section Check.

Context {World : Type}.
Variable engine : Browser World.
Variable inPage : Document -> result (option FocusTarget).
Variable MAX_TAB_ITERATIONS : nat.

Lemma resolvePlaywright_returns (isVercel : bool) (s : State World) :
  exists s', resolvePlaywright engine isVercel s = (s', Ok tt).
Proof.
  unfold resolvePlaywright. destruct isVercel.
  - exists s. reflexivity.
  - destruct (try_catch_returns
                (invoke (importPlaywright engine) CallImport
                        (fun _ => VUnit)) (fun _ => tt) s)
      as (s' & [] & H & _).
    exists s'. exact H.
Qed.

(** The [finally] clause of the route handler never throws. *)
Lemma route_cleanup_returns (s : State World) :
  exists s',
    (l <- getLocals ;;
     swallow (closeIfSet engine (pageVar l)) ;;
     swallow (closeIfSet engine (contextVar l)) ;;
     swallow (closeIfSet engine (browserVar l))) s = (s', Ok tt).
Proof.
  unfold bind, getLocals.
  destruct (swallow_returns (closeIfSet engine (pageVar (locals s))) s)
    as (s1 & ->).
  destruct (swallow_returns (closeIfSet engine (contextVar (locals s))) s1)
    as (s2 & ->).
  destruct (swallow_returns (closeIfSet engine (browserVar (locals s))) s2)
    as (s3 & ->).
  exists s3. reflexivity.
Qed.

(** The route handler responds, with a state of one of the two shapes,
    unless the conversion of the url of the payload throws; it then throws
    the same, before it has done anything. *)
Lemma POST_outcome (isVercel : bool) (body : option JsonValue)
    (s : State World) :
  (exists s' response,
      POST engine inPage MAX_TAB_ITERATIONS isVercel body s
      = (s', Ok response)
      /\ Shape (json response))
  \/ (exists payload e,
        body = Some payload /\ jsonRawUrl payload = Throw e
        /\ POST engine inPage MAX_TAB_ITERATIONS isVercel body s
           = (s, Throw e)).
Proof.
  unfold POST. destruct body as [payload|].
  - destruct (jsonRawUrl payload) as [rawUrl|e] eqn:Eraw.
    + left. destruct (negb (truthy rawUrl)).
      * eexists. eexists. split; [reflexivity | apply Shape_missingUrl].
      * set (url := normalizeUrl rawUrl).
        unfold bind at 1.
        destruct (resolvePlaywright_returns isVercel s) as (s0 & ->).
        unfold bind at 1. unfold setLocals at 1.
        match goal with
        | |- context [try_finally (try_catch ?m _) _ ?st] =>
            set (body := m); set (s1 := st)
        end.
        unfold try_finally.
        destruct (try_catch_returns body
                    (fun error => {| status := 500;
                                     json := failure url error |}) s1)
          as (s2 & response & -> & Hresp).
        destruct (route_cleanup_returns s2) as (s3 & ->).
        exists s3, response. split; [reflexivity|].
        destruct Hresp as [H|(e & ->)]; [|apply Shape_failure].
        subst body.
        repeat (apply bind_ok in H; destruct H as (? & ? & _ & H)).
        apply ret_ok in H. destruct H as [_ ->]. apply Shape_success.
    + right. exists payload, e. auto.
  - left. eexists. eexists. split; [reflexivity|].
    right. cbn. repeat split; eauto.
Qed.

(** C8. Every state that [checkAccessibilityAction] returns, and the state
    in every response of [POST], has one of the two shapes: [ok] with both
    reports and no errors, or not [ok] with at least one error message and
    no report. [POST] responds to every body but one whose url cannot be
    converted to a string, for which it throws and returns no state. *)
Theorem check_state_shape :
  (forall formData s s' st,
      checkAccessibilityAction engine inPage MAX_TAB_ITERATIONS
                               formData s = (s', Ok st) ->
      Shape st)
  /\ (forall isVercel body s s' response,
         POST engine inPage MAX_TAB_ITERATIONS isVercel body s
         = (s', Ok response) ->
         Shape (json response))
  /\ (forall isVercel body s,
         (exists s' response,
             POST engine inPage MAX_TAB_ITERATIONS isVercel body s
             = (s', Ok response))
         \/ (exists payload e,
               body = Some payload /\ jsonRawUrl payload = Throw e
               /\ POST engine inPage MAX_TAB_ITERATIONS isVercel body s
                  = (s, Throw e))).
Proof.
  split; [|split].
  - intros formData s s' st H. unfold checkAccessibilityAction in H.
    destruct (negb (truthy (formRawUrl formData))).
    + apply ret_ok in H. destruct H as [_ ->]. apply Shape_missingUrl.
    + apply bind_ok in H. destruct H as (s0 & [] & _ & H).
      apply try_finally_ok in H. destruct H as (s1 & H).
      apply try_catch_ok in H. destruct H as [H|(s2 & e & _ & H)].
      * repeat (apply bind_ok in H; destruct H as (? & ? & _ & H)).
        apply ret_ok in H. destruct H as [_ ->]. apply Shape_success.
      * apply ret_ok in H. destruct H as [_ ->]. apply Shape_failure.
  - intros isVercel body s s' response H.
    destruct (POST_outcome isVercel body s)
      as [(s1 & resp & H1 & Hshape)|(payload & e & _ & _ & H1)];
      rewrite H1 in H; [|discriminate].
    injection H as _ <-. exact Hshape.
  - intros isVercel body s.
    destruct (POST_outcome isVercel body s)
      as [(s1 & resp & H1 & _)|Hthrow]; [left; eauto | right; exact Hthrow].
Qed.

(** C9. A form or a payload whose [url] is missing, empty or made of white
    space is answered with [ok = false] and the single error
    [Missing URL], and the state is unchanged: no call was made to the
    engine, so no browser was launched and no navigation attempted. *)
Theorem missing_url_rejected :
  (forall formData s,
      BlankForm formData ->
      checkAccessibilityAction engine inPage MAX_TAB_ITERATIONS
                               formData s = (s, Ok missingUrl))
  /\ (forall isVercel payload s,
         BlankPayload payload ->
         POST engine inPage MAX_TAB_ITERATIONS isVercel (Some payload) s
         = (s, Ok {| status := 400; json := missingUrl |}))
  /\ ok missingUrl = false
  /\ errors missingUrl = Some [lit "Missing URL"]
  /\ tabOrder missingUrl = None /\ aria missingUrl = None.
Proof.
  split; [|split; [|repeat split]].
  - intros formData s Hblank. unfold checkAccessibilityAction.
    assert (E : formRawUrl formData = []).
    { unfold formRawUrl. destruct Hblank as [->|(u & -> & Hu)].
      - reflexivity.
      - apply trim_nil. exact Hu. }
    rewrite E. reflexivity.
  - intros isVercel payload s Hblank. unfold POST.
    assert (E : jsonRawUrl payload = Ok []).
    { unfold jsonRawUrl. destruct Hblank as [->|[->|(u & -> & Hu)]].
      - reflexivity.
      - reflexivity.
      - cbn. f_equal. apply trim_nil. exact Hu. }
    rewrite E. reflexivity.
Qed.

End Check.

(** ** The checker on the simulated page *)

Example scenario_A :
  match Sim.report (Sim.page 3 false) with
  | Ok r => (map selector (visited r), cycleDetected r, limitReached r,
             shiftTabConsistent r)
            = ([lit "#link1"; lit "#link2"; lit "#link3"], false, false,
               Some true)
  | Throw _ => False
  end.
Proof. vm_compute. reflexivity. Qed.

Example scenario_B :
  match Sim.report (Sim.page 3 true) with
  | Ok r => (List.length (visited r), cycleDetected r, limitReached r)
            = (3%nat, true, false)
  | Throw _ => False
  end.
Proof. vm_compute. reflexivity. Qed.

Example scenario_limit :
  match Sim.report (Sim.page 120 true) with
  | Ok r => (List.length (visited r), cycleDetected r, limitReached r)
            = (100%nat, false, true)
  | Throw _ => False
  end.
Proof. vm_compute. reflexivity. Qed.

Lemma forward_walk_cycle_witness :
  exists r,
    Sim.report (Sim.page 3 true) = Ok r
    /\ NoDup (map key (visited r))
    /\ cycleDetected r = true.
Proof.
  eassert (H : buildTabOrderReport Sim.engine
                 (RouteTs.activeElementClosure Sim.lowerAscii) 100 3
                 (Sim.start (Sim.page 3 true)) = (_, Ok _))
    by (vm_compute; reflexivity).
  destruct (@forward_walk_cycle _ _ _ _ _ _ _ _ H)
    as (tail & rest & _ & _ & Hnd & _ & _).
  eexists.
  split; [unfold Sim.report, Sim.walk, RouteTs.buildTabOrderReport,
            AccessibilityTypes.MAX_TAB_ITERATIONS; rewrite H; reflexivity|].
  split; [exact Hnd | reflexivity].
Defined.

Lemma forward_walk_limit_witness :
  exists r,
    Sim.report (Sim.page 120 true) = Ok r
    /\ limitReached r = true
    /\ cycleDetected r = false.
Proof.
  eassert (H : buildTabOrderReport Sim.engine
                 (RouteTs.activeElementClosure Sim.lowerAscii) 100 3
                 (Sim.start (Sim.page 120 true)) = (_, Ok _))
    by (vm_compute; reflexivity).
  destruct (@forward_walk_limit _ _ _ _ _ _ _ _ H)
    as (tail & rest & _ & _ & _ & _ & _ & _ & _ & Hc).
  eexists.
  split; [unfold Sim.report, Sim.walk, RouteTs.buildTabOrderReport,
            AccessibilityTypes.MAX_TAB_ITERATIONS; rewrite H; reflexivity|].
  split; [reflexivity | apply Hc; reflexivity].
Defined.

(** A page whose Shift+Tab skips a link: the reverse walk fails at its
    first step. *)
Example scenario_asymmetric :
  match Sim.report {| Sim.links := 3; Sim.wraps := false; Sim.back := 2;
                      Sim.focusable := true; Sim.reachable := true;
                      Sim.focus := 0 |} with
  | Ok r => shiftTabConsistent r = Some false
  | Throw _ => False
  end.
Proof. vm_compute. reflexivity. Qed.

Example scenario_not_focusable :
  match Sim.report {| Sim.links := 3; Sim.wraps := false; Sim.back := 1;
                      Sim.focusable := false; Sim.reachable := true;
                      Sim.focus := 0 |} with
  | Ok r => shiftTabConsistent r = None
  | Throw _ => False
  end.
Proof. vm_compute. reflexivity. Qed.

Lemma verifyShiftTab_spec_witness :
  exists s' (obs : list (option FocusTarget)),
    verifyShiftTab Sim.engine (RouteTs.activeElementClosure Sim.lowerAscii)
      3 Sim.threeLinks (Sim.start (Sim.page 3 false)) = (s', Ok (Some true))
    /\ List.length obs = 2%nat.
Proof.
  eassert (H : verifyShiftTab Sim.engine
                 (RouteTs.activeElementClosure Sim.lowerAscii) 3
                 Sim.threeLinks
                 (Sim.start (Sim.page 3 false)) = (_, Ok (Some true)))
    by (vm_compute; reflexivity).
  destruct (@verifyShiftTab_spec _ _ _ _ _ _ _ _ H)
    as (refocus & obs & _ & _ & _ & _ & Htrue & _).
  destruct (proj1 Htrue eq_refl) as (_ & Hlen & _).
  eexists. exists obs. split; [exact H | exact Hlen].
Defined.

Example check_unreachable :
  snd (ActionsTs.checkAccessibilityAction Sim.engine
         [(lit "url", EntryString (lit "nowhere.invalid"))]
         (Sim.start {| Sim.links := 0; Sim.wraps := false; Sim.back := 1;
                       Sim.focusable := true; Sim.reachable := false;
                       Sim.focus := 0 |}))
  = Ok (failure (lit "https://nowhere.invalid")
                (ErrorObject (lit "net::ERR_NAME_NOT_RESOLVED"))).
Proof. vm_compute. reflexivity. Qed.

(** On a page with a link, the action of [src/actions.ts] reports the
    failure of its extraction, where the route handler reports the walk. *)
Example check_three_links :
  snd (ActionsTs.checkAccessibilityAction Sim.engine
         [(lit "url", EntryString (lit "example.com"))]
         (Sim.start (Sim.page 3 false)))
  = Ok (failure (lit "https://example.com")
                (evaluateError Sim.engine (referenceError "buildSelector")))
  /\ match snd (RouteTs.POST Sim.engine Sim.lowerAscii false
                  (Some (JObject [(lit "url", JString (lit "example.com"))]))
                  (Sim.start (Sim.page 3 false))) with
     | Ok response =>
         status response = 200%nat
         /\ option_map visited (tabOrder (json response))
            = Some Sim.threeLinks
     | Throw _ => False
     end.
Proof. split; vm_compute; [reflexivity | split; reflexivity]. Qed.

(** A payload whose url has a [toString] member of its own. *)
Example route_throws :
  snd (RouteTs.POST Sim.engine Sim.lowerAscii false
         (Some (JObject [(lit "url",
                          JObject [(lit "toString", JString (lit "x"))])]))
         (Sim.start (Sim.page 3 false)))
  = Throw notAFunction.
Proof. reflexivity. Qed.

Lemma check_state_shape_witness :
  (exists st,
      snd (ActionsTs.checkAccessibilityAction Sim.engine
             [(lit "url", EntryString (lit "example.com"))]
             (Sim.start (Sim.page 3 false))) = Ok st
      /\ Shape st /\ ok st = false)
  /\ (exists response,
        snd (RouteTs.POST Sim.engine Sim.lowerAscii false
               (Some (JObject [(lit "url", JString (lit "example.com"))]))
               (Sim.start (Sim.page 3 false))) = Ok response
        /\ Shape (json response) /\ ok (json response) = true).
Proof.
  unfold ActionsTs.checkAccessibilityAction, RouteTs.POST,
    ActionsTs.MAX_TAB_ITERATIONS, AccessibilityTypes.MAX_TAB_ITERATIONS.
  eassert (H : checkAccessibilityAction Sim.engine
                 ActionsTs.activeElementClosure 30
                 [(lit "url", EntryString (lit "example.com"))]
                 (Sim.start (Sim.page 3 false)) = (_, Ok _))
    by (vm_compute; reflexivity).
  eassert (H' : POST Sim.engine
                  (RouteTs.activeElementClosure Sim.lowerAscii) 100 false
                  (Some (JObject [(lit "url",
                                   JString (lit "example.com"))]))
                  (Sim.start (Sim.page 3 false)) = (_, Ok _))
    by (vm_compute; reflexivity).
  split.
  - eexists. split; [rewrite H; reflexivity|].
    split; [|reflexivity].
    exact (proj1 (@check_state_shape _ Sim.engine
                    ActionsTs.activeElementClosure 30) _ _ _ _ H).
  - eexists. split; [rewrite H'; reflexivity|].
    split; [|reflexivity].
    exact (proj1 (proj2 (@check_state_shape _ Sim.engine
                           (RouteTs.activeElementClosure Sim.lowerAscii)
                           100))
             _ _ _ _ _ H').
Defined.

Lemma missing_url_rejected_witness :
  ActionsTs.checkAccessibilityAction Sim.engine
    [(lit "url", EntryString (lit "   "))] (Sim.start (Sim.page 3 false))
  = (Sim.start (Sim.page 3 false), Ok missingUrl)
  /\ RouteTs.POST Sim.engine Sim.lowerAscii false
       (Some (JObject [(lit "name", JString (lit "x"))]))
       (Sim.start (Sim.page 3 false))
     = (Sim.start (Sim.page 3 false),
        Ok {| status := 400; json := missingUrl |}).
Proof.
  destruct (@missing_url_rejected _ Sim.engine ActionsTs.activeElementClosure
              30) as (Hform & _).
  destruct (@missing_url_rejected _ Sim.engine
              (RouteTs.activeElementClosure Sim.lowerAscii) 100)
    as (_ & Hpost & _).
  unfold ActionsTs.checkAccessibilityAction, RouteTs.POST,
    ActionsTs.MAX_TAB_ITERATIONS, AccessibilityTypes.MAX_TAB_ITERATIONS.
  split.
  - apply Hform. right. eexists. split; [reflexivity|].
    repeat constructor.
  - apply Hpost. left. reflexivity.
Defined.

(* ===================================================================== *)
(** * Further properties of the code *)
(* ===================================================================== *)

(** ** Escaping *)

Lemma css_special_backslash : css_special 92 = true.
Proof. reflexivity. Qed.

Lemma cssEscape_cons (c : N) (v : jsstring) :
  cssEscape (c :: v)
  = (if css_special c then [92%N; c] else [c]) ++ cssEscape v.
Proof. reflexivity. Qed.

(** X1. [cssEscape] loses nothing: reading the backslashes back gives the
    string that was escaped, so two different ids or classes never get the
    same escaped form. *)
Theorem cssEscape_injective :
  (forall v, cssUnescape (cssEscape v) = v)
  /\ (forall a b, cssEscape a = cssEscape b -> a = b).
Proof.
  assert (H : forall v, cssUnescape (cssEscape v) = v).
  { induction v as [|c v IH]; [reflexivity|].
    rewrite cssEscape_cons. destruct (css_special c) eqn:E.
    - cbn [app cssUnescape]. rewrite N.eqb_refl, IH. reflexivity.
    - cbn [app cssUnescape].
      destruct (N.eqb_spec c 92) as [->|_];
        [rewrite css_special_backslash in E; discriminate|].
      rewrite IH. reflexivity. }
  split; [exact H|].
  intros a b E. rewrite <- (H a), <- (H b), E. reflexivity.
Qed.

Lemma cssEscape_length (v : jsstring) :
  List.length (cssEscape v)
  = (List.length v + List.length (filter css_special v))%nat.
Proof.
  induction v as [|c v IH]; [reflexivity|].
  rewrite cssEscape_cons, length_app, IH. cbn [filter].
  destruct (css_special c); cbn [List.length]; lia.
Qed.

(** X2. [cssEscape] returns its argument unchanged exactly when the
    argument has no code unit of the escaped class; otherwise the result is
    longer, by one backslash per such code unit, and never more than twice
    as long. *)
Theorem cssEscape_unchanged (v : jsstring) :
  (cssEscape v = v <-> forallb (fun c => negb (css_special c)) v = true)
  /\ List.length (cssEscape v)
     = (List.length v + List.length (filter css_special v))%nat
  /\ (List.length (cssEscape v) <= 2 * List.length v)%nat.
Proof.
  split; [|split].
  - split.
    + intros E. apply (f_equal (@List.length N)) in E.
      rewrite cssEscape_length in E.
      assert (Hf : filter css_special v = []).
      { destruct (filter css_special v); [reflexivity | cbn in E; lia]. }
      clear E. induction v as [|c v IH]; [reflexivity|].
      cbn [filter forallb] in *. destruct (css_special c); [discriminate|].
      cbn. apply IH. exact Hf.
    + induction v as [|c v IH]; [reflexivity|].
      cbn [forallb]. rewrite andb_true_iff, negb_true_iff.
      intros [Hc Hv]. rewrite cssEscape_cons, Hc, (IH Hv). reflexivity.
  - apply cssEscape_length.
  - rewrite cssEscape_length.
    pose proof (filter_length_le css_special v). lia.
Qed.

(** ** Trimming *)

Lemma startsClean_trimStart (s : jsstring) : startsClean (trimStart s).
Proof.
  destruct (trimStart s) as [|c t] eqn:E; [exact I|].
  exact (trimStart_head s E).
Qed.

Lemma trimStart_clean (s : jsstring) : startsClean s -> trimStart s = s.
Proof. destruct s as [|c s]; [reflexivity|]. cbn. intros ->. reflexivity. Qed.

Lemma trim_Trimmed (s : jsstring) : Trimmed (trim s).
Proof.
  unfold Trimmed, trim, trimEnd. rewrite rev_involutive.
  split; [|apply startsClean_trimStart].
  destruct (trimStart_suffix (rev (trimStart s))) as (pre & E & _).
  set (u := trimStart (rev (trimStart s))) in *.
  assert (Ht : trimStart s = rev u ++ rev pre).
  { rewrite <- rev_app_distr, <- E, rev_involutive. reflexivity. }
  pose proof (startsClean_trimStart s) as Hc. rewrite Ht in Hc.
  destruct (rev u); [exact I | exact Hc].
Qed.

Lemma trim_fixed (s : jsstring) : Trimmed s -> trim s = s.
Proof.
  intros [H1 H2]. unfold trim, trimEnd.
  rewrite (trimStart_clean s H1), (trimStart_clean (rev s) H2).
  apply rev_involutive.
Qed.

Lemma trim_idempotent (s : jsstring) : trim (trim s) = trim s.
Proof. apply trim_fixed, trim_Trimmed. Qed.

(** ** The accessible name *)

Lemma trimmed_attr_clean (e : Element) (n : string) (v : jsstring) :
  trimmed_attr e n = Some v -> v <> [] /\ Trimmed v.
Proof.
  unfold trimmed_attr. destruct (attr e n) as [a|]; [|discriminate].
  destruct (truthy a); [|discriminate]. cbn [andb].
  destruct (truthy (trim a)) eqn:E; [|discriminate].
  intros H. injection H as <-. split.
  - apply truthy_true. exact E.
  - apply trim_Trimmed.
Qed.

Lemma deriveAccessibleName_clean (d : Document) (el : Element)
    (n : jsstring) :
  deriveAccessibleName d el = Some n -> n <> [] /\ Trimmed n.
Proof.
  intros Hname.
  unfold deriveAccessibleName in Hname.
    destruct (trimmed_attr el "aria-label") as [v|] eqn:E1.
    { injection Hname as <-. exact (trimmed_attr_clean _ _ E1). }
    destruct (match attr el "aria-labelledby" with
              | Some labelledBy =>
                  if truthy labelledBy
                  then if truthy (labelledByText d labelledBy)
                       then Some (labelledByText d labelledBy) else None
                  else None
              | None => None
              end) as [v|] eqn:E2.
    { injection Hname as <-.
      destruct (attr el "aria-labelledby") as [lb|]; [|discriminate].
      destruct (truthy lb); [|discriminate].
      destruct (truthy (labelledByText d lb)) eqn:T; [|discriminate].
      injection E2 as <-. split.
      - apply truthy_true. exact T.
      - apply trim_Trimmed. }
    destruct (trimmed_attr el "title") as [v|] eqn:E3.
    { injection Hname as <-. exact (trimmed_attr_clean _ _ E3). }
    destruct (if is_image el then trimmed_attr el "alt" else None)
      as [v|] eqn:E4.
    { injection Hname as <-. destruct (is_image el); [|discriminate].
      exact (trimmed_attr_clean _ _ E4). }
    destruct (if is_text_input el
              then or_else (trimmed_attr el "placeholder")
                           (trimmed_attr el "name")
              else None) as [v|] eqn:E5.
    { injection Hname as <-. destruct (is_text_input el); [|discriminate].
      unfold or_else in E5.
      destruct (trimmed_attr el "placeholder") as [p|] eqn:E6.
      - injection E5 as <-. exact (trimmed_attr_clean _ _ E6).
      - exact (trimmed_attr_clean _ _ E5). }
    destruct (truthy (trim (textContent el))) eqn:T; [|discriminate].
    injection Hname as <-. split.
    - apply truthy_true. exact T.
    - apply trim_Trimmed.
Qed.

(** X3. Whatever the element and the document are, the name that
    [deriveAccessibleName] returns is never the empty string and never
    starts or ends with white space; trimming it again changes nothing. *)
Theorem deriveAccessibleName_trimmed (d : Document) (el : Element)
    (n : jsstring) (Hname : deriveAccessibleName d el = Some n) :
  n <> [] /\ Trimmed n /\ trim n = n.
Proof.
  destruct (deriveAccessibleName_clean _ _ Hname) as [H1 H2].
  split; [exact H1|]. split; [exact H2|].
  apply trim_fixed. exact H2.
Qed.

Lemma deriveAccessibleName_trimmed_witness :
  lit "Search" <> [] /\ Trimmed (lit "Search")
  /\ trim (lit "Search") = lit "Search".
Proof.
  apply (@deriveAccessibleName_trimmed Samples.gallery
           (node Samples.gallery 6) (lit "Search")).
  reflexivity.
Defined.

(** X4. An element that is neither an image nor a text field gets its name
    from [aria-label], [aria-labelledby], [title] and its text only: two such
    elements that agree on these get the same name in a document, whatever
    their [alt], [placeholder], [name] and other attributes are. *)
Theorem deriveAccessibleName_other_sources (d : Document)
    (el el' : Element)
    (Hel : interface el = HTMLOtherElement)
    (Hel' : interface el' = HTMLOtherElement)
    (Hlabel : attr el "aria-label" = attr el' "aria-label")
    (Hby : attr el "aria-labelledby" = attr el' "aria-labelledby")
    (Htitle : attr el "title" = attr el' "title")
    (Htext : textContent el = textContent el') :
  deriveAccessibleName d el = deriveAccessibleName d el'.
Proof.
  unfold deriveAccessibleName, trimmed_attr, is_image, is_text_input.
  rewrite Hel, Hel', Hlabel, Hby, Htitle, Htext. reflexivity.
Qed.

Lemma deriveAccessibleName_other_sources_witness :
  deriveAccessibleName Samples.gallery (node Samples.gallery 7)
  = deriveAccessibleName Samples.gallery
      (Samples.element "A" "a"
         [("alt"%string, "x"%string); ("placeholder"%string, "y"%string)] []
         None [] "Home" "" HTMLOtherElement).
Proof.
  apply deriveAccessibleName_other_sources; reflexivity.
Defined.

Lemma labelledByText_dangling (d : Document) (labelledBy : jsstring) :
  (forall i, In i (split_ws labelledBy) -> getElementById d i = None) ->
  labelledByText d labelledBy = [].
Proof.
  intros H. unfold labelledByText.
  assert (E : flat_map (fun i => match getElementById d i with
                                 | Some n => [n]
                                 | None => []
                                 end) (split_ws labelledBy) = []).
  { induction (split_ws labelledBy) as [|i l IH]; [reflexivity|].
    cbn [flat_map]. rewrite (H i (or_introl eq_refl)). cbn [app].
    apply IH. intros j Hj. apply H. right. exact Hj. }
  rewrite E. reflexivity.
Qed.

(** X5. The [title] is the name of an element when the label sources give
    nothing: no [aria-label], or one that is blank, and no
    [aria-labelledby], or one whose ids name no element of the document;
    then a [title] that is not blank is returned trimmed, whatever the
    [alt], the [placeholder], the [name] and the text of the element are. *)
Theorem deriveAccessibleName_title (d : Document) (el : Element)
    (title : jsstring)
    (Hlabel : attr el "aria-label" = None
              \/ exists l, attr el "aria-label" = Some l /\ trim l = [])
    (Hby : attr el "aria-labelledby" = None
           \/ exists lb, attr el "aria-labelledby" = Some lb
                         /\ forall i, In i (split_ws lb) ->
                                      getElementById d i = None)
    (Htitle : attr el "title" = Some title)
    (Hnonblank : trim title <> []) :
  deriveAccessibleName d el = Some (trim title).
Proof.
  unfold deriveAccessibleName.
  assert (E1 : trimmed_attr el "aria-label" = None).
  { unfold trimmed_attr. destruct Hlabel as [->|(l & -> & Hl)].
    - reflexivity.
    - rewrite Hl. cbn. rewrite andb_false_r. reflexivity. }
  rewrite E1.
  assert (E2 : match attr el "aria-labelledby" with
               | Some labelledBy =>
                   if truthy labelledBy
                   then if truthy (labelledByText d labelledBy)
                        then Some (labelledByText d labelledBy) else None
                   else None
               | None => None
               end = None).
  { destruct Hby as [->|(lb & -> & Hlb)]; [reflexivity|].
    rewrite (labelledByText_dangling d lb Hlb).
    destruct (truthy lb); reflexivity. }
  rewrite E2. rewrite (trimmed_attr_some el "title" Htitle Hnonblank).
  reflexivity.
Qed.

Lemma deriveAccessibleName_title_witness :
  deriveAccessibleName Samples.gallery
    (Samples.element "IMG" "img"
       [("aria-label"%string, "  "%string);
        ("aria-labelledby"%string, "nowhere else"%string);
        ("title"%string, " Logo "%string); ("alt"%string, "ignored"%string)]
       [] None [] "" "" HTMLImageElement)
  = Some (trim (lit " Logo ")).
Proof.
  apply (@deriveAccessibleName_title Samples.gallery _ (lit " Logo ")).
  - right. eexists. split; reflexivity.
  - right. eexists. split; [reflexivity|].
    intros i Hi. vm_compute in Hi.
    destruct Hi as [<-|[<-|[]]]; reflexivity.
  - reflexivity.
  - vm_compute. discriminate.
Defined.

(** ** The metadata of the focused element *)

Section Metadata.

Variable toLowerCase : jsstring -> jsstring.

Lemma metadata_extracted (d : Document) (t : FocusTarget) :
  activeElementMetadata toLowerCase d = Some t -> Extracted t.
Proof.
  unfold activeElementMetadata.
  destruct (activeElement d) as [el|]; [|discriminate].
  destruct (_ || _); [discriminate|].
  intros Ht. injection Ht as <-. unfold Extracted.
  split; [exact (firstn_length_le 160 (outerHTML (node d el)))|].
  cbn [role name hasAccessibleName]. split; [|split].
  - destruct (attr (node d el) "role") as [[|c r]|]; cbn; congruence.
  - intros n Hn. exact (deriveAccessibleName_clean _ _ Hn).
  - destruct (deriveAccessibleName d (node d el)) as [n|] eqn:Hn.
    + destruct (deriveAccessibleName_clean _ _ Hn) as (Hne & Htr).
      rewrite (trim_fixed Htr). apply truthy_true in Hne. rewrite Hne.
      split; [discriminate | reflexivity].
    + split; [discriminate | congruence].
Qed.

(** X6. The extraction yields nothing exactly when no element has the
    focus or the focused element is the body or the root of the document.
    A target that it yields has a snippet of 160 code units at most, a role
    that is never the empty string, a name that is absent or a non-empty
    trimmed string, and [hasAccessibleName] set exactly when the name is
    present. *)
Theorem activeElementMetadata_spec (d : Document) :
  (activeElementMetadata toLowerCase d = None <->
   activeElement d = None
   \/ (exists el, activeElement d = Some el
                  /\ (body d = Some el \/ documentElement d = Some el)))
  /\ (forall t, activeElementMetadata toLowerCase d = Some t ->
                Extracted t
                /\ exists el, activeElement d = Some el
                              /\ selector t = buildSelector toLowerCase d el
                              /\ name t = deriveAccessibleName d (node d el)).
Proof.
  split.
  - unfold activeElementMetadata.
    destruct (activeElement d) as [el|]; [|tauto].
    assert (Hb : (match body d with
                  | Some b => Nat.eqb el b
                  | None => false
                  end) = true <-> body d = Some el).
    { destruct (body d) as [b|]; [|split; discriminate].
      rewrite Nat.eqb_eq. split; congruence. }
    assert (Hr : (match documentElement d with
                  | Some r => Nat.eqb el r
                  | None => false
                  end) = true <-> documentElement d = Some el).
    { destruct (documentElement d) as [r|]; [|split; discriminate].
      rewrite Nat.eqb_eq. split; congruence. }
    destruct (_ || _) eqn:E.
    + split; [|reflexivity].
      intros _. right. exists el. split; [reflexivity|].
      apply orb_true_iff in E. tauto.
    + split; [discriminate|]. intros [H|(x & Hx & H)]; [discriminate|].
      injection Hx as <-. apply orb_false_iff in E. destruct E as [E1 E2].
      destruct H as [H|H]; [apply Hb in H | apply Hr in H]; congruence.
  - intros t Ht. split; [exact (metadata_extracted d Ht)|].
    unfold activeElementMetadata in Ht.
    destruct (activeElement d) as [el|]; [|discriminate].
    destruct (_ || _); [discriminate|].
    injection Ht as <-. exists el. auto.
Qed.

End Metadata.

(** ** The static scan *)

Lemma filter_nil_iff {A} (f : A -> bool) (l : list A) :
  filter f l = [] <-> forall x, In x l -> f x = false.
Proof.
  induction l as [|a l IH]; cbn.
  - split; [intros _ x [] | reflexivity].
  - destruct (f a) eqn:E.
    + split; [discriminate|]. intros H.
      rewrite (H a (or_introl eq_refl)) in E. discriminate.
    + rewrite IH. split.
      * intros H x [<-|Hx]; auto.
      * intros H x Hx. apply H. auto.
Qed.

(** X7. The scan counts an element as soon as it carries one of
    [aria-label], [aria-labelledby], [aria-describedby] and [role], even with
    an empty value: the count is zero exactly when no element of the document
    carries any of them, and it never exceeds the number of elements; the
    images reported are never more than the images of the document. *)
Theorem ariaReportOf_counts (d : Document) :
  (ariaAttributeCount (ariaReportOf d) <= List.length (elements d))%nat
  /\ (ariaAttributeCount (ariaReportOf d) = 0%nat <->
      forall n, In n (elements d) ->
                attr (node d n) "aria-label" = None
                /\ attr (node d n) "aria-labelledby" = None
                /\ attr (node d n) "aria-describedby" = None
                /\ attr (node d n) "role" = None)
  /\ (List.length (imagesMissingAlt (ariaReportOf d))
      <= List.length (images d))%nat.
Proof.
  assert (Hcount : ariaAttributeCount (ariaReportOf d)
                   = List.length (filter (fun n => has_aria (node d n))
                                         (elements d))) by reflexivity.
  assert (Himg : imagesMissingAlt (ariaReportOf d)
                 = map (fun n => {| src := attr (node d n) "src";
                                    snippet := slice0 160
                                                 (outerHTML (node d n)) |})
                     (firstn 20 (filter (fun n => missingAlt (node d n))
                                        (images d)))) by reflexivity.
  split; [|split].
  - rewrite Hcount. apply filter_length_le.
  - rewrite Hcount, length_zero_iff_nil, filter_nil_iff.
    split; intros H n Hn; specialize (H n Hn); unfold has_aria in *.
    + destruct (attr (node d n) "aria-label"),
        (attr (node d n) "aria-labelledby"),
        (attr (node d n) "aria-describedby"),
        (attr (node d n) "role"); try discriminate; auto.
    + destruct H as (-> & -> & -> & ->). reflexivity.
  - rewrite Himg, length_map, length_firstn.
    pose proof (filter_length_le (fun n => missingAlt (node d n)) (images d)).
    lia.
Qed.

(** ** What a computation adds to the calls *)

Lemma invoke_inv {W A} (prim : W -> W * result A) c inj
    (s s' : State W) (r : result A) :
  invoke prim c inj s = (s', r) ->
  exists w', prim (world s) = (w', r)
             /\ s' = {| world := w';
                        calls := calls s ++ [(c, map_result inj r)];
                        locals := locals s |}.
Proof.
  unfold invoke. destruct (prim (world s)) as [w' r'].
  intros H. injection H as <- <-. exists w'. auto.
Qed.

Lemma Adds_ret {W A} (P : Call -> Prop) (a : A) : Adds P (@ret W A a).
Proof.
  intros s s' r H. injection H as <- _. split; [reflexivity|].
  exists []. rewrite app_nil_r. auto.
Qed.

Lemma Adds_throw {W A} (P : Call -> Prop) (e : Exn) : Adds P (@throw W A e).
Proof.
  intros s s' r H. injection H as <- _. split; [reflexivity|].
  exists []. rewrite app_nil_r. auto.
Qed.

Lemma Adds_invoke {W A} (P : Call -> Prop) (prim : W -> W * result A)
    c inj :
  P c -> Adds P (invoke prim c inj).
Proof.
  intros Hc s s' r H. apply invoke_inv in H. destruct H as (w' & _ & ->).
  split; [reflexivity|]. eexists. split; [reflexivity|].
  repeat constructor. exact Hc.
Qed.

Lemma Adds_bind {W A B} (P : Call -> Prop) (m : M W A) (f : A -> M W B) :
  Adds P m -> (forall a, Adds P (f a)) -> Adds P (bind m f).
Proof.
  intros Hm Hf s s' r H. unfold bind in H.
  destruct (m s) as [s1 [a|e]] eqn:E.
  - destruct (Hm _ _ _ E) as (L1 & added1 & C1 & F1).
    destruct (Hf a _ _ _ H) as (L2 & added2 & C2 & F2).
    split; [congruence|]. exists (added1 ++ added2).
    split; [rewrite C2, C1, app_assoc; reflexivity|].
    apply Forall_app. auto.
  - injection H as <- <-. exact (Hm _ _ _ E).
Qed.

Lemma Adds_weaken {W A} (P Q : Call -> Prop) (m : M W A) :
  (forall c, P c -> Q c) -> Adds P m -> Adds Q m.
Proof.
  intros HPQ Hm s s' r H. destruct (Hm _ _ _ H) as (L & added & C & F).
  split; [exact L|]. exists added. split; [exact C|].
  eapply Forall_impl; [|exact F]. intros e. apply HPQ.
Qed.

Lemma Adds_try_catch {W A} (P : Call -> Prop) (m : M W A)
    (h : Exn -> M W A) :
  Adds P m -> (forall e, Adds P (h e)) -> Adds P (try_catch m h).
Proof.
  intros Hm Hh s s' r H. unfold try_catch in H.
  destruct (m s) as [s1 [a|e]] eqn:E.
  - injection H as <- <-. exact (Hm _ _ _ E).
  - destruct (Hm _ _ _ E) as (L1 & added1 & C1 & F1).
    destruct (Hh e _ _ _ H) as (L2 & added2 & C2 & F2).
    split; [congruence|]. exists (added1 ++ added2).
    split; [rewrite C2, C1, app_assoc; reflexivity|].
    apply Forall_app. auto.
Qed.

Lemma Throws_ret {W A} (a : A) : ThrowsFromEngine (@ret W A a).
Proof. intros s s' e H. discriminate. Qed.

Lemma Throws_invoke {W A} (prim : W -> W * result A) c inj :
  ThrowsFromEngine (invoke prim c inj).
Proof.
  intros s s' e H. apply invoke_inv in H. destruct H as (w' & _ & ->).
  exists [], c. reflexivity.
Qed.

Lemma Throws_bind {W A B} (P : Call -> Prop) (m : M W A)
    (f : A -> M W B) :
  Adds P m -> ThrowsFromEngine m -> (forall a, ThrowsFromEngine (f a)) ->
  ThrowsFromEngine (bind m f).
Proof.
  intros Ha Hm Hf s s' e H. unfold bind in H.
  destruct (m s) as [s1 [a|e1]] eqn:E.
  - destruct (Ha _ _ _ E) as (_ & added & C1 & _).
    destruct (Hf a _ _ _ H) as (front & c & C2).
    exists (added ++ front), c. rewrite C2, C1, <- !app_assoc. reflexivity.
  - injection H as <- <-. exact (Hm _ _ _ E).
Qed.

Section WalkerFrame.

Context {World : Type}.
Variable engine : Browser World.
Variable inPage : Document -> result (option FocusTarget).

Lemma Adds_press page k : Adds (onPage page) (press engine page k).
Proof. apply Adds_invoke. reflexivity. Qed.

Lemma Adds_wait page ms : Adds (onPage page) (wait engine page ms).
Proof. apply Adds_invoke. reflexivity. Qed.

Lemma Adds_metadata page :
  Adds (onPage page) (getActiveElementMetadata engine inPage page).
Proof. apply Adds_invoke. reflexivity. Qed.

Lemma Adds_aria page : Adds (onPage page) (getAriaReport engine page).
Proof. apply Adds_invoke. reflexivity. Qed.

Lemma Adds_tabLoop (n : nat) (page : Handle) :
  forall v, Adds (onPage page) (tabLoop engine inPage n page v).
Proof.
  induction n as [|n IH]; intros v; cbn [tabLoop].
  - apply Adds_ret.
  - apply Adds_bind; [apply Adds_press|]. intros _.
    apply Adds_bind; [apply Adds_wait|]. intros _.
    apply Adds_bind; [apply Adds_metadata|]. intros [t|].
    + destruct (existsb (same_target t) v); [apply Adds_ret | apply IH].
    + apply Adds_ret.
Qed.

Lemma Adds_shiftTabLoop (i : nat) (page : Handle) (v : list FocusTarget) :
  Adds (onPage page) (shiftTabLoop engine inPage i page v).
Proof.
  induction i as [|i IH]; cbn [shiftTabLoop].
  - apply Adds_ret.
  - apply Adds_bind; [apply Adds_press|]. intros _.
    apply Adds_bind; [apply Adds_wait|]. intros _.
    apply Adds_bind; [apply Adds_metadata|]. intros [t|].
    + destruct (nth_error v i) as [e|]; [|apply Adds_throw].
      destruct (_ || _); [apply Adds_ret | apply IH].
    + apply Adds_ret.
Qed.

Lemma Adds_verifyShiftTab (page : Handle) (v : list FocusTarget) :
  Adds (onPage page) (verifyShiftTab engine inPage page v).
Proof.
  unfold verifyShiftTab.
  destruct (List.length v <=? 1)%nat; [apply Adds_ret|].
  destruct (nth_error v (List.length v - 1)) as [lastTarget|];
    [|apply Adds_throw].
  apply Adds_bind; [apply Adds_invoke; reflexivity|]. intros b.
  destruct (negb b); [apply Adds_ret | apply Adds_shiftTabLoop].
Qed.

Lemma Adds_buildTabOrderReport (limit : nat) (page : Handle) :
  Adds (onPage page) (buildTabOrderReport engine inPage limit page).
Proof.
  unfold buildTabOrderReport.
  apply Adds_bind; [apply Adds_invoke; reflexivity|]. intros _.
  apply Adds_bind; [apply Adds_tabLoop|]. intros loop.
  apply Adds_bind; [apply Adds_verifyShiftTab|]. intros stc.
  apply Adds_ret.
Qed.

(** X8. However the walk ends, with a report or with an exception, it
    has only acted on its page: its first call is the blur and every other
    call is a key press, a pause or an evaluation on that page. It launches
    nothing, navigates nowhere, closes nothing and leaves the local
    variables of its caller alone. *)
Theorem walk_only_page_calls (limit : nat) (page : Handle)
    (s : State World) :
  let s' := fst (buildTabOrderReport engine inPage limit page s) in
  locals s' = locals s
  /\ exists blurred added,
       calls s' = calls s ++ (CallBlur page, blurred) :: added
       /\ Forall (fun e => onPage page (fst e)) added.
Proof.
  cbn zeta.
  destruct (buildTabOrderReport engine inPage limit page s)
    as [s' r] eqn:E.
  cbn [fst]. unfold buildTabOrderReport in E. unfold bind at 1 in E.
  destruct (invoke (evaluateBlur engine page) (CallBlur page)
                   (fun _ => VUnit) s) as [s1 r1] eqn:E1.
  apply invoke_inv in E1. destruct E1 as (w1 & _ & E1).
  destruct r1 as [[]|e].
  - match type of E with
    | bind ?m ?f s1 = _ => assert (Ha : Adds (onPage page) (bind m f))
    end.
    { apply Adds_bind; [apply Adds_tabLoop|]. intros loop.
      apply Adds_bind; [apply Adds_verifyShiftTab|]. intros stc.
      apply Adds_ret. }
    destruct (Ha _ _ _ E) as (L & added & C & F).
    split; [rewrite L, E1; reflexivity|].
    exists (Ok VUnit), added. split; [|exact F].
    rewrite C, E1. cbn [calls map_result]. rewrite <- app_assoc. reflexivity.
  - injection E as <- _. rewrite E1. cbn [locals calls map_result].
    split; [reflexivity|]. exists (Throw e), []. auto.
Qed.

End WalkerFrame.

Section WalkerMore.

Context {World : Type}.
Variable engine : Browser World.
Variable toLowerCase : jsstring -> jsstring.
Variable inPage : Document -> result (option FocusTarget).








Lemma firstn_snoc {A} (l : list A) (i : nat) (x : A) :
  nth_error l i = Some x -> firstn (S i) l = firstn i l ++ [x].
Proof.
  revert i. induction l as [|a l IH]; intros [|i] H; cbn in *;
    try discriminate.
  - injection H as ->. reflexivity.
  - rewrite (IH i H). reflexivity.
Qed.

Lemma shiftTabLoop_true (i : nat) (page : Handle)
    (v : list FocusTarget) :
  forall s s',
    shiftTabLoop engine inPage i page v s = (s', Ok (Some true)) ->
    exists back,
      calls s' = calls s ++ walkCalls page ShiftTab (map Some back)
      /\ map key back = rev (map key (firstn i v)).
Proof.
  induction i as [|i IH]; intros s s' H.
  - apply ret_ok in H. destruct H as [-> _].
    exists []. cbn. rewrite app_nil_r. auto.
  - cbn [shiftTabLoop] in H. apply turn_ok in H.
    destruct H as (s1 & o & C1 & _ & H).
    destruct o as [t|]; [|discriminate].
    destruct (nth_error v i) as [e|] eqn:He; [|discriminate].
    destruct (negb (str_eqb (selector t) (selector e))
              || negb (opt_eqb (name t) (name e))) eqn:E; [discriminate|].
    apply turn_matches in E.
    destruct E as (t' & x & Ht & Hx & Hsel & Hname).
    injection Ht as <-. injection Hx as <-.
    destruct (IH _ _ H) as (back & C2 & K).
    exists (t :: back). split.
    + rewrite C2, C1, <- app_assoc. reflexivity.
    + rewrite (firstn_snoc _ _ He), map_app, rev_app_distr.
      cbn [map rev app].
      rewrite K. unfold key. rewrite Hsel, Hname. reflexivity.
Qed.

(** X11. The reverse-consistency law: when a report says
    [shiftTabConsistent = true], it has two entries at least and the walk
    ended with one Shift+Tab step per entry but the last, whose observed
    targets carry, in order, the selectors and names of the visited entries
    before the last one, reversed. *)
Theorem reverse_consistency (limit : nat) (page : Handle)
    (s s' : State World) (r : TabOrderReport)
    (Hrun : buildTabOrderReport engine inPage limit page s
            = (s', Ok r))
    (Htrue : shiftTabConsistent r = Some true) :
  (2 <= List.length (visited r))%nat
  /\ exists front back,
       calls s' = front ++ walkCalls page ShiftTab (map Some back)
       /\ map key back = rev (map key (removelast (visited r))).
Proof.
  unfold buildTabOrderReport in Hrun.
  apply bind_ok in Hrun. destruct Hrun as (s1 & [] & _ & H).
  apply bind_ok in H. destruct H as (s2 & [v cyc] & _ & H).
  apply bind_ok in H. destruct H as (s3 & stc & H3 & H).
  apply ret_ok in H. destruct H as [-> ->].
  cbn [visited shiftTabConsistent fst] in *. subst stc.
  unfold verifyShiftTab in H3.
  destruct (Nat.leb_spec (List.length v) 1) as [Hshort|Hlong];
    [discriminate|].
  destruct (nth_error v (List.length v - 1)) as [lastTarget|];
    [|discriminate].
  apply bind_ok in H3. destruct H3 as (s4 & b & _ & H3).
  destruct b; cbn [negb] in H3; [|discriminate].
  apply shiftTabLoop_true in H3. destruct H3 as (back & C & K).
  split; [lia|]. exists (calls s4), back. split; [exact C|].
  rewrite K, removelast_firstn_len.
  replace (Nat.pred (List.length v)) with (List.length v - 1)%nat by lia.
  reflexivity.
Qed.

Lemma Throws_turn (page : Handle) (k : Key) {A}
    (rest : option FocusTarget -> M World A) :
  (forall o, ThrowsFromEngine (rest o)) ->
  ThrowsFromEngine
    (press engine page k ;;
     wait engine page 50 ;;
     target <- getActiveElementMetadata engine inPage page ;;
     rest target).
Proof.
  intros Hrest.
  eapply Throws_bind;
    [apply Adds_press | apply Throws_invoke |]. intros _.
  eapply Throws_bind;
    [apply Adds_wait | apply Throws_invoke |]. intros _.
  eapply Throws_bind;
    [apply Adds_metadata | apply Throws_invoke | exact Hrest].
Qed.

Lemma Throws_tabLoop (n : nat) (page : Handle) :
  forall v, ThrowsFromEngine (tabLoop engine inPage n page v).
Proof.
  induction n as [|n IH]; intros v; cbn [tabLoop].
  - apply Throws_ret.
  - apply Throws_turn. intros [t|]; [|apply Throws_ret].
    destruct (existsb (same_target t) v); [apply Throws_ret | apply IH].
Qed.

Lemma Throws_shiftTabLoop (i : nat) (page : Handle)
    (v : list FocusTarget) :
  (i <= List.length v)%nat ->
  ThrowsFromEngine (shiftTabLoop engine inPage i page v).
Proof.
  induction i as [|i IH]; intros Hi; cbn [shiftTabLoop].
  - apply Throws_ret.
  - apply Throws_turn. intros [t|]; [|apply Throws_ret].
    destruct (nth_error v i) as [e|] eqn:He;
      [|apply nth_error_None in He; lia].
    destruct (_ || _); [apply Throws_ret | apply IH; lia].
Qed.

Lemma Throws_verifyShiftTab (page : Handle) (v : list FocusTarget) :
  ThrowsFromEngine (verifyShiftTab engine inPage page v).
Proof.
  unfold verifyShiftTab.
  destruct (Nat.leb_spec (List.length v) 1) as [Hshort|Hlong];
    [apply Throws_ret|].
  destruct (nth_error v (List.length v - 1)) as [lastTarget|] eqn:He;
    [|apply nth_error_None in He; lia].
  eapply Throws_bind;
    [apply Adds_invoke with (P := onPage page); reflexivity
    | apply Throws_invoke |].
  intros b. destruct (negb b); [apply Throws_ret|].
  apply Throws_shiftTabLoop. lia.
Qed.

Lemma Throws_buildTabOrderReport (limit : nat) (page : Handle) :
  ThrowsFromEngine (buildTabOrderReport engine inPage limit page).
Proof.
  unfold buildTabOrderReport.
  eapply Throws_bind;
    [apply Adds_invoke with (P := onPage page); reflexivity
    | apply Throws_invoke |]. intros _.
  eapply Throws_bind;
    [apply Adds_tabLoop | apply Throws_tabLoop |]. intros loop.
  eapply Throws_bind;
    [apply Adds_verifyShiftTab | apply Throws_verifyShiftTab |]. intros stc.
  apply Throws_ret.
Qed.

(** X12. The statements of the walk and of the verifier that run outside
    the page throw nothing: the verifier never reads an entry past the
    visited ones, and whenever the walk throws, what it throws is the
    rejection of the call it made last, a key press, a pause or an
    evaluation in its page (which rejects with what the engine or the
    evaluated closure threw). *)
Theorem walk_throws_from_engine (limit : nat) (page : Handle)
    (s : State World) (e : Exn) :
  let out := buildTabOrderReport engine inPage limit page s in
  snd out = Throw e ->
  exists front c,
    calls (fst out) = calls s ++ front ++ [(c, Throw e)]
    /\ onPage page c.
Proof.
  cbn zeta. intros Hthrow.
  destruct (buildTabOrderReport engine inPage limit page s)
    as [s' res] eqn:H.
  cbn [fst snd] in *. subst res.
  destruct (Throws_buildTabOrderReport limit page _ H) as (front & c & E).
  exists front, c. split; [exact E|].
  destruct (Adds_buildTabOrderReport engine inPage limit page _ H)
    as (_ & added & E' & F).
  rewrite E in E'. apply app_inv_head in E'. subst added.
  apply Forall_app in F. destruct F as [_ F].
  inversion F; subst. assumption.
Qed.

End WalkerMore.



Lemma reverse_consistency_witness :
  exists s' r,
    buildTabOrderReport Sim.engine
      (RouteTs.activeElementClosure Sim.lowerAscii) 100 3
      (Sim.start (Sim.page 3 false)) = (s', Ok r)
    /\ (2 <= List.length (visited r))%nat.
Proof.
  eassert (H : buildTabOrderReport Sim.engine
                 (RouteTs.activeElementClosure Sim.lowerAscii) 100 3
                 (Sim.start (Sim.page 3 false)) = (_, Ok _))
    by (vm_compute; reflexivity).
  eexists. eexists. split; [exact H|].
  exact (proj1 (@reverse_consistency _ _ _ _ _ _ _ _ H eq_refl)).
Defined.

Lemma walk_throws_from_engine_witness :
  exists front,
    calls (fst (buildTabOrderReport (Sim.faulty 2 false)
                  (RouteTs.activeElementClosure Sim.lowerAscii) 100 3
                  (Sim.start (Sim.page 3 false))))
    = front ++ [(CallPress 3 Tab,
                 Throw (ErrorObject (lit "Target closed")))].
Proof.
  eassert (H : snd (buildTabOrderReport (Sim.faulty 2 false)
                      (RouteTs.activeElementClosure Sim.lowerAscii) 100 3
                      (Sim.start (Sim.page 3 false))) = Throw _)
    by (vm_compute; reflexivity).
  destruct (@walk_throws_from_engine _ _ _ _ _ _ _ H)
    as (front & c & E & _).
  exists front.
  change (calls (Sim.start (Sim.page 3 false))) with (@nil (Call * result Value))
    in E.
  cbn [app] in E.
  assert (Hc : CallPress 3 Tab = c).
  { apply (f_equal (fun l => fst (last l (CallImport, Throw NonError)))) in E.
    rewrite last_last in E. vm_compute in E. exact E. }
  rewrite Hc. exact E.
Defined.

(** ** How a check opens and closes the browser *)

Lemma bind_inv {W A B} (m : M W A) (f : A -> M W B) s s' r :
  bind m f s = (s', r) ->
  (exists s1 a, m s = (s1, Ok a) /\ f a s1 = (s', r))
  \/ (exists e, m s = (s', Throw e) /\ r = Throw e).
Proof.
  unfold bind. destruct (m s) as [s1 [a|e]]; intros H.
  - left. exists s1, a. auto.
  - right. injection H as <- <-. exists e. auto.
Qed.

Lemma try_catch_inv {W A} (m : M W A) (h : Exn -> M W A) s s' r :
  try_catch m h s = (s', r) ->
  (exists a, m s = (s', Ok a) /\ r = Ok a)
  \/ (exists s1 e, m s = (s1, Throw e) /\ h e s1 = (s', r)).
Proof.
  unfold try_catch. destruct (m s) as [s1 [a|e]]; intros H.
  - left. injection H as <- <-. exists a. auto.
  - right. exists s1, e. auto.
Qed.

Lemma try_finally_inv {W A} (m : M W A) (f : M W unit) s s' r :
  try_finally m f s = (s', r) ->
  exists s1 r1 rf,
    m s = (s1, r1) /\ f s1 = (s', rf)
    /\ r = match rf with Ok _ => r1 | Throw e => Throw e end.
Proof.
  unfold try_finally. destruct (m s) as [s1 r1].
  destruct (f s1) as [s2 [[]|e]] eqn:E; intros H; injection H as <- <-.
  - exists s1, r1, (Ok tt). auto.
  - exists s1, r1, (Throw e). auto.
Qed.

Lemma swallow_inv {W} (m : M W unit) s s' r :
  swallow m s = (s', r) -> r = Ok tt /\ exists r0, m s = (s', r0).
Proof.
  unfold swallow, try_catch, ret. destruct (m s) as [s1 [[]|e]];
    intros H; injection H as <- <-; eauto.
Qed.

Section Sessions.

Context {World : Type}.
Variable engine : Browser World.
Variable inPage : Document -> result (option FocusTarget).
Variable MAX_TAB_ITERATIONS : nat.

Lemma closeIfSet_inv (h : option Handle) (s s' : State World) r :
  closeIfSet engine h s = (s', r) ->
  locals s' = locals s
  /\ match h with
     | Some b => exists res, calls s' = calls s ++ [(CallClose b, res)]
                             /\ (forall e, r = Throw e <-> res = Throw e)
     | None => calls s' = calls s /\ r = Ok tt
     end.
Proof.
  destruct h as [b|]; cbn [closeIfSet]; intros H.
  - unfold closeHandle in H. apply invoke_inv in H.
    destruct H as (w & _ & ->). split; [reflexivity|].
    exists (map_result (fun _ => VUnit) r). split; [reflexivity|].
    intros e. destruct r as [[]|e']; cbn; split; congruence.
  - injection H as <- <-. auto.
Qed.

(** The body of the [try] of [src/actions.ts], up to the launch. *)
Lemma action_body_runs {A} (P : Handle -> Call -> Prop)
    (tail : Handle -> M World A) (s sb : State World) (rb : result A) :
  (forall b, Adds (P b) (tail b)) ->
  locals s = noLocals ->
  (invoke (importPlaywright engine) CallImport (fun _ => VUnit) ;;
   browser <- invoke (launch engine) CallLaunch VHandle ;;
   setBrowser browser ;;
   tail browser) s = (sb, rb) ->
  (exists e, rb = Throw e /\ browserVar (locals sb) = None
             /\ (calls sb = calls s ++ [(CallImport, Throw e)]
                 \/ calls sb = calls s ++ [(CallImport, Ok VUnit);
                                          (CallLaunch, Throw e)]))
  \/ (exists h mid,
        browserVar (locals sb) = Some h
        /\ calls sb = calls s ++ (CallImport, Ok VUnit)
                              :: (CallLaunch, Ok (VHandle h)) :: mid
        /\ Forall (fun e => P h (fst e)) mid
        /\ exists s1, tail h s1 = (sb, rb)).
Proof.
  intros Htail Hloc H.
  apply bind_inv in H. destruct H as [(s1 & [] & H1 & H)|(e & H1 & ->)].
  - apply invoke_inv in H1. destruct H1 as (w1 & _ & ->).
    apply bind_inv in H. destruct H as [(s2 & h & H2 & H)|(e & H2 & ->)].
    + apply invoke_inv in H2. destruct H2 as (w2 & _ & ->).
      apply bind_inv in H. destruct H as [(s3 & [] & H3 & H)|(e & H3 & _)];
        [|discriminate].
      injection H3 as <-.
      destruct (Htail h _ _ _ H) as (L & mid & C & F).
      right. exists h, mid. cbn [locals calls world] in *.
      split; [rewrite L; reflexivity|].
      split; [rewrite C, <- !app_assoc; reflexivity|].
      split; [exact F|]. eexists. exact H.
    + apply invoke_inv in H2. destruct H2 as (w2 & _ & ->).
      left. exists e. cbn [locals calls]. rewrite Hloc.
      split; [reflexivity|]. split; [reflexivity|]. right.
      rewrite <- app_assoc. reflexivity.
  - apply invoke_inv in H1. destruct H1 as (w1 & _ & ->).
    left. exists e. cbn [locals calls]. rewrite Hloc. auto.
Qed.

Lemma Adds_action_tail (u : jsstring) (browser : Handle) :
  Adds (fun c => Navigates u c \/ c = CallNewPage browser)
    (page <- invoke (newPage engine browser) (CallNewPage browser) VHandle ;;
     invoke (goto engine page u) (CallGoto page u) (fun _ => VUnit) ;;
     wait engine page 250 ;;
     tabOrder <- buildTabOrderReport engine inPage MAX_TAB_ITERATIONS
                                     page ;;
     aria <- getAriaReport engine page ;;
     ret (success u tabOrder aria)).
Proof.
  assert (Hpage : forall p c, onPage p c ->
                              Navigates u c \/ c = CallNewPage browser).
  { intros p c Hc. left. destruct c; cbn in *; try contradiction; exact I. }
  apply Adds_bind; [apply Adds_invoke; right; reflexivity|]. intros page.
  apply Adds_bind; [apply Adds_invoke; left; reflexivity|]. intros _.
  apply Adds_bind;
    [eapply Adds_weaken; [exact (Hpage page) | apply Adds_wait]|].
  intros _.
  apply Adds_bind;
    [eapply Adds_weaken;
     [exact (Hpage page) | apply Adds_buildTabOrderReport]|].
  intros tabOrder.
  apply Adds_bind;
    [eapply Adds_weaken; [exact (Hpage page) | apply Adds_aria]|].
  intros aria. apply Adds_ret.
Qed.

(** The runs of [checkAccessibilityAction] of [src/actions.ts] on a form
    whose url is not blank. *)
Lemma action_runs (formData : FormData) (s s' : State World)
    (r : result AccessibilityCheckState) :
  truthy (formRawUrl formData) = true ->
  checkAccessibilityAction engine inPage MAX_TAB_ITERATIONS formData s
  = (s', r) ->
  let u := normalizeUrl (formRawUrl formData) in
  (exists e, r = Ok (failure u e)
             /\ (calls s' = calls s ++ [(CallImport, Throw e)]
                 \/ calls s' = calls s ++ [(CallImport, Ok VUnit);
                                          (CallLaunch, Throw e)]))
  \/ (exists h mid res st,
        calls s' = calls s ++ (CallImport, Ok VUnit)
                           :: (CallLaunch, Ok (VHandle h))
                           :: mid ++ [(CallClose h, res)]
        /\ Forall (fun e => Navigates u (fst e) \/ fst e = CallNewPage h) mid
        /\ ((exists t a, st = success u t a) \/ exists e, st = failure u e)
        /\ r = match res with Ok _ => Ok st | Throw e => Throw e end).
Proof.
  intros Hurl H u. unfold checkAccessibilityAction in H.
  rewrite Hurl in H. cbn [negb] in H. fold u in H.
  apply bind_inv in H. destruct H as [(s0 & [] & H0 & H)|(e & H0 & _)];
    [|discriminate].
  injection H0 as <-.
  apply try_finally_inv in H. destruct H as (s1 & r1 & rf & Hm & Hf & ->).
  assert (Hbody : exists sb rb,
             (invoke (importPlaywright engine) CallImport (fun _ => VUnit) ;;
              browser <- invoke (launch engine) CallLaunch VHandle ;;
              setBrowser browser ;;
              page <- invoke (newPage engine browser) (CallNewPage browser)
                             VHandle ;;
              invoke (goto engine page u) (CallGoto page u)
                     (fun _ => VUnit) ;;
              wait engine page 250 ;;
              tabOrder <- buildTabOrderReport engine inPage
                                              MAX_TAB_ITERATIONS page ;;
              aria <- getAriaReport engine page ;;
              ret (success u tabOrder aria))
               {| world := world s; calls := calls s; locals := noLocals |}
             = (sb, rb)
             /\ s1 = sb
             /\ r1 = match rb with
                     | Ok a => Ok a
                     | Throw e => Ok (failure u e)
                     end).
  { apply try_catch_inv in Hm.
    destruct Hm as [(a & Hm & ->)|(sx & e & Hm & Hh)].
    - exists s1, (Ok a). auto.
    - injection Hh as <- <-. exists sx, (Throw e). auto. }
  destruct Hbody as (sb & rb & Hbody & -> & ->).
  eapply (@action_body_runs _
            (fun b c => Navigates u c \/ c = CallNewPage b)) in Hbody;
    [|intros b; apply Adds_action_tail|reflexivity].
  apply bind_inv in Hf. destruct Hf as [(sl & l & Hl & Hf)|(e & Hl & _)];
    [|discriminate].
  injection Hl as <- <-.
  apply closeIfSet_inv in Hf. destruct Hf as (_ & Hf).
  cbn [calls] in Hbody.
  destruct Hbody as [(e & -> & Hb & Hc)|(h & mid & Hb & Hc & F & s2 & Ht)].
  - rewrite Hb in Hf. destruct Hf as (Hf & ->). left. exists e.
    split; [reflexivity|]. rewrite Hf. exact Hc.
  - rewrite Hb in Hf. destruct Hf as (res & Hf & Hres). right.
    exists h, mid, res,
      (match rb with Ok a => a | Throw e => failure u e end).
    split; [rewrite Hf, Hc, <- app_assoc; reflexivity|].
    split; [exact F|]. split.
    + destruct rb as [a|e]; [left | right; eauto].
      repeat (apply bind_inv in Ht;
              destruct Ht as [(? & ? & _ & Ht)|(? & _ & Ht)];
              [|discriminate]).
      injection Ht as _ <-. eauto.
    + destruct rf as [[]|e].
      * destruct res as [v|e]; [destruct rb; reflexivity|].
        discriminate (proj2 (Hres e) eq_refl).
      * rewrite (proj1 (Hres e) eq_refl). reflexivity.
Qed.

End Sessions.

Lemma normalizeUrl_prefix (s : jsstring) :
  has_http_prefix (normalizeUrl s) = true.
Proof.
  unfold normalizeUrl. destruct (has_http_prefix s) eqn:E;
    [exact E | apply has_http_prefix_https].
Qed.

Lemma app_eq_self {A} (l x : list A) : l = l ++ x -> x = [].
Proof.
  intros H. apply (f_equal (@List.length A)) in H.
  rewrite length_app in H. destruct x; [reflexivity | cbn in H; lia].
Qed.

Lemma launchedBrowsers_app a b :
  launchedBrowsers (a ++ b) = launchedBrowsers a ++ launchedBrowsers b.
Proof. apply flat_map_app. Qed.

Lemma openedHandles_app a b :
  openedHandles (a ++ b) = openedHandles a ++ openedHandles b.
Proof. apply flat_map_app. Qed.

Lemma launchedBrowsers_mid (u : jsstring) (h : Handle) mid :
  Forall (fun e : Call * result Value =>
            Navigates u (fst e) \/ fst e = CallNewPage h) mid ->
  launchedBrowsers mid = [] /\ Forall (fun e => ~ isClose (fst e)) mid.
Proof.
  induction 1 as [|[c r] l Hc _ [IH1 IH2]]; [split; constructor|].
  cbn [fst] in Hc. split.
  - change ((c, r) :: l) with ([(c, r)] ++ l).
    rewrite launchedBrowsers_app, IH1, app_nil_r.
    destruct Hc as [Hc| ->]; [|reflexivity].
    destruct c; cbn in Hc; try contradiction; reflexivity.
  - constructor; [|exact IH2]. cbn [fst].
    destruct Hc as [Hc| ->]; [|exact (fun x => x)].
    destruct c; cbn in *; tauto.
Qed.

Section ActionSession.

Context {World : Type}.
Variable engine : Browser World.
Variable inPage : Document -> result (option FocusTarget).
Variable MAX_TAB_ITERATIONS : nat.

Lemma action_blank (formData : FormData) (s : State World) :
  truthy (formRawUrl formData) = false ->
  checkAccessibilityAction engine inPage MAX_TAB_ITERATIONS formData s
  = (s, Ok missingUrl).
Proof.
  intros H. unfold checkAccessibilityAction. rewrite H. reflexivity.
Qed.

(** X13. The server action of [src/actions.ts] closes what it launched: on
    every run, with any form and any behaviour of the engine, its calls are
    some calls that close nothing, followed by one [close] of the browser
    when [launch] returned one, and by nothing otherwise. *)
Theorem action_closes_browser (formData : FormData) (s : State World) :
  let s' := fst (checkAccessibilityAction engine inPage
                   MAX_TAB_ITERATIONS formData s) in
  exists opened closing,
    calls s' = calls s ++ opened ++ closing
    /\ Forall (fun e => ~ isClose (fst e)) opened
    /\ map fst closing = map CallClose (launchedBrowsers opened)
    /\ (List.length closing <= 1)%nat.
Proof.
  cbn zeta.
  destruct (checkAccessibilityAction engine inPage MAX_TAB_ITERATIONS
              formData s) as [s' r] eqn:E. cbn [fst].
  destruct (truthy (formRawUrl formData)) eqn:Hurl.
  - destruct (@action_runs _ _ _ _ _ _ _ _ Hurl E)
      as [(e & _ & [C|C])|(h & mid & res & st & C & F & _)].
    + exists [(CallImport, Throw e)], []. rewrite app_nil_r.
      split; [exact C|]. split; [repeat constructor; exact (fun x => x)|].
      split; [reflexivity | cbn; lia].
    + exists [(CallImport, Ok VUnit); (CallLaunch, Throw e)], [].
      rewrite app_nil_r. split; [exact C|].
      split; [repeat constructor; exact (fun x => x)|].
      split; [reflexivity | cbn; lia].
    + destruct (@launchedBrowsers_mid _ _ _ F) as [Hl Hc].
      exists ((CallImport, Ok VUnit) :: (CallLaunch, Ok (VHandle h)) :: mid),
        [(CallClose h, res)].
      split; [rewrite C; reflexivity|].
      split; [repeat constructor; try exact (fun x => x); exact Hc|].
      split; [|cbn; lia].
      change (launchedBrowsers ((CallImport, Ok VUnit)
                                :: (CallLaunch, Ok (VHandle h)) :: mid))
        with (h :: launchedBrowsers mid).
      rewrite Hl. reflexivity.
  - rewrite (@action_blank _ _ Hurl) in E. injection E as <- _.
    exists [], []. rewrite app_nil_r. repeat split; auto.
Qed.

(** X14. The server action of [src/actions.ts] throws exactly when the
    [close] of the browser in its [finally] clause throws, and it throws
    that exception: a failure of the import, of the launch, of the
    navigation or of the walk is always turned into a returned state. *)
Theorem action_throws_iff_close_throws (formData : FormData)
    (s : State World) (e : Exn) :
  let out := checkAccessibilityAction engine inPage MAX_TAB_ITERATIONS
               formData s in
  snd out = Throw e
  <-> exists front h,
        calls (fst out) = calls s ++ front ++ [(CallClose h, Throw e)].
Proof.
  cbn zeta.
  destruct (checkAccessibilityAction engine inPage MAX_TAB_ITERATIONS
              formData s) as [s' r] eqn:E. cbn [fst snd].
  destruct (truthy (formRawUrl formData)) eqn:Hurl.
  - destruct (@action_runs _ _ _ _ _ _ _ _ Hurl E)
      as [(e0 & -> & [C|C])|(h & mid & res & st & C & _ & _ & ->)].
    + split; [discriminate|]. intros (front & h & C').
      rewrite C in C'. apply app_inv_head in C'.
      apply (f_equal (@rev _)) in C'. rewrite rev_app_distr in C'.
      discriminate.
    + split; [discriminate|]. intros (front & h & C').
      rewrite C in C'. apply app_inv_head in C'.
      apply (f_equal (@rev _)) in C'. rewrite rev_app_distr in C'.
      discriminate.
    + split.
      * intros Hr. destruct res as [v|e1]; [discriminate|].
        injection Hr as ->.
        exists ((CallImport, Ok VUnit) :: (CallLaunch, Ok (VHandle h))
                :: mid), h.
        rewrite C. reflexivity.
      * intros (front & h' & C'). rewrite C in C'. apply app_inv_head in C'.
        change ((CallImport, Ok VUnit) :: (CallLaunch, Ok (VHandle h))
                :: mid ++ [(CallClose h, res)])
          with (((CallImport, @Ok Value VUnit)
                 :: (CallLaunch, Ok (VHandle h)) :: mid)
                ++ [(CallClose h, res)]) in C'.
        apply app_inj_tail in C'. destruct C' as [_ C'].
        injection C' as _ ->. reflexivity.
  - rewrite (@action_blank _ _ Hurl) in E. injection E as <- <-.
    split; [discriminate|]. intros (front & h & C).
    apply app_eq_self in C. destruct front; discriminate.
Qed.

(** X15. The server action of [src/actions.ts] only ever navigates to the
    normalized url of the form, which carries an [http://] or [https://]
    prefix, and that url is the one of every state it returns after the
    validation of the form. *)
Theorem action_navigates_normalized (formData : FormData)
    (s : State World) :
  let out := checkAccessibilityAction engine inPage MAX_TAB_ITERATIONS
               formData s in
  let u := normalizeUrl (formRawUrl formData) in
  has_http_prefix u = true
  /\ (exists added,
        calls (fst out) = calls s ++ added
        /\ forall p target res,
             In (CallGoto p target, res) added -> target = u)
  /\ (forall st, snd out = Ok st ->
                 st = missingUrl \/ url st = Some u).
Proof.
  cbn zeta. split; [apply normalizeUrl_prefix|].
  destruct (checkAccessibilityAction engine inPage MAX_TAB_ITERATIONS
              formData s) as [s' r] eqn:E. cbn [fst snd].
  destruct (truthy (formRawUrl formData)) eqn:Hurl.
  - destruct (@action_runs _ _ _ _ _ _ _ _ Hurl E)
      as [(e & -> & C)|(h & mid & res & st & C & F & Hst & ->)].
    + split.
      * destruct C as [C|C]; eexists; (split; [exact C|]);
          intros p target res Hin; cbn in Hin;
          repeat (destruct Hin as [Hin|Hin]; [discriminate|]);
          destruct Hin.
      * intros st H. injection H as <-. right. reflexivity.
    + split.
      * eexists. split; [exact C|]. intros p target res0 Hin.
        destruct Hin as [H|[H|Hin]]; try discriminate.
        apply in_app_or in Hin. destruct Hin as [Hin|[H|[]]];
          [|discriminate].
        rewrite Forall_forall in F. specialize (F _ Hin). cbn [fst] in F.
        destruct F as [F|F]; [exact F | discriminate].
      * intros st0 H. right. destruct res; [|discriminate].
        injection H as <-.
        destruct Hst as [(t & rep & ->)|(e & ->)]; reflexivity.
  - rewrite (@action_blank _ _ Hurl) in E. injection E as <- <-.
    split.
    + exists []. rewrite app_nil_r. split; [reflexivity|]. intros p t r [].
    + intros st H. injection H as <-. left. reflexivity.
Qed.

End ActionSession.

Lemma openedHandles_mid (u : jsstring) (isVercel : bool) mid :
  Forall (fun e : Call * result Value =>
            Navigates u (fst e) \/ isClose (fst e)) mid ->
  openedHandles mid = []
  /\ Forall (fun e => RouteCall u isVercel (fst e)) mid.
Proof.
  induction 1 as [|[c r] l Hc _ [IH1 IH2]]; [split; constructor|].
  cbn [fst] in Hc. split.
  - change ((c, r) :: l) with ([(c, r)] ++ l).
    rewrite openedHandles_app, IH1, app_nil_r.
    destruct c; cbn in Hc; try tauto; reflexivity.
  - constructor; [|exact IH2]. cbn [fst].
    destruct c; cbn in *; tauto.
Qed.

Section RouteSession.

Context {World : Type}.
Variable engine : Browser World.
Variable inPage : Document -> result (option FocusTarget).
Variable MAX_TAB_ITERATIONS : nat.

(** The body of the [try] of the route handler, up to the opening of the
    page: at its end the local variables hold what the calls opened. *)
Lemma route_body_runs {A} (u : jsstring) (isVercel : bool)
    (tail : Handle -> Handle -> M World A) (s sb : State World)
    (rb : result A) :
  (forall c p, Adds (fun call => Navigates u call \/ isClose call)
                    (tail c p)) ->
  locals s = noLocals ->
  (buildLaunchOptions engine isVercel ;;
   browser <- invoke (launch engine) CallLaunch VHandle ;;
   setBrowser browser ;;
   context <- invoke (newContext engine browser) (CallNewContext browser)
                     VHandle ;;
   setContext context ;;
   page <- invoke (newPage engine context) (CallNewPage context) VHandle ;;
   setPage page ;;
   tail context page) s = (sb, rb) ->
  exists opened,
    calls sb = calls s ++ opened
    /\ toClose (locals sb) = rev (openedHandles opened)
    /\ Forall (fun e => RouteCall u isVercel (fst e)) opened
    /\ ((exists e, rb = Throw e)
        \/ exists c p s1, tail c p s1 = (sb, rb)).
Proof.
  intros Htail Hloc H.
  assert (Hopt : exists s0 r0 pre,
             buildLaunchOptions engine isVercel s = (s0, r0)
             /\ calls s0 = calls s ++ pre /\ locals s0 = noLocals
             /\ openedHandles pre = []
             /\ Forall (fun e => RouteCall u isVercel (fst e)) pre).
  { unfold buildLaunchOptions. destruct isVercel; cbn [negb].
    - destruct (invoke (executablePath engine) CallExecutablePath
                       (fun _ => VUnit) s) as [s0 r0] eqn:E.
      exists s0, r0. apply invoke_inv in E. destruct E as (w & _ & ->).
      eexists. split; [reflexivity|]. split; [reflexivity|].
      split; [exact Hloc|]. split; [reflexivity|].
      repeat constructor.
    - exists s, (Ok tt), []. rewrite app_nil_r. repeat split; auto. }
  destruct Hopt as (s0 & r0 & pre & E0 & C0 & L0 & O0 & F0).
  apply bind_inv in H. rewrite E0 in H.
  destruct H as [(s0' & [] & H0 & H)|(e & H0 & ->)].
  2:{ injection H0 as <- _. exists pre. unfold toClose. rewrite L0, O0.
      repeat split; eauto. }
  injection H0 as <- _.
  apply bind_inv in H. destruct H as [(s1 & b & H1 & H)|(e & H1 & ->)].
  2:{ apply invoke_inv in H1. destruct H1 as (w & _ & ->).
      exists (pre ++ [(CallLaunch, Throw e)]). cbn [calls locals].
      unfold toClose. rewrite L0, openedHandles_app, O0, C0, app_assoc.
      split; [reflexivity|]. split; [reflexivity|].
      split; [apply Forall_app; split; [exact F0 | repeat constructor]|].
      left. eauto. }
  apply invoke_inv in H1. destruct H1 as (w1 & _ & ->).
  apply bind_inv in H. destruct H as [(s2 & [] & H2 & H)|(e & H2 & _)];
    [|discriminate].
  injection H2 as <-. cbn [world calls locals] in H.
  apply bind_inv in H. destruct H as [(s3 & c & H3 & H)|(e & H3 & ->)].
  2:{ apply invoke_inv in H3. destruct H3 as (w & _ & ->).
      exists (pre ++ [(CallLaunch, Ok (VHandle b));
                      (CallNewContext b, Throw e)]).
      cbn [calls locals world]. unfold toClose.
      cbn [pageVar contextVar browserVar].
      rewrite L0, openedHandles_app, O0, C0, <- !app_assoc.
      split; [reflexivity|]. split; [reflexivity|].
      split; [apply Forall_app; split; [exact F0 | repeat constructor]|].
      left. eauto. }
  apply invoke_inv in H3. destruct H3 as (w3 & _ & ->).
  apply bind_inv in H. destruct H as [(s4 & [] & H4 & H)|(e & H4 & _)];
    [|discriminate].
  injection H4 as <-. cbn [world calls locals] in H.
  apply bind_inv in H. destruct H as [(s5 & p & H5 & H)|(e & H5 & ->)].
  2:{ apply invoke_inv in H5. destruct H5 as (w & _ & ->).
      exists (pre ++ [(CallLaunch, Ok (VHandle b));
                      (CallNewContext b, Ok (VHandle c));
                      (CallNewPage c, Throw e)]).
      cbn [calls locals world]. unfold toClose.
      cbn [pageVar contextVar browserVar].
      rewrite L0, openedHandles_app, O0, C0, <- !app_assoc.
      split; [reflexivity|]. split; [reflexivity|].
      split; [apply Forall_app; split; [exact F0 | repeat constructor]|].
      left. eauto. }
  apply invoke_inv in H5. destruct H5 as (w5 & _ & ->).
  apply bind_inv in H. destruct H as [(s6 & [] & H6 & H)|(e & H6 & _)];
    [|discriminate].
  injection H6 as <-. cbn [world calls locals] in H.
  destruct (Htail c p _ _ _ H) as (L & mid & C & F).
  destruct (@openedHandles_mid u isVercel mid F) as [Om Fm].
  exists (pre ++ [(CallLaunch, Ok (VHandle b));
                  (CallNewContext b, Ok (VHandle c));
                  (CallNewPage c, Ok (VHandle p))] ++ mid).
  cbn [calls locals] in *. rewrite L, C. unfold toClose.
  cbn [pageVar contextVar browserVar map_result].
  rewrite !openedHandles_app, O0, Om, C0, <- !app_assoc.
  split; [reflexivity|]. split; [reflexivity|].
  split; [apply Forall_app; split; [exact F0|];
          repeat constructor; exact Fm|].
  right. eauto.
Qed.

Lemma Adds_route_tail (u : jsstring) (context page : Handle) :
  Adds (fun call => Navigates u call \/ isClose call)
    (invoke (goto engine page u) (CallGoto page u) (fun _ => VUnit) ;;
     wait engine page 250 ;;
     tabOrder <- buildTabOrderReport engine inPage MAX_TAB_ITERATIONS
                                     page ;;
     aria <- getAriaReport engine page ;;
     closeHandle engine context ;;
     ret {| status := 200; json := success u tabOrder aria |}).
Proof.
  assert (Hpage : forall c, onPage page c ->
                            Navigates u c \/ isClose c).
  { intros c Hc. left. destruct c; cbn in *; try contradiction; exact I. }
  apply Adds_bind; [apply Adds_invoke; left; reflexivity|]. intros _.
  apply Adds_bind; [eapply Adds_weaken; [exact Hpage | apply Adds_wait]|].
  intros _.
  apply Adds_bind;
    [eapply Adds_weaken; [exact Hpage | apply Adds_buildTabOrderReport]|].
  intros tabOrder.
  apply Adds_bind; [eapply Adds_weaken; [exact Hpage | apply Adds_aria]|].
  intros aria.
  apply Adds_bind; [apply Adds_invoke; right; exact I|]. intros _.
  apply Adds_ret.
Qed.

(** The [finally] clause of the route handler closes what the local
    variables hold, and never throws. *)
Lemma route_cleanup_runs (s s' : State World) (rf : result unit) :
  (l <- getLocals ;;
   swallow (closeIfSet engine (pageVar l)) ;;
   swallow (closeIfSet engine (contextVar l)) ;;
   swallow (closeIfSet engine (browserVar l))) s = (s', rf) ->
  rf = Ok tt
  /\ exists cleanup,
       calls s' = calls s ++ cleanup
       /\ map fst cleanup = map CallClose (toClose (locals s))
       /\ (List.length cleanup <= 3)%nat.
Proof.
  assert (Hone : forall h (a b : State World) r,
             swallow (closeIfSet engine h) a = (b, r) ->
             r = Ok tt
             /\ exists closed,
                  calls b = calls a ++ closed
                  /\ map fst closed
                     = map CallClose match h with
                                     | Some x => [x]
                                     | None => []
                                     end).
  { intros h a b r H. apply swallow_inv in H.
    destruct H as (-> & r0 & H). split; [reflexivity|].
    apply closeIfSet_inv in H. destruct H as (_ & H).
    destruct h as [x|].
    - destruct H as (res & C & _). eexists. split; [exact C | reflexivity].
    - destruct H as (C & _). exists []. rewrite app_nil_r. auto. }
  intros H.
  apply bind_inv in H. destruct H as [(s0 & l & H0 & H)|(e & H0 & _)];
    [|discriminate].
  injection H0 as <- <-.
  apply bind_inv in H. destruct H as [(s1 & [] & H1 & H)|(e & H1 & _)].
  2:{ apply Hone in H1. destruct H1 as [H1 _]. discriminate. }
  apply bind_inv in H. destruct H as [(s2 & [] & H2 & H)|(e & H2 & _)].
  2:{ apply Hone in H2. destruct H2 as [H2 _]. discriminate. }
  apply Hone in H1. destruct H1 as (_ & c1 & C1 & M1).
  apply Hone in H2. destruct H2 as (_ & c2 & C2 & M2).
  apply Hone in H. destruct H as (-> & c3 & C3 & M3).
  split; [reflexivity|]. exists (c1 ++ c2 ++ c3).
  split; [rewrite C3, C2, C1, <- !app_assoc; reflexivity|].
  split; [unfold toClose; rewrite !map_app, M1, M2, M3; reflexivity|].
  apply (f_equal (@List.length Call)) in M1, M2, M3.
  rewrite !length_map in M1, M2, M3. rewrite !length_app, M1, M2, M3.
  destruct (pageVar (locals s)), (contextVar (locals s)),
    (browserVar (locals s)); cbn; lia.
Qed.

Lemma resolvePlaywright_runs (u : jsstring) (isVercel : bool)
    (s s' : State World) (r : result unit) :
  resolvePlaywright engine isVercel s = (s', r) ->
  r = Ok tt /\ locals s' = locals s
  /\ exists imports,
       calls s' = calls s ++ imports
       /\ openedHandles imports = []
       /\ Forall (fun e => RouteCall u isVercel (fst e)) imports.
Proof.
  unfold resolvePlaywright. destruct isVercel.
  - intros H. injection H as <- <-. split; [reflexivity|].
    split; [reflexivity|]. exists []. rewrite app_nil_r. auto.
  - intros H. apply try_catch_inv in H.
    destruct H as [(a & H & ->)|(s1 & e & H & Hh)].
    + apply invoke_inv in H. destruct H as (w & _ & ->). destruct a.
      split; [reflexivity|]. split; [reflexivity|].
      eexists. split; [reflexivity|]. split; [reflexivity|].
      repeat constructor.
    + injection Hh as <- <-. apply invoke_inv in H.
      destruct H as (w & _ & ->).
      split; [reflexivity|]. split; [reflexivity|].
      eexists. split; [reflexivity|]. split; [reflexivity|].
      repeat constructor.
Qed.

(** The runs of [POST] on a payload whose url is not blank. *)
Lemma route_runs (isVercel : bool) (payload : JsonValue)
    (rawUrl : jsstring) (s s' : State World) (r : result Response) :
  jsonRawUrl payload = Ok rawUrl ->
  truthy rawUrl = true ->
  POST engine inPage MAX_TAB_ITERATIONS isVercel (Some payload) s
  = (s', r) ->
  let u := normalizeUrl rawUrl in
  exists opened cleanup response,
    calls s' = calls s ++ opened ++ cleanup
    /\ Forall (fun e => RouteCall u isVercel (fst e)) opened
    /\ map fst cleanup = map CallClose (rev (openedHandles opened))
    /\ (List.length cleanup <= 3)%nat
    /\ r = Ok response
    /\ ((status response = 200%nat
         /\ exists t a, json response = success u t a)
        \/ (status response = 500%nat
            /\ exists e, json response = failure u e)).
Proof.
  intros Hraw Hurl H u. unfold POST in H.
  rewrite Hraw, Hurl in H. cbn [negb] in H. fold u in H.
  apply bind_inv in H. destruct H as [(s0 & [] & H0 & H)|(e & H0 & _)].
  2:{ apply (resolvePlaywright_runs u) in H0. destruct H0 as [H0 _].
      discriminate. }
  apply (resolvePlaywright_runs u) in H0.
  destruct H0 as (_ & L0 & imports & C0 & O0 & F0).
  apply bind_inv in H. destruct H as [(s1 & [] & H1 & H)|(e & H1 & _)];
    [|discriminate].
  injection H1 as <-.
  apply try_finally_inv in H. destruct H as (s2 & r2 & rf & Hm & Hf & ->).
  apply route_cleanup_runs in Hf.
  destruct Hf as (-> & cleanup & Cf & Mf & Lf).
  assert (Hbody : exists rb,
             (buildLaunchOptions engine isVercel ;;
              browser <- invoke (launch engine) CallLaunch VHandle ;;
              setBrowser browser ;;
              context <- invoke (newContext engine browser)
                                (CallNewContext browser) VHandle ;;
              setContext context ;;
              page <- invoke (newPage engine context) (CallNewPage context)
                             VHandle ;;
              setPage page ;;
              invoke (goto engine page u) (CallGoto page u)
                     (fun _ => VUnit) ;;
              wait engine page 250 ;;
              tabOrder <- buildTabOrderReport engine inPage
                                              MAX_TAB_ITERATIONS page ;;
              aria <- getAriaReport engine page ;;
              closeHandle engine context ;;
              ret {| status := 200; json := success u tabOrder aria |})
               {| world := world s0; calls := calls s0;
                  locals := noLocals |} = (s2, rb)
             /\ r2 = match rb with
                     | Ok a => Ok a
                     | Throw e =>
                         Ok {| status := 500; json := failure u e |}
                     end).
  { apply try_catch_inv in Hm.
    destruct Hm as [(a & Hm & ->)|(sx & e & Hm & Hh)].
    - exists (Ok a). auto.
    - injection Hh as <- <-. exists (Throw e). auto. }
  destruct Hbody as (rb & Hbody & ->).
  eapply (@route_body_runs _ u isVercel
            (fun context page =>
               invoke (goto engine page u) (CallGoto page u)
                      (fun _ => VUnit) ;;
               wait engine page 250 ;;
               tabOrder <- buildTabOrderReport engine inPage
                                               MAX_TAB_ITERATIONS page ;;
               aria <- getAriaReport engine page ;;
               closeHandle engine context ;;
               ret {| status := 200; json := success u tabOrder aria |}))
    in Hbody; [|intros c p; apply Adds_route_tail|reflexivity].
  destruct Hbody as (opened & Cb & Tb & Fb & Hrb). cbn [calls] in Cb.
  exists (imports ++ opened), cleanup,
    (match rb with
     | Ok a => a
     | Throw e => {| status := 500; json := failure u e |}
     end).
  split; [rewrite Cf, Cb, C0, <- !app_assoc; reflexivity|].
  split; [apply Forall_app; split; assumption|].
  split; [rewrite Mf, Tb, openedHandles_app, O0; reflexivity|].
  split; [exact Lf|].
  split; [destruct rb; reflexivity|].
  destruct rb as [a|e]; [left | right; cbn; eauto].
  destruct Hrb as [(e & He)|(c & p & s3 & Ht)]; [discriminate|].
  repeat (apply bind_inv in Ht;
          destruct Ht as [(? & ? & _ & Ht)|(? & _ & Ht)];
          [|discriminate]).
  injection Ht as _ <-. cbn. eauto.
Qed.

Lemma route_rejects (isVercel : bool) (body : option JsonValue)
    (s : State World) :
  match body with
  | Some payload => jsonRawUrl payload = Ok []
  | None => True
  end ->
  exists st,
    POST engine inPage MAX_TAB_ITERATIONS isVercel body s
    = (s, Ok {| status := 400; json := st |})
    /\ ok st = false /\ url st = None.
Proof.
  unfold POST. destruct body as [payload|].
  - intros ->. cbn [negb truthy]. eexists. split; [reflexivity|]. auto.
  - intros _. eexists. split; [reflexivity|]. auto.
Qed.

(** The three ways in which [POST] ends: it throws what the conversion of
    the url threw, it rejects a body without a url, or it runs the check. *)
Lemma route_cases (isVercel : bool) (body : option JsonValue)
    (s s' : State World) (r : result Response) :
  POST engine inPage MAX_TAB_ITERATIONS isVercel body s = (s', r) ->
  (exists payload e,
      body = Some payload /\ jsonRawUrl payload = Throw e
      /\ s' = s /\ r = Throw e)
  \/ (match body with
      | Some payload => jsonRawUrl payload = Ok []
      | None => True
      end
      /\ s' = s
      /\ exists st, r = Ok {| status := 400; json := st |}
                    /\ ok st = false /\ url st = None)
  \/ (exists payload rawUrl,
        body = Some payload /\ jsonRawUrl payload = Ok rawUrl
        /\ truthy rawUrl = true).
Proof.
  intros E.
  destruct body as [payload|].
  - destruct (jsonRawUrl payload) as [rawUrl|e] eqn:Hraw.
    + destruct rawUrl as [|c rawUrl].
      * right. left.
        destruct (route_rejects isVercel (Some payload) s Hraw)
          as (st & R & Hok & Hu).
        rewrite R in E. injection E as <- <-. eauto 7.
      * right. right. exists payload, (c :: rawUrl). auto.
    + left. unfold POST in E. rewrite Hraw in E. injection E as <- <-.
      exists payload, e. auto.
  - right. left.
    destruct (route_rejects isVercel None s I) as (st & R & Hok & Hu).
    rewrite R in E. injection E as <- <-. eauto 7.
Qed.

(** X16. The route handler closes what it opened, in the reverse order of
    the opening, on every run: its calls end with one [close] for each handle
    that [launch], [newContext] and [newPage] returned, the page first and
    the browser last, whether the check succeeded, failed or never got to
    open a page, and whatever these [close] calls do. *)
Theorem route_closes_what_it_opened (isVercel : bool)
    (body : option JsonValue) (s : State World) :
  let s' := fst (POST engine inPage MAX_TAB_ITERATIONS isVercel
                   body s) in
  exists opened cleanup,
    calls s' = calls s ++ opened ++ cleanup
    /\ map fst cleanup = map CallClose (rev (openedHandles opened))
    /\ (List.length cleanup <= 3)%nat.
Proof.
  cbn zeta.
  destruct (POST engine inPage MAX_TAB_ITERATIONS isVercel body s)
    as [s' r] eqn:E. cbn [fst].
  destruct (route_cases _ _ _ E)
    as [(payload & e & _ & _ & -> & _)
       |[(_ & -> & _)|(payload & rawUrl & -> & Hraw & Hurl)]].
  - exists [], []. rewrite app_nil_r. repeat split; auto.
  - exists [], []. rewrite app_nil_r. repeat split; auto.
  - destruct (@route_runs isVercel payload rawUrl s s' r Hraw Hurl E)
      as (opened & cleanup & response & C & F & M & L & _).
    exists opened, cleanup. auto.
Qed.

End RouteSession.

Section RouteAnswers.

Context {World : Type}.
Variable engine : Browser World.
Variable inPage : Document -> result (option FocusTarget).
Variable MAX_TAB_ITERATIONS : nat.

(** X17. The status of the response tells the outcome. [POST] responds
    unless the conversion of the url of the payload to a string throws; it
    then throws the same, and has made no call to the engine. A response
    has status 400 exactly when the body is not JSON or its url is blank
    (and then no call was made to the engine), status 200 exactly when the
    state is [ok], and status 500 otherwise. *)
Theorem route_status (isVercel : bool) (body : option JsonValue)
    (s : State World) :
  let out := POST engine inPage MAX_TAB_ITERATIONS isVercel body s in
  (exists response,
      snd out = Ok response
      /\ (forall payload, body = Some payload ->
                          exists rawUrl, jsonRawUrl payload = Ok rawUrl)
      /\ (status response = 200%nat \/ status response = 400%nat
          \/ status response = 500%nat)
      /\ (status response = 200%nat <-> ok (json response) = true)
      /\ (status response = 400%nat <->
          match body with
          | Some payload => jsonRawUrl payload = Ok []
          | None => True
          end)
      /\ (status response = 400%nat -> fst out = s))
  \/ (exists payload e,
        body = Some payload /\ jsonRawUrl payload = Throw e
        /\ out = (s, Throw e)).
Proof.
  cbn zeta.
  destruct (POST engine inPage MAX_TAB_ITERATIONS isVercel body s)
    as [s' r] eqn:E. cbn [fst snd].
  destruct (route_cases _ _ _ _ _ _ E)
    as [(payload & e & -> & Hraw & -> & ->)
       |[(Hb & -> & st & -> & Hok & _)
        |(payload & rawUrl & -> & Hraw & Hurl)]].
  - right. exists payload, e. auto.
  - left. eexists. split; [reflexivity|]. cbn [status json].
    split.
    { intros payload ->. exists []. exact Hb. }
    split; [auto|]. split; [rewrite Hok; split; discriminate|].
    split; [tauto | reflexivity].
  - left.
    destruct (@route_runs _ engine inPage MAX_TAB_ITERATIONS isVercel
                payload rawUrl s s' r Hraw Hurl E)
      as (opened & cleanup & response & _ & _ & _ & _ & -> & Hst).
    exists response. split; [reflexivity|].
    split.
    { intros p Hp. injection Hp as <-. exists rawUrl. exact Hraw. }
    assert (Hnot : jsonRawUrl payload <> Ok []).
    { rewrite Hraw. intros H. injection H as ->. discriminate. }
    destruct Hst as [(H200 & t & a & Hj)|(H500 & e & Hj)]; rewrite Hj.
    + rewrite H200. cbn [ok success].
      split; [auto|]. split; [tauto|].
      split; [split; [discriminate | intros H; contradiction]
             | discriminate].
    + rewrite H500. cbn [ok failure].
      split; [auto|]. split; [split; discriminate|].
      split; [split; [discriminate | intros H; contradiction]
             | discriminate].
Qed.

(** X18. The route handler only ever navigates to the normalized url of
    the payload, which carries an [http://] or [https://] prefix; it imports
    the local Playwright package outside Vercel only, and asks for the path
    of the bundled browser on Vercel only. For a payload whose url cannot
    be converted it makes no call at all. *)
Theorem route_calls (isVercel : bool) (payload : JsonValue)
    (s : State World) :
  let s' := fst (POST engine inPage MAX_TAB_ITERATIONS isVercel
                   (Some payload) s) in
  match jsonRawUrl payload with
  | Ok rawUrl =>
      let u := normalizeUrl rawUrl in
      has_http_prefix u = true
      /\ exists added,
           calls s' = calls s ++ added
           /\ Forall (fun e => RouteCall u isVercel (fst e)) added
  | Throw _ => s' = s
  end.
Proof.
  cbn zeta.
  destruct (POST engine inPage MAX_TAB_ITERATIONS isVercel
              (Some payload) s) as [s' r] eqn:E. cbn [fst].
  destruct (route_cases _ _ _ _ _ _ E)
    as [(p & e & Hp & Hraw & -> & _)
       |[(Hb & -> & _)|(p & rawUrl & Hp & Hraw & Hurl)]].
  - injection Hp as <-. rewrite Hraw. reflexivity.
  - rewrite Hb. split; [apply normalizeUrl_prefix|].
    exists []. rewrite app_nil_r. auto.
  - injection Hp as <-. rewrite Hraw.
    split; [apply normalizeUrl_prefix|].
    destruct (@route_runs _ engine inPage MAX_TAB_ITERATIONS isVercel
                payload rawUrl s s' r Hraw Hurl E)
      as (opened & cleanup & response & C & F & M & _).
    exists (opened ++ cleanup). split; [exact C|].
    apply Forall_app. split; [exact F|].
    apply Forall_forall. intros [c res] Hin.
    apply (in_map fst) in Hin. rewrite M in Hin.
    apply in_map_iff in Hin. destruct Hin as (h & <- & _). exact I.
Qed.

End RouteAnswers.

(** ** The sessions on the simulated page *)

Example action_session_calls :
  map fst (calls (fst (ActionsTs.checkAccessibilityAction Sim.engine
                         [(lit "url", EntryString (lit "nowhere.invalid"))]
                         (Sim.start {| Sim.links := 0; Sim.wraps := false;
                                       Sim.back := 1; Sim.focusable := true;
                                       Sim.reachable := false;
                                       Sim.focus := 0 |}))))
  = [CallImport; CallLaunch; CallNewPage 1;
     CallGoto 3 (lit "https://nowhere.invalid"); CallClose 1].
Proof. vm_compute. reflexivity. Qed.

(** On a page with a link the action of [src/actions.ts] stops at its
    first extraction. *)
Example action_session_link :
  map fst (calls (fst (ActionsTs.checkAccessibilityAction Sim.engine
                         [(lit "url", EntryString (lit "example.com"))]
                         (Sim.start (Sim.page 3 false)))))
  = [CallImport; CallLaunch; CallNewPage 1;
     CallGoto 3 (lit "https://example.com"); CallWait 3 250; CallBlur 3;
     CallPress 3 Tab; CallWait 3 50; CallMetadata 3; CallClose 1].
Proof. vm_compute. reflexivity. Qed.

Example route_session_calls :
  map fst (calls (fst (RouteTs.POST Sim.engine Sim.lowerAscii true
                         (Some (JObject [(lit "url",
                                          JString (lit "nowhere.invalid"))]))
                         (Sim.start {| Sim.links := 0; Sim.wraps := false;
                                       Sim.back := 1; Sim.focusable := true;
                                       Sim.reachable := false;
                                       Sim.focus := 0 |}))))
  = [CallExecutablePath; CallLaunch; CallNewContext 1; CallNewPage 2;
     CallGoto 3 (lit "https://nowhere.invalid");
     CallClose 3; CallClose 2; CallClose 1].
Proof. vm_compute. reflexivity. Qed.

Example action_close_throws :
  snd (ActionsTs.checkAccessibilityAction (Sim.faulty 99 true)
         [(lit "url", EntryString (lit "example.com"))]
         (Sim.start (Sim.page 3 false)))
  = Throw (ErrorObject (lit "Browser has been closed")).
Proof. vm_compute. reflexivity. Qed.

Example route_close_throws :
  match snd (RouteTs.POST (Sim.faulty 99 true) Sim.lowerAscii false
               (Some (JObject [(lit "url", JString (lit "example.com"))]))
               (Sim.start (Sim.page 3 false))) with
  | Ok response => status response = 500%nat
  | Throw _ => False
  end.
Proof. vm_compute. reflexivity. Qed.

(** ** The server action that calls the route handler *)

Lemma normalizeUrl_Trimmed (r : jsstring) :
  r <> [] -> Trimmed r -> Trimmed (normalizeUrl r).
Proof.
  intros Hne [H1 H2]. unfold normalizeUrl.
  destruct (has_http_prefix r); [split; assumption|].
  split; [reflexivity|].
  rewrite rev_app_distr. destruct (rev r) as [|c t] eqn:E.
  - apply (f_equal (@rev _)) in E. rewrite rev_involutive in E.
    contradiction.
  - exact H2.
Qed.

Lemma normalizeUrl_fixed (r : jsstring) :
  normalizeUrl (normalizeUrl r) = normalizeUrl r.
Proof.
  unfold normalizeUrl at 1. rewrite normalizeUrl_prefix. reflexivity.
Qed.

Lemma normalizeUrl_nonempty (r : jsstring) : r <> [] -> normalizeUrl r <> [].
Proof.
  intros H. unfold normalizeUrl. destruct (has_http_prefix r);
    [exact H | discriminate].
Qed.

Lemma formRawUrl_Trimmed (formData : FormData) :
  Trimmed (formRawUrl formData).
Proof. unfold formRawUrl. apply trim_Trimmed. Qed.

(** The route handler reads back the url that the action sent. *)
Lemma jsonRawUrl_requestBody (formData : FormData) :
  truthy (formRawUrl formData) = true ->
  let u := normalizeUrl (formRawUrl formData) in
  jsonRawUrl (LibActionsTs.requestBody u) = Ok u /\ normalizeUrl u = u
  /\ truthy u = true.
Proof.
  intros H u. apply truthy_true in H.
  assert (Hu : trim u = u).
  { apply trim_fixed, normalizeUrl_Trimmed;
      [exact H | apply formRawUrl_Trimmed]. }
  split; [|split].
  - unfold jsonRawUrl, LibActionsTs.requestBody, payloadUrl.
    cbn [member]. rewrite str_eqb_refl.
    cbn [callToString jsonToString map_result]. rewrite Hu. reflexivity.
  - apply normalizeUrl_fixed.
  - apply truthy_true, normalizeUrl_nonempty. exact H.
Qed.

Section LibAction.

Context {World : Type}.
Variable network : LibActionsTs.Network World.
Variable env : LibActionsTs.Env.

(** X19. The action of [src/lib/actions.ts] sends at most one request: a
    POST of the JSON object whose [url] is the normalized url of the form,
    to the URL built from [/api/check] and the base URL. A blank url is
    answered before anything else is done: no request is sent and no URL is
    built, so it is answered even where the base URL is no URL. *)
Theorem lib_action_requests (formData : FormData)
    (s : LibActionsTs.NetState World) :
  let out := LibActionsTs.checkAccessibilityAction network env formData s in
  let u := normalizeUrl (formRawUrl formData) in
  (exists sent,
      LibActionsTs.requests (fst out) = LibActionsTs.requests s ++ sent
      /\ (List.length sent <= 1)%nat
      /\ forall q, In q sent ->
           LibActionsTs.reqMethod q = lit "POST"
           /\ LibActionsTs.reqContentType q = lit "application/json"
           /\ LibActionsTs.reqBody q = LibActionsTs.requestBody u
           /\ LibActionsTs.newURL network LibActionsTs.API_PATH
                (LibActionsTs.resolveBaseUrl env)
              = Ok (LibActionsTs.reqUrl q))
  /\ (truthy (formRawUrl formData) = false ->
      out = (s, Ok (LibActionsTs.Built missingUrl))).
Proof.
  cbn zeta. unfold LibActionsTs.checkAccessibilityAction.
  destruct (truthy (formRawUrl formData)); cbn [negb].
  - split; [|discriminate].
    destruct (LibActionsTs.newURL network LibActionsTs.API_PATH
                (LibActionsTs.resolveBaseUrl env)) as [apiUrl|e] eqn:Eu.
    + destruct (LibActionsTs.fetch network _ (LibActionsTs.net s))
        as [w fetched].
      eexists [_].
      split; [destruct fetched as [resp|e];
              [destruct (LibActionsTs.respOk resp); cbn [negb];
               [destruct (LibActionsTs.respJson resp)|]|];
              reflexivity|].
      split; [cbn; lia|].
      intros q [<-|[]]. cbn. auto.
    + exists []. cbn [fst]. rewrite app_nil_r.
      split; [reflexivity|]. split; [cbn; lia|]. intros q [].
  - split; [|reflexivity].
    exists []. cbn [fst]. rewrite app_nil_r.
    split; [reflexivity|]. split; [cbn; lia|]. intros q [].
Qed.

(** X20. What the action of [src/lib/actions.ts] resolves to. It throws
    only what the [URL] constructor threw. A state that it builds itself is
    a failure with one message and no report; for a response that is not
    [ok] the message names the status and the body is not read. A payload is
    passed on only from a response that is [ok] and whose body parsed. *)
Theorem lib_action_outcomes (formData : FormData)
    (s : LibActionsTs.NetState World) :
  let out := LibActionsTs.checkAccessibilityAction network env formData s in
  let u := normalizeUrl (formRawUrl formData) in
  (forall e, snd out = Throw e ->
             LibActionsTs.newURL network LibActionsTs.API_PATH
               (LibActionsTs.resolveBaseUrl env) = Throw e
             /\ fst out = s)
  /\ (forall st, snd out = Ok (LibActionsTs.Built st) ->
                 ok st = false /\ tabOrder st = None /\ aria st = None
                 /\ exists m, errors st = Some [m])
  /\ (forall payload, snd out = Ok (LibActionsTs.Received payload) ->
        exists q response,
          snd (LibActionsTs.fetch network q (LibActionsTs.net s))
          = Ok response
          /\ LibActionsTs.respOk response = true
          /\ LibActionsTs.respJson response = Ok payload)
  /\ (forall q response,
        LibActionsTs.newURL network LibActionsTs.API_PATH
          (LibActionsTs.resolveBaseUrl env) = Ok (LibActionsTs.reqUrl q) ->
        truthy (formRawUrl formData) = true ->
        LibActionsTs.reqMethod q = lit "POST" ->
        LibActionsTs.reqContentType q = lit "application/json" ->
        LibActionsTs.reqBody q = LibActionsTs.requestBody u ->
        snd (LibActionsTs.fetch network q (LibActionsTs.net s))
        = Ok response ->
        LibActionsTs.respOk response = false ->
        snd out = Ok (LibActionsTs.Built
                        (LibActionsTs.serviceFailure u
                           (LibActionsTs.respStatus response)))).
Proof.
  cbn zeta. unfold LibActionsTs.checkAccessibilityAction.
  destruct (truthy (formRawUrl formData)); cbn [negb].
  - destruct (LibActionsTs.newURL network LibActionsTs.API_PATH
                (LibActionsTs.resolveBaseUrl env)) as [apiUrl|e0] eqn:Eu.
    + set (request := {| LibActionsTs.reqUrl := apiUrl;
                         LibActionsTs.reqMethod := lit "POST";
                         LibActionsTs.reqContentType :=
                           lit "application/json";
                         LibActionsTs.reqBody :=
                           LibActionsTs.requestBody
                             (normalizeUrl (formRawUrl formData)) |}).
      destruct (LibActionsTs.fetch network request (LibActionsTs.net s))
        as [w fetched] eqn:Ef.
      assert (Hq : forall q,
                 Ok apiUrl = Ok (LibActionsTs.reqUrl q) ->
                 LibActionsTs.reqMethod q = lit "POST" ->
                 LibActionsTs.reqContentType q = lit "application/json" ->
                 LibActionsTs.reqBody q
                 = LibActionsTs.requestBody
                     (normalizeUrl (formRawUrl formData)) ->
                 q = request).
      { intros [qu qm qc qb] H1 H2 H3 H4. cbn in *.
        injection H1 as ->. subst. reflexivity. }
      destruct fetched as [resp|e1].
      * destruct (LibActionsTs.respOk resp) eqn:Eok; cbn [negb].
        -- destruct (LibActionsTs.respJson resp) as [payload|e2] eqn:Ej;
             cbn [snd fst].
           ++ split; [discriminate|]. split; [discriminate|]. split.
              ** intros p H. injection H as <-. exists request, resp.
                 rewrite Ef. auto.
              ** intros q response H1 _ H2 H3 H4 H5 H6.
                 rewrite (Hq q H1 H2 H3 H4), Ef in H5. injection H5 as <-.
                 congruence.
           ++ split; [discriminate|]. split.
              ** intros st H. injection H as <-. cbn. eauto.
              ** split; [discriminate|].
                 intros q response H1 _ H2 H3 H4 H5 H6.
                 rewrite (Hq q H1 H2 H3 H4), Ef in H5. injection H5 as <-.
                 congruence.
        -- cbn [snd fst]. split; [discriminate|]. split.
           ++ intros st H. injection H as <-. cbn. eauto.
           ++ split; [discriminate|].
              intros q response H1 _ H2 H3 H4 H5 H6.
              rewrite (Hq q H1 H2 H3 H4), Ef in H5. injection H5 as <-.
              reflexivity.
      * cbn [snd fst]. split; [discriminate|]. split.
        -- intros st H. injection H as <-. cbn. eauto.
        -- split; [discriminate|].
           intros q response H1 _ H2 H3 H4 H5 H6.
           rewrite (Hq q H1 H2 H3 H4), Ef in H5. discriminate.
    + cbn [snd fst]. split; [intros e H; injection H as <-; auto|].
      split; [discriminate|]. split; [discriminate|].
      intros q response H. discriminate.
  - cbn [snd fst]. split; [discriminate|]. split.
    + intros st H. injection H as <-. cbn. eauto.
    + split; [discriminate|]. intros q response _ H. discriminate.
Qed.

(** X21. The base URL of the service: outside production it is
    [http://localhost:3000] whatever the other variables are; in production
    it is [NEXT_PUBLIC_APP_URL] verbatim when that is set and not empty, and
    otherwise a URL that starts with [https://]. *)
Theorem resolveBaseUrl_spec :
  (LibActionsTs.NODE_ENV env <> Some (lit "production") ->
   LibActionsTs.resolveBaseUrl env = lit "http://localhost:3000")
  /\ (LibActionsTs.NODE_ENV env = Some (lit "production") ->
      (exists appUrl, LibActionsTs.NEXT_PUBLIC_APP_URL env = Some appUrl
                      /\ appUrl <> []
                      /\ LibActionsTs.resolveBaseUrl env = appUrl)
      \/ ((LibActionsTs.NEXT_PUBLIC_APP_URL env = None
           \/ LibActionsTs.NEXT_PUBLIC_APP_URL env = Some [])
          /\ exists rest,
               LibActionsTs.resolveBaseUrl env = lit "https://" ++ rest
               /\ rest <> []))
  /\ LibActionsTs.resolveBaseUrl env <> [].
Proof.
  unfold LibActionsTs.resolveBaseUrl.
  destruct (opt_eqb (LibActionsTs.NODE_ENV env) (Some (lit "production")))
    eqn:E; cbn [negb].
  - apply opt_eqb_eq in E.
    split; [intros H; contradiction|]. split.
    + intros _.
      destruct (LibActionsTs.NEXT_PUBLIC_APP_URL env) as [[|c appUrl]|].
      * right. split; [auto|].
        destruct (LibActionsTs.VERCEL_URL env) as [[|d v]|];
          eexists; (split; [reflexivity | discriminate]).
      * left. eexists. split; [reflexivity|].
        split; [discriminate | reflexivity].
      * right. split; [auto|].
        destruct (LibActionsTs.VERCEL_URL env) as [[|d v]|];
          eexists; (split; [reflexivity | discriminate]).
    + destruct (LibActionsTs.NEXT_PUBLIC_APP_URL env) as [[|c appUrl]|];
        try discriminate;
        destruct (LibActionsTs.VERCEL_URL env) as [[|d v]|]; discriminate.
  - split; [reflexivity|]. split; [|discriminate].
    intros H. rewrite H, (proj2 (opt_eqb_eq _ _) eq_refl) in E.
    discriminate.
Qed.

End LibAction.

Section ActionToRoute.

Context {World : Type}.
Variable engine : Browser World.
Variable inPage : Document -> result (option FocusTarget).
Variable MAX_TAB_ITERATIONS : nat.

(** X22. The action and the route handler agree on the url: the body that
    the action of [src/lib/actions.ts] sends for a form whose url is not
    blank is never rejected by [POST] with status 400, and the state in the
    response carries the very url that the action normalized, although the
    route handler trims and normalizes it again. *)
Theorem route_accepts_action_body (isVercel : bool) (formData : FormData)
    (s : State World)
    (Hurl : truthy (formRawUrl formData) = true) :
  let u := normalizeUrl (formRawUrl formData) in
  exists s' response,
    POST engine inPage MAX_TAB_ITERATIONS isVercel
         (Some (LibActionsTs.requestBody u)) s = (s', Ok response)
    /\ status response <> 400%nat
    /\ url (json response) = Some u.
Proof.
  cbn zeta.
  destruct (jsonRawUrl_requestBody formData Hurl) as (Hraw & Hfix & Ht).
  destruct (POST engine inPage MAX_TAB_ITERATIONS isVercel
              (Some (LibActionsTs.requestBody
                       (normalizeUrl (formRawUrl formData)))) s)
    as [s' r] eqn:E.
  destruct (@route_runs _ engine inPage MAX_TAB_ITERATIONS isVercel
              _ _ s s' r Hraw Ht E)
    as (opened & cleanup & response & _ & _ & _ & _ & -> & Hst).
  rewrite Hfix in Hst.
  exists s', response. split; [reflexivity|].
  destruct Hst as [(H200 & t & a & Hj)|(H500 & e & Hj)]; rewrite Hj.
  - rewrite H200. split; [discriminate | reflexivity].
  - rewrite H500. split; [discriminate | reflexivity].
Qed.

End ActionToRoute.

Lemma route_accepts_action_body_witness :
  exists s' response,
    POST Sim.engine (RouteTs.activeElementClosure Sim.lowerAscii) 100 false
      (Some (LibActionsTs.requestBody (lit "https://example.com")))
      (Sim.start (Sim.page 3 false)) = (s', Ok response)
    /\ status response <> 400%nat.
Proof.
  destruct (@route_accepts_action_body _ Sim.engine
              (RouteTs.activeElementClosure Sim.lowerAscii) 100 false
              [(lit "url", EntryString (lit "  example.com "))]
              (Sim.start (Sim.page 3 false)) eq_refl)
    as (s' & response & H & H400 & _).
  exists s', response. split; [exact H | exact H400].
Defined.

(** ** The results panel *)

Lemma panels_success u t a :
  CheckerUi.panels (success u t a)
  = [CheckerUi.TabOrderResults t; CheckerUi.AriaResults a].
Proof. reflexivity. Qed.

Lemma panels_failure u e :
  CheckerUi.panels (failure u e) = [CheckerUi.ErrorList [errorMessage e]].
Proof. reflexivity. Qed.

Section Panels.

Context {World : Type}.
Variable engine : Browser World.
Variable inPage : Document -> result (option FocusTarget).
Variable MAX_TAB_ITERATIONS : nat.

(** X23. What the page shows for a result of the check: for every state
    that the server action of [src/actions.ts] returns, and for the state of
    every response of the route handler, the panel holds either the tab-order
    results followed by the ARIA results, or the list of errors alone, which
    is then not empty. Before any check it holds nothing. *)
Theorem panels_of_results :
  let shown st :=
    (exists t a, ok st = true
                 /\ CheckerUi.panels st
                    = [CheckerUi.TabOrderResults t; CheckerUi.AriaResults a])
    \/ (exists m, ok st = false
                  /\ CheckerUi.panels st = [CheckerUi.ErrorList [m]]) in
  (forall formData s s' st,
      checkAccessibilityAction engine inPage MAX_TAB_ITERATIONS
                               formData s = (s', Ok st) ->
      shown st)
  /\ (forall isVercel body s s' response,
         POST engine inPage MAX_TAB_ITERATIONS isVercel body s
         = (s', Ok response) ->
         shown (json response))
  /\ CheckerUi.panels CheckerUi.initialState = [].
Proof.
  cbn zeta. split; [|split; [|reflexivity]].
  - intros formData s s' st H.
    destruct (truthy (formRawUrl formData)) eqn:Hurl.
    + destruct (@action_runs _ _ _ _ _ _ _ _ Hurl H)
        as [(e & Hr & _)|(h & mid & res & st0 & _ & _ & Hst & Hr)].
      * injection Hr as ->. right. eexists. split; reflexivity.
      * destruct res; [|discriminate]. injection Hr as ->.
        destruct Hst as [(t & rep & ->)|(e & ->)].
        -- left. exists t, rep. split; reflexivity.
        -- right. eexists. split; reflexivity.
    + rewrite (@action_blank _ engine inPage MAX_TAB_ITERATIONS
                 formData s Hurl) in H.
      injection H as _ <-. right. eexists. split; reflexivity.
  - intros isVercel body s s' response H.
    destruct (route_cases _ _ _ _ _ _ H)
      as [(payload & e & _ & _ & _ & Hr)
         |[(Hb & _ & _)|(payload & rawUrl & -> & Hraw & Hurl)]].
    + discriminate.
    + right. unfold POST in H. destruct body as [payload|].
      * rewrite Hb in H. injection H as _ <-. eexists. split; reflexivity.
      * injection H as _ <-. eexists. split; reflexivity.
    + destruct (@route_runs _ engine inPage MAX_TAB_ITERATIONS isVercel
                  payload rawUrl s s' _ Hraw Hurl H)
        as (opened & cleanup & resp & _ & _ & _ & _ & Hr & Hst).
      injection Hr as <-.
      destruct Hst as [(_ & t & rep & ->)|(_ & e & ->)].
      * left. exists t, rep. split; reflexivity.
      * right. eexists. split; reflexivity.
Qed.

(** X24. The issues listed for a report of the walk: the cycle issue and
    the limit issue are never listed together, so there are two issues at
    most, and none exactly when the walk neither detected a cycle nor
    reached its limit and Shift+Tab was not found inconsistent (an order
    that could not be verified is no issue). *)
Theorem issues_of_report (page : Handle) (s s' : State World)
    (r : TabOrderReport)
    (Hrun : buildTabOrderReport engine inPage MAX_TAB_ITERATIONS page s
            = (s', Ok r)) :
  CheckerUi.tabOrderIssues r
  = (if cycleDetected r then [CheckerUi.cycleIssue]
     else if limitReached r then [CheckerUi.limitIssue] else [])
    ++ match shiftTabConsistent r with
       | Some false => [CheckerUi.shiftTabIssue]
       | _ => []
       end
  /\ (List.length (CheckerUi.tabOrderIssues r) <= 2)%nat
  /\ (CheckerUi.tabOrderIssues r = [] <->
      cycleDetected r = false /\ limitReached r = false
      /\ shiftTabConsistent r <> Some false).
Proof.
  destruct (@buildTabOrderReport_trace _ _ _ _ _ _ _ _ Hrun)
    as (tail & rest & _ & _ & _ & _ & Hlen & _ & Hcyc & Hlim).
  assert (Hex : cycleDetected r = true -> limitReached r = false).
  { intros Hc. apply Hcyc in Hc. destruct Hc as (t & ->).
    rewrite Hlim. apply Nat.eqb_neq. cbn in Hlen. lia. }
  unfold CheckerUi.tabOrderIssues.
  destruct (cycleDetected r) eqn:Ec.
  - rewrite (Hex eq_refl).
    destruct (shiftTabConsistent r) as [[|]|]; cbn;
      (split; [reflexivity|]); (split; [lia|]);
      (split; [discriminate | intros (H & _); discriminate]).
  - destruct (limitReached r), (shiftTabConsistent r) as [[|]|]; cbn;
      (split; [reflexivity|]); (split; [lia|]);
      (split; [try discriminate; intros _; repeat split; discriminate
              | intros (H1 & H2 & H3); try discriminate;
                try reflexivity; try (exfalso; apply H3; reflexivity)]).
Qed.

End Panels.

Section LimitMessage.

Context {World : Type}.
Variable engine : Browser World.
Variable toLowerCase : jsstring -> jsstring.
Variable inPage : Document -> result (option FocusTarget).

(** X25. The limit that the page reports is not the limit of the route
    handler: a report of the route handler that reached its limit lists 100
    entries, and the issue shown for it says that the limit is 30. *)
Theorem limit_issue_names_30 (page : Handle) (s s' : State World)
    (r : TabOrderReport)
    (Hrun : RouteTs.buildTabOrderReport engine toLowerCase page s
            = (s', Ok r))
    (Hlimit : limitReached r = true) :
  List.length (visited r) = 100%nat
  /\ CheckerUi.tabOrderIssues r
     = lit "Tab traversal hit the iteration limit (30). There may be many focusable elements or a loop."
       :: match shiftTabConsistent r with
          | Some false => [CheckerUi.shiftTabIssue]
          | _ => []
          end.
Proof.
  unfold RouteTs.buildTabOrderReport in Hrun.
  destruct (@buildTabOrderReport_trace _ _ _ _ _ _ _ _ Hrun)
    as (tail & rest & _ & _ & _ & _ & Hlen & _ & Hcyc & Hlim).
  rewrite Hlimit in Hlim. symmetry in Hlim. apply Nat.eqb_eq in Hlim.
  split; [exact Hlim|].
  assert (Hc : cycleDetected r = false).
  { destruct (cycleDetected r) eqn:E; [|reflexivity].
    destruct (proj1 Hcyc eq_refl) as (t & ->). cbn in Hlen.
    unfold AccessibilityTypes.MAX_TAB_ITERATIONS in *. lia. }
  unfold CheckerUi.tabOrderIssues. rewrite Hc, Hlimit.
  destruct (shiftTabConsistent r) as [[|]|]; reflexivity.
Qed.


End LimitMessage.

Lemma issues_of_report_witness :
  exists r,
    Sim.report (Sim.page 3 true) = Ok r
    /\ CheckerUi.tabOrderIssues r = [CheckerUi.cycleIssue].
Proof.
  eassert (H : buildTabOrderReport Sim.engine
                 (RouteTs.activeElementClosure Sim.lowerAscii) 100 3
                 (Sim.start (Sim.page 3 true)) = (_, Ok _))
    by (vm_compute; reflexivity).
  eexists.
  split; [unfold Sim.report, Sim.walk, RouteTs.buildTabOrderReport,
            AccessibilityTypes.MAX_TAB_ITERATIONS; rewrite H; reflexivity|].
  exact (proj1 (@issues_of_report _ _ _ _ _ _ _ _ H)).
Defined.

Lemma limit_issue_names_30_witness :
  exists r,
    snd (RouteTs.buildTabOrderReport Sim.engine Sim.lowerAscii 3
           (Sim.start (Sim.page 120 false))) = Ok r
    /\ List.length (visited r) = 100%nat.
Proof.
  eassert (H : RouteTs.buildTabOrderReport Sim.engine Sim.lowerAscii 3
                 (Sim.start (Sim.page 120 false)) = (_, Ok _))
    by (vm_compute; reflexivity).
  eexists. split; [rewrite H; reflexivity|].
  exact (proj1 (@limit_issue_names_30 _ _ _ _ _ _ _ H eq_refl)).
Defined.

